(** * The Plant Exchange: event store, projections and SSE fan-out

    A shallow embedding of [server.js]: the domain factories, the
    [EventStore], the [StateProjections] (the RxJS [scan] pipelines and
    [rebuildFromHistory]), the [PlantExchangeService] command handlers and
    the SSE broadcast of [PlantExchangeServer].

    JavaScript runs each callback to completion, so the synchronous part of
    an [async] method (everything up to its first pending [await]) is one
    atomic state transformer; the completion of the awaited file write is a
    separate step, and so is each step the write takes on the file before
    that: opening it, which empties it, and writing the text in place. *)

From Stdlib Require Import ZArith NArith String Ascii List Bool Lia.
From Stdlib Require OrderedTypeEx.
From Stdlib Require Import Sorted.
From stdpp Require Import base decidable option list strings gmap.
Import ListNotations.
Local Open Scope string_scope.

(* ===================================================================== *)
(** ** JavaScript values carried by the domain objects *)
(* ===================================================================== *)

(** Caller-supplied fields are JSON strings, [null], or absent
    ([undefined]). *)
Inductive JsVal : Type :=
  | Undefined
  | Null
  | Str (s : string).

#[global] Instance JsVal_eq_dec : EqDecision JsVal.
Proof. solve_decision. Defined.

(** A default parameter value [x = d] replaces [undefined] only. *)
Definition default_param (d v : JsVal) : JsVal :=
  match v with
  | Undefined => d
  | _ => v
  end.

(** [ToString] on the values above, as used for object property keys. *)
Definition ToPropertyKey (v : JsVal) : string :=
  match v with
  | Undefined => "undefined"
  | Null => "null"
  | Str s => s
  end.

(** What a call can do to its caller. *)
Inductive JsError : Type :=
  | TypeError (msg : string)
  | SystemError (msg : string).

#[global] Instance JsError_eq_dec : EqDecision JsError.
Proof. solve_decision. Defined.

Inductive Outcome (A : Type) : Type :=
  | Returned (a : A)
  | Threw (err : JsError).
Arguments Returned {A} a.
Arguments Threw {A} err.

(* ===================================================================== *)
(** ** Insertion-ordered containers: [Map] and plain objects *)
(* ===================================================================== *)

Section Assoc.
Context {K V : Type} `{EqDecision K}.

(** Writing a key keeps the position of an existing entry and appends a
    new one at the end. *)
Fixpoint assoc_set (k : K) (v : V) (m : list (K * V)) : list (K * V) :=
  match m with
  | [] => [(k, v)]
  | (k', v') :: m' =>
      if decide (k' = k) then (k, v) :: m' else (k', v') :: assoc_set k v m'
  end.

Fixpoint assoc_delete (k : K) (m : list (K * V)) : list (K * V) :=
  match m with
  | [] => []
  | (k', v') :: m' =>
      if decide (k' = k) then assoc_delete k m' else (k', v') :: assoc_delete k m'
  end.

Fixpoint assoc_get (k : K) (m : list (K * V)) : option V :=
  match m with
  | [] => None
  | (k', v') :: m' => if decide (k' = k) then Some v' else assoc_get k m'
  end.

Definition assoc_of_pairs (pairs : list (K * V)) : list (K * V) :=
  fold_left (fun m kv => assoc_set (fst kv) (snd kv) m) pairs [].

Definition keys (m : list (K * V)) : list K := map fst m.
End Assoc.

(** A JS [Map] keyed by primitive values (SameValueZero is plain equality
    on [JsVal]). *)
Definition JsMap (V : Type) : Type := list (JsVal * V).

Definition Map_empty {V} : JsMap V := [].
Definition Map_set {V} (k : JsVal) (v : V) (m : JsMap V) : JsMap V := assoc_set k v m.
Definition Map_delete {V} (k : JsVal) (m : JsMap V) : JsMap V := assoc_delete k m.
Definition Map_get {V} (k : JsVal) (m : JsMap V) : option V := assoc_get k m.
Definition Map_has {V} (k : JsVal) (m : JsMap V) : bool := bool_decide (k ∈ keys m).
(** [new Map(iterable)] sets the entries one after the other. *)
Definition Map_new {V} (entries : list (JsVal * V)) : JsMap V := assoc_of_pairs entries.
(** [Array.from(m.values())] *)
Definition Map_values {V} (m : JsMap V) : list V := map snd m.

(** A real [Map] never holds a key twice. *)
Definition Map_wf {V} (m : JsMap V) : Prop := NoDup (keys m).

(** A plain object: own string-keyed properties in creation order. *)
Definition JsObject (V : Type) : Type := list (string * V).

(** [o[k] = v] on a plain object.  The key [__proto__] is the accessor
    every plain object inherits: an assignment through it adds no
    property (an object given there becomes the prototype of [o], any
    other value is ignored). *)
Definition obj_set {V} (k : string) (v : V) (o : JsObject V) : JsObject V :=
  if String.eqb k "__proto__" then o else assoc_set k v o.

(** Canonical array indices ("0", "17", ... below 2^32 - 1) are enumerated
    before every other key, in ascending numeric order. *)
Definition digit_of (c : ascii) : option N :=
  let n := N_of_ascii c in
  if ((48 <=? n) && (n <=? 57))%N then Some (n - 48)%N else None.

Fixpoint parse_digits (acc : N) (s : string) : option N :=
  match s with
  | EmptyString => Some acc
  | String c s' =>
      match digit_of c with
      | Some d => parse_digits (acc * 10 + d)%N s'
      | None => None
      end
  end.

Definition array_index (s : string) : option N :=
  match s with
  | EmptyString => None
  | String c rest =>
      if (N_of_ascii c =? 48)%N then
        match rest with EmptyString => Some 0%N | _ => None end
      else
        match parse_digits 0 s with
        | Some n => if (n <? 4294967295)%N then Some n else None
        | None => None
        end
  end.

Fixpoint insert_by_index {V} (n : N) (kv : string * V) (l : list (N * (string * V)))
  : list (N * (string * V)) :=
  match l with
  | [] => [(n, kv)]
  | (n', kv') :: l' =>
      if (n <? n')%N then (n, kv) :: l else (n', kv') :: insert_by_index n kv l'
  end.

Fixpoint index_entries {V} (o : JsObject V) : list (N * (string * V)) :=
  match o with
  | [] => []
  | kv :: o' =>
      match array_index (fst kv) with
      | Some n => insert_by_index n kv (index_entries o')
      | None => index_entries o'
      end
  end.

Definition string_entries {V} (o : JsObject V) : JsObject V :=
  List.filter (fun kv => match array_index (fst kv) with Some _ => false | None => true end) o.

(** [Object.entries(o)], also the order of [for (prop in o)]. *)
Definition Object_entries {V} (o : JsObject V) : list (string * V) :=
  map snd (index_entries o) ++ string_entries o.

(** Ramda: [R.fromPairs] assigns [result[pair[0]] = pair[1]] pair by pair. *)
Definition R_fromPairs {V} (pairs : list (JsVal * V)) : JsObject V :=
  fold_left (fun o kv => obj_set (ToPropertyKey (fst kv)) (snd kv) o) pairs [].

Definition not_a_function : JsError :=
  TypeError "index.hasOwnProperty is not a function".

(** Ramda: [R.omit(names, obj)] first records the names in a plain object,
    [index[name] = 1], then walks [for (prop in obj)] and copies every
    property for which [index.hasOwnProperty(prop)] is false.  A name
    [hasOwnProperty] hides that method behind the number 1, and the first
    property visited makes the call throw.  (The walk would also visit
    properties [obj] inherits; an object built by [R_fromPairs] inherits
    none unless a pair was keyed [__proto__].) *)
Definition omit_index (names : list JsVal) : JsObject nat :=
  fold_left (fun index name => obj_set (ToPropertyKey name) 1 index) names [].

Definition R_omit {V} (names : list JsVal) (obj : JsObject V) : Outcome (JsObject V) :=
  let index := omit_index names in
  match Object_entries obj with
  | [] => Returned []
  | props =>
      if bool_decide ("hasOwnProperty" ∈ keys index)
      then Threw not_a_function
      else Returned
             (List.filter (fun kv => negb (bool_decide (fst kv ∈ keys index))
                                     && negb (String.eqb (fst kv) "__proto__")) props)
  end.

(** [new Map(Object.entries(o))]: the keys are the property names. *)
Definition Map_of_object {V} (o : JsObject V) : JsMap V :=
  Map_new (map (fun kv => (Str (fst kv), snd kv)) (Object_entries o)).

(* ===================================================================== *)
(** ** Domain models *)
(* ===================================================================== *)

Module EventTypes.
Definition MEMBER_REGISTERED : string := "MEMBER_REGISTERED".
Definition PLANT_OFFERED : string := "PLANT_OFFERED".
Definition PLANT_WANTED : string := "PLANT_WANTED".
Definition MESSAGE_SENT : string := "MESSAGE_SENT".
Definition TRADE_INITIATED : string := "TRADE_INITIATED".
Definition TRADE_COMPLETED : string := "TRADE_COMPLETED".
Definition PLANT_REMOVED : string := "PLANT_REMOVED".
End EventTypes.
Import EventTypes.

Record Member : Type := {
  member_id : JsVal;
  member_name : JsVal;
  email : JsVal;
  location : JsVal;
  bio : JsVal;
  joinedAt : string;
  reputation : Z
}.

Record Plant : Type := {
  plant_id : JsVal;
  plant_name : JsVal;
  description : JsVal;
  category : JsVal;
  plant_memberId : JsVal;
  plant_type : JsVal;
  status : string;
  createdAt : string;
  images : list JsVal
}.

Record Message : Type := {
  message_id : JsVal;
  fromId : JsVal;
  toId : JsVal;
  content : JsVal;
  tradeId : JsVal;
  message_timestamp : string;
  read : bool
}.

(** The payload objects the program builds; [{ plantId }] for a removal. *)
Inductive Payload : Type :=
  | PMember (m : Member)
  | PPlant (p : Plant)
  | PMessage (m : Message)
  | PRemoval (plantId : JsVal).

(** [payload.id] and [payload.plantId]; a missing property reads as
    [undefined]. *)
Definition payload_id (p : Payload) : JsVal :=
  match p with
  | PMember m => member_id m
  | PPlant p => plant_id p
  | PMessage m => message_id m
  | PRemoval _ => Undefined
  end.

Definition payload_plantId (p : Payload) : JsVal :=
  match p with
  | PRemoval k => k
  | _ => Undefined
  end.

Record Event : Type := {
  event_id : string;
  event_type : string;
  payload : Payload;
  memberId : JsVal;
  timestamp : string;
  version : Z;
  sequenceNumber : option nat   (* absent until the store appends it *)
}.

(** [{ ...event, sequenceNumber: n }] *)
Definition with_sequenceNumber (event : Event) (n : nat) : Event :=
  {| event_id := event_id event;
     event_type := event_type event;
     payload := payload event;
     memberId := memberId event;
     timestamp := timestamp event;
     version := version event;
     sequenceNumber := Some n |}.

(** [uuidv4()] and [new Date().toISOString()] are inputs of the model. *)
Definition createEvent (uuid now : string) (type : string) (payload : Payload)
    (memberId : JsVal) : Event :=
  {| event_id := uuid;
     event_type := type;
     payload := payload;
     memberId := default_param Null memberId;
     timestamp := now;
     version := 1;
     sequenceNumber := None |}.

Definition createMember (uuid now : string) (name email location bio : JsVal) : Member :=
  {| member_id := Str uuid;
     member_name := name;
     email := email;
     location := location;
     bio := default_param (Str EmptyString) bio;
     joinedAt := now;
     reputation := 0 |}.

Definition createPlant (uuid now : string) (name description category memberId type : JsVal)
  : Plant :=
  {| plant_id := Str uuid;
     plant_name := name;
     description := description;
     category := category;
     plant_memberId := memberId;
     plant_type := default_param (Str "offer") type;
     status := "available";
     createdAt := now;
     images := [] |}.

Definition createMessage (uuid now : string) (fromId toId content tradeId : JsVal) : Message :=
  {| message_id := Str uuid;
     fromId := fromId;
     toId := toId;
     content := content;
     tradeId := default_param Null tradeId;
     message_timestamp := now;
     read := false |}.

(* ===================================================================== *)
(** ** Server state *)
(* ===================================================================== *)

Inductive SseMessage : Type :=
  | initial_state (members plants messages : list Payload)
  | event_message (data : Event)
  | members_updated (data : list Payload)
  | plants_updated (data : list Payload)
  | messages_updated (data : list Payload).

(** A response object held in [sseClients]; [received] is what was written
    to it, [writable = false] makes [write] throw. *)
Record Client : Type := {
  cid : nat;
  writable : bool;
  received : list SseMessage
}.

Inductive ConsoleLine : Type :=
  | LogLoaded (n : nat)
  | LogStartingFresh
  | ErrFailedToPersist (error : JsError).

(** [events.json] holds the text [JSON.stringify(this.eventHistory, null, 2)]
    prints: the events one after the other between two brackets.  The model
    keeps the text as tokens, one for each event and one for the closing
    bracket, so that the text of a log and the text of a longer log agree
    up to the closing bracket of the shorter one, as the printed texts do.
    [Hole] is whatever is not a whole token, such as the zero bytes of a
    gap. *)
Inductive Token : Type :=
  | Printed (event : Event)
  | Closing
  | Hole.

Definition JSON_stringify (events : list Event) : list Token :=
  (map Printed events ++ [Closing])%list.

(** [JSON.parse]: [None] when it throws. *)
Fixpoint JSON_parse (text : list Token) : option (list Event) :=
  match text with
  | [] => None
  | Printed event :: rest =>
      match JSON_parse rest with
      | Some events => Some (event :: events)
      | None => None
      end
  | Closing :: rest => match rest with [] => Some [] | _ => None end
  | Hole :: _ => None
  end.

(** One [fs.writeFile] call that has not settled: the text it was given,
    and how far it got -- [None] until it has opened the file, then the
    number of tokens it has written. *)
Record Write : Type := {
  write_data : list Token;
  write_pos : option nat
}.

Record Server : Type := {
  (* EventStore *)
  eventHistory : list Event;
  disk : option (list Token);      (* the text of events.json; [None]: no such file *)
  pending : list Write;            (* writeFile calls not yet settled *)
  console : list ConsoleLine;
  (* StateProjections: the [scan] accumulators and the BehaviorSubject values *)
  members_acc : JsMap Payload;
  plants_acc : JsMap Payload;
  messages_acc : JsMap Payload;
  members_value : JsMap Payload;
  plants_value : JsMap Payload;
  messages_value : JsMap Payload;
  (* PlantExchangeServer *)
  sseClients : list Client
}.

Definition set_eventHistory (h : list Event) (s : Server) : Server :=
  {| eventHistory := h; disk := disk s; pending := pending s; console := console s;
     members_acc := members_acc s; plants_acc := plants_acc s; messages_acc := messages_acc s;
     members_value := members_value s; plants_value := plants_value s;
     messages_value := messages_value s; sseClients := sseClients s |}.

Definition set_disk (d : option (list Token)) (s : Server) : Server :=
  {| eventHistory := eventHistory s; disk := d; pending := pending s; console := console s;
     members_acc := members_acc s; plants_acc := plants_acc s; messages_acc := messages_acc s;
     members_value := members_value s; plants_value := plants_value s;
     messages_value := messages_value s; sseClients := sseClients s |}.

Definition set_pending (p : list Write) (s : Server) : Server :=
  {| eventHistory := eventHistory s; disk := disk s; pending := p; console := console s;
     members_acc := members_acc s; plants_acc := plants_acc s; messages_acc := messages_acc s;
     members_value := members_value s; plants_value := plants_value s;
     messages_value := messages_value s; sseClients := sseClients s |}.

Definition console_write (l : ConsoleLine) (s : Server) : Server :=
  {| eventHistory := eventHistory s; disk := disk s; pending := pending s;
     console := console s ++ [l];
     members_acc := members_acc s; plants_acc := plants_acc s; messages_acc := messages_acc s;
     members_value := members_value s; plants_value := plants_value s;
     messages_value := messages_value s; sseClients := sseClients s |}.

Definition set_members (acc value : JsMap Payload) (s : Server) : Server :=
  {| eventHistory := eventHistory s; disk := disk s; pending := pending s; console := console s;
     members_acc := acc; plants_acc := plants_acc s; messages_acc := messages_acc s;
     members_value := value; plants_value := plants_value s;
     messages_value := messages_value s; sseClients := sseClients s |}.

Definition set_plants (acc value : JsMap Payload) (s : Server) : Server :=
  {| eventHistory := eventHistory s; disk := disk s; pending := pending s; console := console s;
     members_acc := members_acc s; plants_acc := acc; messages_acc := messages_acc s;
     members_value := members_value s; plants_value := value;
     messages_value := messages_value s; sseClients := sseClients s |}.

Definition set_messages (acc value : JsMap Payload) (s : Server) : Server :=
  {| eventHistory := eventHistory s; disk := disk s; pending := pending s; console := console s;
     members_acc := members_acc s; plants_acc := plants_acc s; messages_acc := acc;
     members_value := members_value s; plants_value := plants_value s;
     messages_value := value; sseClients := sseClients s |}.

Definition set_sseClients (cs : list Client) (s : Server) : Server :=
  {| eventHistory := eventHistory s; disk := disk s; pending := pending s; console := console s;
     members_acc := members_acc s; plants_acc := plants_acc s; messages_acc := messages_acc s;
     members_value := members_value s; plants_value := plants_value s;
     messages_value := messages_value s; sseClients := cs |}.

(* ===================================================================== *)
(** ** SSE fan-out *)
(* ===================================================================== *)

(** [client.write(message)]: [None] when it throws. *)
Definition client_write (message : SseMessage) (client : Client) : option Client :=
  if writable client
  then Some {| cid := cid client; writable := true;
               received := received client ++ [message] |}
  else None.

(** [sseClients.forEach]: write to each client, delete the ones whose write
    throws. *)
Definition broadcastToSSEClients (data : SseMessage) (s : Server) : Server :=
  set_sseClients (omap (client_write data) (sseClients s)) s.

(** [next] on the three BehaviorSubjects: store the value, then run the
    observer that [setupSSE] subscribed. *)
Definition members_next (value : JsMap Payload) (s : Server) : Server :=
  broadcastToSSEClients (members_updated (Map_values value))
    (set_members (members_acc s) value s).

Definition plants_next (value : JsMap Payload) (s : Server) : Server :=
  broadcastToSSEClients (plants_updated (Map_values value))
    (set_plants (plants_acc s) value s).

Definition messages_next (value : JsMap Payload) (s : Server) : Server :=
  broadcastToSSEClients (messages_updated (Map_values value))
    (set_messages (messages_acc s) value s).

(* ===================================================================== *)
(** ** State projections *)
(* ===================================================================== *)

(** The reducers given to [scan]. *)
Definition members_reducer (members : JsMap Payload) (event : Event) : JsMap Payload :=
  let newMembers := Map_new members in
  Map_set (payload_id (payload event)) (payload event) newMembers.

Definition plants_reducer (plants : JsMap Payload) (event : Event) : JsMap Payload :=
  let newPlants := Map_new plants in
  if String.eqb (event_type event) PLANT_OFFERED
     || String.eqb (event_type event) PLANT_WANTED
  then Map_set (payload_id (payload event)) (payload event) newPlants
  else if String.eqb (event_type event) PLANT_REMOVED
  then Map_delete (payload_plantId (payload event)) newPlants
  else newPlants.

Definition messages_reducer (messages : JsMap Payload) (event : Event) : JsMap Payload :=
  let newMessages := Map_new messages in
  Map_set (payload_id (payload event)) (payload event) newMessages.

Definition is_member_event (event : Event) : bool :=
  String.eqb (event_type event) MEMBER_REGISTERED.

Definition is_plant_event (event : Event) : bool :=
  existsb (String.eqb (event_type event)) [PLANT_OFFERED; PLANT_WANTED; PLANT_REMOVED].

Definition is_message_event (event : Event) : bool :=
  String.eqb (event_type event) MESSAGE_SENT.

(** The three [filter |> scan |> subscribe(subject)] pipelines: the
    accumulator lives in the [scan] operator, the emitted value goes to the
    BehaviorSubject. *)
Definition members_pipe (event : Event) (s : Server) : Server :=
  if is_member_event event then
    let acc := members_reducer (members_acc s) event in
    members_next acc (set_members acc (members_value s) s)
  else s.

Definition plants_pipe (event : Event) (s : Server) : Server :=
  if is_plant_event event then
    let acc := plants_reducer (plants_acc s) event in
    plants_next acc (set_plants acc (plants_value s) s)
  else s.

Definition messages_pipe (event : Event) (s : Server) : Server :=
  if is_message_event event then
    let acc := messages_reducer (messages_acc s) event in
    messages_next acc (set_messages acc (messages_value s) s)
  else s.

(** [getEvents() { return [...this.eventHistory] }] (the copy itself is
    studied in [ArrayHeap] below). *)
Definition getEvents (s : Server) : list Event := eventHistory s.

Definition entity_pairs (events : list Event) : list (JsVal * Payload) :=
  map (fun event => (payload_id (payload event), payload event)) events.

Definition rebuild_members (events : list Event) : JsMap Payload :=
  let members := R_fromPairs (entity_pairs (List.filter is_member_event events)) in
  Map_of_object members.

Definition is_offer_event (event : Event) : bool :=
  existsb (String.eqb (event_type event)) [PLANT_OFFERED; PLANT_WANTED].

Definition is_removal_event (event : Event) : bool :=
  String.eqb (event_type event) PLANT_REMOVED.

Definition rebuild_plants (events : list Event) : Outcome (JsMap Payload) :=
  let plants := R_fromPairs (entity_pairs (List.filter is_offer_event events)) in
  let removedPlants :=
    map (fun event => payload_plantId (payload event))
      (List.filter is_removal_event events) in
  match R_omit removedPlants plants with
  | Threw error => Threw error
  | Returned activePlants => Returned (Map_of_object activePlants)
  end.

Definition rebuild_messages (events : list Event) : JsMap Payload :=
  let messages := R_fromPairs (entity_pairs (List.filter is_message_event events)) in
  Map_of_object messages.

(** The three projections are replaced one after the other; when
    [R.omit] throws, the members have been replaced and the plants and
    the messages are left as they were. *)
Definition rebuildFromHistory (s : Server) : Server * Outcome unit :=
  let events := getEvents s in
  let s1 := members_next (rebuild_members events) s in
  match rebuild_plants events with
  | Threw error => (s1, Threw error)
  | Returned plants =>
      let s2 := plants_next plants s1 in
      (messages_next (rebuild_messages events) s2, Returned tt)
  end.

Record CurrentState : Type := {
  state_members : list Payload;
  state_plants : list Payload;
  state_messages : list Payload
}.

Definition getCurrentState (s : Server) : CurrentState :=
  {| state_members := Map_values (members_value s);
     state_plants := Map_values (plants_value s);
     state_messages := Map_values (messages_value s) |}.

(* ===================================================================== *)
(** ** Event store *)
(* ===================================================================== *)

(** The observer [setupSSE] subscribes to the event stream. *)
Definition sse_event_observer (event : Event) (s : Server) : Server :=
  broadcastToSSEClients (event_message event) s.

(** [events$.next(event)]: a Subject calls its observers in subscription
    order.  The three pipelines are subscribed in the [StateProjections]
    constructor, the SSE observer later, in [setupSSE]. *)
Definition events_next (event : Event) (s : Server) : Server :=
  sse_event_observer event
    (messages_pipe event (plants_pipe event (members_pipe event s))).

(** The first two statements of [append]. *)
Definition append_push (event : Event) (s : Server) : Server * Event :=
  let eventWithMetadata :=
    with_sequenceNumber event (length (eventHistory s) + 1) in
  (set_eventHistory (eventHistory s ++ [eventWithMetadata]) s, eventWithMetadata).

(** [persist] up to its [await]: [fs.writeFile] is called with the
    serialisation of the history as it is now. *)
Definition persist_begin (s : Server) : Server :=
  set_pending
    (pending s ++ [{| write_data := JSON_stringify (eventHistory s); write_pos := None |}]) s.

(** [append] up to its [await]: push, notify, start the write. *)
Definition append_sync (event : Event) (s : Server) : Server * Event :=
  let '(s1, eventWithMetadata) := append_push event s in
  let s2 := events_next eventWithMetadata s1 in
  (persist_begin s2, eventWithMetadata).

Inductive IoResult : Type :=
  | IoOk
  | IoFail (reason : string).

(** [fs.writeFile(path, text)] of Node: the file is opened with flag [w]
    (created when missing, cut to length zero otherwise), the text is
    written in place from position zero on, in one or more pieces, and
    the promise settles when the file is closed or as soon as a step
    fails.  Nothing is written to a temporary file or renamed. *)

(** Tokens written at position [pos] replace what the file holds there; a
    position past the end leaves a gap. *)
Definition write_at (pos : nat) (tokens text : list Token) : list Token :=
  (take pos text ++ replicate (pos - length text) Hole ++ tokens
   ++ drop (pos + length tokens) text)%list.

(** The [i]-th pending write opens the file. *)
Definition writeFile_open (i : nat) (s : Server) : Server :=
  match pending s !! i with
  | Some w =>
      match write_pos w with
      | None =>
          set_disk (Some [])
            (set_pending
               (<[i := {| write_data := write_data w; write_pos := Some 0 |}]> (pending s)) s)
      | Some _ => s
      end
  | None => s
  end.

(** Once open, it writes its next [k] tokens. *)
Definition writeFile_write (i k : nat) (s : Server) : Server :=
  match pending s !! i with
  | Some w =>
      match write_pos w with
      | Some pos =>
          let piece := take k (drop pos (write_data w)) in
          set_disk (Some (write_at pos piece (default [] (disk s))))
            (set_pending
               (<[i := {| write_data := write_data w;
                          write_pos := Some (pos + length piece) |}]> (pending s)) s)
      | None => s
      end
  | None => s
  end.

(** The promise of the [i]-th pending [fs.writeFile] settles: fulfilled
    once the file is open and the rest of the text written, or rejected
    at the point the write has reached. *)
Definition writeFile_settle (i : nat) (r : IoResult) (s : Server) : Server * Outcome unit :=
  match pending s !! i with
  | None => (s, Returned tt)
  | Some w =>
      match r with
      | IoOk =>
          let s1 := writeFile_write i (length (write_data w)) (writeFile_open i s) in
          (set_pending (delete i (pending s1)) s1, Returned tt)
      | IoFail reason => (set_pending (delete i (pending s)) s, Threw (SystemError reason))
      end
  end.

(** The rest of [persist]: [try { await ... } catch (error) { console.error }]. *)
Definition persist_resume (i : nat) (r : IoResult) (s : Server) : Server * Outcome unit :=
  match writeFile_settle i r s with
  | (s', Returned _) => (s', Returned tt)
  | (s', Threw error) => (console_write (ErrFailedToPersist error) s', Returned tt)
  end.

(** The rest of [append]: [await this.persist(); return eventWithMetadata]. *)
Definition append_resume (i : nat) (r : IoResult) (eventWithMetadata : Event) (s : Server)
  : Server * Outcome Event :=
  match persist_resume i r s with
  | (s', Returned _) => (s', Returned eventWithMetadata)
  | (s', Threw error) => (s', Threw error)
  end.

(** A whole [persist] call with nothing else running in between; [r] is
    what the file system answers: the write goes through from opening the
    file to closing it, or it is refused before the file is opened. *)
Definition persist (r : IoResult) (s : Server) : Server * Outcome unit :=
  persist_resume (length (pending s)) r (persist_begin s).

(** A whole [append] call, likewise. *)
Definition append (r : IoResult) (event : Event) (s : Server) : Server * Outcome Event :=
  let '(s1, eventWithMetadata) := append_push event s in
  let s2 := events_next eventWithMetadata s1 in
  match persist r s2 with
  | (s3, Returned _) => (s3, Returned eventWithMetadata)
  | (s3, Threw error) => (s3, Threw error)
  end.

(** [readFile] followed by [JSON.parse]: [None] when either throws. *)
Definition read_events (text : option (list Token)) : option (list Event) :=
  match text with
  | Some tokens => JSON_parse tokens
  | None => None
  end.

(** [initialize]: read and parse the file, start fresh when that fails. *)
Definition initialize (s : Server) : Server :=
  match read_events (disk s) with
  | Some data => console_write (LogLoaded (length data)) (set_eventHistory data s)
  | None => console_write LogStartingFresh (set_eventHistory [] s)
  end.

(** The state [new PlantExchangeServer()] leaves behind, with [text] in the
    file: an empty store, the pipelines subscribed with empty accumulators,
    projections rebuilt from the (empty) history, no client. *)
Definition new_PlantExchangeServer (text : option (list Token)) : Server :=
  {| eventHistory := []; disk := text; pending := []; console := [];
     members_acc := Map_empty; plants_acc := Map_empty; messages_acc := Map_empty;
     members_value := Map_empty; plants_value := Map_empty; messages_value := Map_empty;
     sseClients := [] |}.

(** [start]: [await initialize()], then [rebuildFromHistory()]; when that
    throws, the promise is rejected and [app.listen] is never reached. *)
Definition start (s : Server) : Server * Outcome unit := rebuildFromHistory (initialize s).

(** The bootstrap, [new PlantExchangeServer().start()], on whatever the
    file holds: the objects as [start] leaves them. *)
Definition boot_on (text : option (list Token)) : Server :=
  fst (start (new_PlantExchangeServer text)).

(** The bootstrap on a file an earlier run wrote to its end, or on none. *)
Definition boot (file : option (list Event)) : Server :=
  boot_on (option_map JSON_stringify file).

(* ===================================================================== *)
(** ** Command handlers *)
(* ===================================================================== *)

(** The request objects; [None] stands for a [null] or [undefined]
    argument, on which every property read throws. *)
Record MemberData : Type := {
  data_name : JsVal;
  data_email : JsVal;
  data_location : JsVal;
  data_bio : JsVal
}.

Record PlantData : Type := {
  data_plant_name : JsVal;
  data_description : JsVal;
  data_category : JsVal
}.

Record MessageData : Type := {
  data_fromId : JsVal;
  data_toId : JsVal;
  data_content : JsVal;
  data_tradeId : JsVal
}.

(** The identifiers and timestamps one command draws. *)
Record Fresh : Type := {
  entity_uuid : string;
  entity_now : string;
  event_uuid : string;
  event_now : string
}.

Definition property_of_nothing : JsError :=
  TypeError "Cannot read properties of undefined".

(** Each handler first builds its event ... *)
Definition registerMember_event (f : Fresh) (memberData : option MemberData) : Outcome Event :=
  match memberData with
  | None => Threw property_of_nothing
  | Some d =>
      let member := createMember (entity_uuid f) (entity_now f)
                      (data_name d) (data_email d) (data_location d) (data_bio d) in
      Returned (createEvent (event_uuid f) (event_now f) MEMBER_REGISTERED
                  (PMember member) Undefined)
  end.

Definition offerPlant_event (f : Fresh) (plantData : option PlantData) (memberId : JsVal)
  : Outcome Event :=
  match plantData with
  | None => Threw property_of_nothing
  | Some d =>
      let plant := createPlant (entity_uuid f) (entity_now f)
                     (data_plant_name d) (data_description d) (data_category d)
                     memberId (Str "offer") in
      Returned (createEvent (event_uuid f) (event_now f) PLANT_OFFERED (PPlant plant) memberId)
  end.

Definition requestPlant_event (f : Fresh) (plantData : option PlantData) (memberId : JsVal)
  : Outcome Event :=
  match plantData with
  | None => Threw property_of_nothing
  | Some d =>
      let plant := createPlant (entity_uuid f) (entity_now f)
                     (data_plant_name d) (data_description d) (data_category d)
                     memberId (Str "wanted") in
      Returned (createEvent (event_uuid f) (event_now f) PLANT_WANTED (PPlant plant) memberId)
  end.

Definition sendMessage_event (f : Fresh) (messageData : option MessageData) : Outcome Event :=
  match messageData with
  | None => Threw property_of_nothing
  | Some d =>
      let message := createMessage (entity_uuid f) (entity_now f)
                       (data_fromId d) (data_toId d) (data_content d) (data_tradeId d) in
      Returned (createEvent (event_uuid f) (event_now f) MESSAGE_SENT
                  (PMessage message) (data_fromId d))
  end.

Definition removePlant_event (f : Fresh) (plantId memberId : JsVal) : Outcome Event :=
  Returned (createEvent (event_uuid f) (event_now f) PLANT_REMOVED (PRemoval plantId) memberId).

(** ... and ends with [return await this.eventStore.append(event)]. *)
Definition then_append (r : IoResult) (event : Outcome Event) (s : Server)
  : Server * Outcome Event :=
  match event with
  | Returned event => append r event s
  | Threw error => (s, Threw error)
  end.

Definition registerMember (f : Fresh) (r : IoResult) (memberData : option MemberData) :=
  then_append r (registerMember_event f memberData).

Definition offerPlant (f : Fresh) (r : IoResult) (plantData : option PlantData)
    (memberId : JsVal) :=
  then_append r (offerPlant_event f plantData memberId).

Definition requestPlant (f : Fresh) (r : IoResult) (plantData : option PlantData)
    (memberId : JsVal) :=
  then_append r (requestPlant_event f plantData memberId).

Definition sendMessage (f : Fresh) (r : IoResult) (messageData : option MessageData) :=
  then_append r (sendMessage_event f messageData).

Definition removePlant (f : Fresh) (r : IoResult) (plantId memberId : JsVal) :=
  then_append r (removePlant_event f plantId memberId).

(** The five command methods as one type, to quantify over them. *)
Inductive Command : Type :=
  | RegisterMember (memberData : option MemberData)
  | OfferPlant (plantData : option PlantData) (memberId : JsVal)
  | RequestPlant (plantData : option PlantData) (memberId : JsVal)
  | SendMessage (messageData : option MessageData)
  | RemovePlant (plantId memberId : JsVal).

Definition run_command (f : Fresh) (r : IoResult) (c : Command) (s : Server)
  : Server * Outcome Event :=
  match c with
  | RegisterMember d => registerMember f r d s
  | OfferPlant d m => offerPlant f r d m s
  | RequestPlant d m => requestPlant f r d m s
  | SendMessage d => sendMessage f r d s
  | RemovePlant p m => removePlant f r p m s
  end.


(** The request object is present (it may still lack every field). *)
Definition has_input_object (c : Command) : bool :=
  match c with
  | RegisterMember d => bool_decide (is_Some d)
  | OfferPlant d _ | RequestPlant d _ => bool_decide (is_Some d)
  | SendMessage d => bool_decide (is_Some d)
  | RemovePlant _ _ => true
  end.

(* ===================================================================== *)
(** ** The /events route and the life of a connection *)
(* ===================================================================== *)

(** [Set.prototype.add]: by object identity, here the [cid]. *)
Definition Set_add (res : Client) (clients : list Client) : list Client :=
  if bool_decide (cid res ∈ map cid clients) then clients else clients ++ [res].

Definition Set_delete (id : nat) (clients : list Client) : list Client :=
  List.filter (fun c => negb (Nat.eqb (cid c) id)) clients.

(** [res.write(message)] outside any [try]: [None] when it throws. *)
Definition res_write (id : nat) (message : SseMessage) (clients : list Client)
  : option (list Client) :=
  mapM (fun c => if decide (cid c = id) then client_write message c else Some c) clients.

(** [GET /events]: register the response, then send the initial state. *)
Definition events_route (res : Client) (s : Server) : Server * Outcome unit :=
  let s1 := set_sseClients (Set_add res (sseClients s)) s in
  let state := getCurrentState s1 in
  match res_write (cid res)
          (initial_state (state_members state) (state_plants state) (state_messages state))
          (sseClients s1) with
  | Some clients => (set_sseClients clients s1, Returned tt)
  | None => (s1, Threw (SystemError "write after end"))
  end.

(** [req.on('close', ...)] *)
Definition on_close (id : nat) (s : Server) : Server :=
  set_sseClients (Set_delete id (sseClients s)) s.

(** The connection of client [id] breaks: its later writes throw. *)
Definition connection_breaks (id : nat) (s : Server) : Server :=
  set_sseClients
    (map (fun c => if decide (cid c = id)
                   then {| cid := cid c; writable := false; received := received c |}
                   else c) (sseClients s)) s.

(* ===================================================================== *)
(** ** Runs of the server *)
(* ===================================================================== *)

(** What the event loop can execute next.  An [append] call is split at
    its [await]: [CallAppend] is its synchronous part, [WriteSettles] is
    the settling of one pending write (after which that call returns);
    before that, the write may be seen to open the file ([WriteOpens]) and
    to write part of its text ([WriteWrites]). *)
Inductive Action : Type :=
  | CallAppend (event : Event)
  | WriteSettles (i : nat) (r : IoResult)
  | CallRebuild
  | Connects (res : Client)
  | Closes (id : nat)
  | Breaks (id : nat)
  | WriteOpens (i : nat)
  | WriteWrites (i k : nat).

Definition step (s : Server) (a : Action) : Server :=
  match a with
  | CallAppend event => fst (append_sync event s)
  | WriteSettles i r => fst (persist_resume i r s)
  | CallRebuild => fst (rebuildFromHistory s)
  | Connects res => fst (events_route res s)
  | Closes id => on_close id s
  | Breaks id => connection_breaks id s
  | WriteOpens i => writeFile_open i s
  | WriteWrites i k => writeFile_write i k s
  end.

Definition run (acts : list Action) (s : Server) : Server := fold_left step acts s.

(* ===================================================================== *)
(** ** Arrays as shared objects *)
(* ===================================================================== *)

(** [getEvents] hands out an array, and arrays are mutable objects: here
    the history array, the arrays returned to callers and the event
    objects they hold live in a heap, to tell a copy from an alias. *)
Module ArrayHeap.

Definition loc : Type := nat.

Record Heap : Type := {
  arrays : gmap loc (list loc);   (* an array holds references to its elements *)
  objects : gmap loc Event
}.

Definition array_alloc (elements : list loc) (h : Heap) : Heap * loc :=
  let l := fresh (dom (arrays h)) in
  ({| arrays := <[l := elements]> (arrays h); objects := objects h |}, l).

Definition object_alloc (e : Event) (h : Heap) : Heap * loc :=
  let o := fresh (dom (objects h)) in
  ({| arrays := arrays h; objects := <[o := e]> (objects h) |}, o).

(** Any in-place change of the array at [l]: [push], [pop], [splice],
    [sort], [a[i] = x], [a.length = n], ... *)
Definition array_mutate (l : loc) (f : list loc -> list loc) (h : Heap) : Heap :=
  {| arrays := alter f l (arrays h); objects := objects h |}.

(** Any in-place change of the event object at [o]. *)
Definition object_mutate (o : loc) (g : Event -> Event) (h : Heap) : Heap :=
  {| arrays := arrays h; objects := alter g o (objects h) |}.

Definition elements_of (h : Heap) (l : loc) : list loc :=
  default [] (arrays h !! l).

(** The events an array shows to its reader. *)
Definition read_array (h : Heap) (l : loc) : list (option Event) :=
  map (fun o => objects h !! o) (elements_of h l).

(** [return [...this.eventHistory]] *)
Definition getEvents_copy (this_eventHistory : loc) (h : Heap) : Heap * loc :=
  array_alloc (elements_of h this_eventHistory) h.

(** [this.eventHistory.push({ ...event, sequenceNumber: length + 1 })] *)
Definition eventHistory_push (event : Event) (this_eventHistory : loc) (h : Heap) : Heap :=
  let n := length (elements_of h this_eventHistory) in
  let '(h1, o) := object_alloc (with_sequenceNumber event (n + 1)) h in
  array_mutate this_eventHistory (fun a => (a ++ [o])%list) h1.

Definition pushes (events : list Event) (this_eventHistory : loc) (h : Heap) : Heap :=
  fold_left (fun h e => eventHistory_push e this_eventHistory h) events h.

(** The history array exists and its elements are live objects. *)
Definition store_ok (this_eventHistory : loc) (h : Heap) : Prop :=
  exists a, arrays h !! this_eventHistory = Some a /\
            forall o, o ∈ a -> is_Some (objects h !! o).

End ArrayHeap.

(* ===================================================================== *)
(** ** Notions used to state the properties *)
(* ===================================================================== *)

(** The event a command method builds before it appends. *)
Definition command_event (f : Fresh) (c : Command) : Outcome Event :=
  match c with
  | RegisterMember d => registerMember_event f d
  | OfferPlant d m => offerPlant_event f d m
  | RequestPlant d m => requestPlant_event f d m
  | SendMessage d => sendMessage_event f d
  | RemovePlant p m => removePlant_event f p m
  end.

(** Sequence numbers are the positions in the log, counted from 1. *)
Definition well_sequenced (h : list Event) : Prop :=
  forall i e, h !! i = Some e -> sequenceNumber e = Some (i + 1).

Definition file_ok (file : option (list Event)) : Prop :=
  match file with
  | Some data => well_sequenced data
  | None => True
  end.

(** The log is consistent with the numbering. *)
Definition sequence_inv (s : Server) : Prop := well_sequenced (eventHistory s).

(** The projection-updated messages one event triggers, in the order the
    pipelines run. *)
Definition projection_messages (event : Event) (s : Server) : list SseMessage :=
  ((if is_member_event event
    then [members_updated (Map_values (members_reducer (members_acc s) event))] else []) ++
   (if is_plant_event event
    then [plants_updated (Map_values (plants_reducer (plants_acc s) event))] else []) ++
   (if is_message_event event
    then [messages_updated (Map_values (messages_reducer (messages_acc s) event))] else []))%list.

(** Several messages written in a row to one client. *)
Definition deliver (messages : list SseMessage) (client : Client) : option Client :=
  if writable client
  then Some {| cid := cid client; writable := true;
               received := (received client ++ messages)%list |}
  else None.

Definition is_projection_update (m : SseMessage) : bool :=
  match m with
  | members_updated _ | plants_updated _ | messages_updated _ => true
  | _ => false
  end.

(** In a run of delivered messages, the message of [event] comes before
    every projection update. *)
Definition event_before_updates (delivered : list SseMessage) (event : Event) : Prop :=
  forall i j u,
    delivered !! i = Some (event_message event) ->
    delivered !! j = Some u ->
    is_projection_update u = true ->
    i < j.

(** The other order: every projection update comes before the event. *)
Definition updates_before_event (delivered : list SseMessage) (event : Event) : Prop :=
  forall i j u,
    delivered !! i = Some (event_message event) ->
    delivered !! j = Some u ->
    is_projection_update u = true ->
    j < i.

(** The file holds the whole in-memory log. *)
Definition persisted (s : Server) : Prop := disk s = Some (JSON_stringify (eventHistory s)).

(** The state in which the listeners of [append event] have just been
    notified. *)
Definition at_notification (event : Event) (s : Server) : Server :=
  let '(s1, eventWithMetadata) := append_push event s in
  events_next eventWithMetadata s1.

(** The in-order fold of a projection's reducer over the events its
    filter lets through, from the empty map, as the specification words
    it: [fold(Events[0..n])]. *)
Definition fold_projection (selects : Event -> bool)
    (reducer : JsMap Payload -> Event -> JsMap Payload) (events : list Event)
  : JsMap Payload :=
  fold_left reducer (List.filter selects events) Map_empty.

Definition fold_members : list Event -> JsMap Payload :=
  fold_projection is_member_event members_reducer.
Definition fold_plants : list Event -> JsMap Payload :=
  fold_projection is_plant_event plants_reducer.
Definition fold_messages : list Event -> JsMap Payload :=
  fold_projection is_message_event messages_reducer.

Definition is_rebuild (a : Action) : bool :=
  match a with CallRebuild => true | _ => false end.

(** The [scan] accumulators are the folds of the events appended since
    the process started, [loaded] being what [initialize] read. *)
Definition scans_fold_live (loaded : list Event) (s : Server) : Prop :=
  exists live,
    eventHistory s = (loaded ++ live)%list /\
    members_acc s = fold_members live /\
    plants_acc s = fold_plants live /\
    messages_acc s = fold_messages live.

(** Each BehaviorSubject holds what its [scan] emitted last. *)
Definition values_follow_scans (s : Server) : Prop :=
  members_value s = members_acc s /\
  plants_value s = plants_acc s /\
  messages_value s = messages_acc s.

(** Conditions under which replay and live folding can be compared.
    Entity ids are strings that are neither array indices nor [__proto__],
    as [uuidv4] makes them, and removals name their plant by a string
    other than [hasOwnProperty]. *)
Definition uuid_like (k : JsVal) : bool :=
  match k with
  | Str s =>
      match array_index s with None => true | Some _ => false end
      && negb (String.eqb s "__proto__")
  | _ => false
  end.

Definition is_string (k : JsVal) : bool :=
  match k with Str _ => true | _ => false end.

(** A name [R.omit] can be given: a string other than [hasOwnProperty]. *)
Definition omittable (k : JsVal) : bool :=
  is_string k && negb (bool_decide (k = Str "hasOwnProperty")).

Definition uuid_keyed (event : Event) : bool :=
  (if is_member_event event || is_offer_event event || is_message_event event
   then uuid_like (payload_id (payload event)) else true)
  && (if is_removal_event event then omittable (payload_plantId (payload event)) else true).

(** The plant ids the removal events name, in log order. *)
Definition removed_ids (events : list Event) : list JsVal :=
  map (fun event => payload_plantId (payload event)) (List.filter is_removal_event events).

(** No plant id is offered or wanted again once an earlier event removed
    it; the log is read from its last event backwards. *)
Fixpoint never_reoffered_rev (latest_first : list Event) : bool :=
  match latest_first with
  | [] => true
  | event :: earlier =>
      (if is_offer_event event
       then negb (bool_decide (payload_id (payload event) ∈ removed_ids earlier))
       else true)
      && never_reoffered_rev earlier
  end.

Definition never_reoffered (events : list Event) : bool :=
  never_reoffered_rev (rev events).

(** What replay computes for the plants, said on [Map]s: the offered and
    wanted plants in order of first appearance, without the removed ids. *)
Definition offered_minus_removed (events : list Event) : JsMap Payload :=
  filter (fun kv => fst kv ∉ removed_ids events)
         (assoc_of_pairs (entity_pairs (List.filter is_offer_event events))).

(* ===================================================================== *)
(** ** A small scenario *)
(* ===================================================================== *)

Module Scenario.

Definition fresh (entity event time : string) : Fresh :=
  {| entity_uuid := entity; entity_now := time; event_uuid := event; event_now := time |}.

Definition ann : MemberData :=
  {| data_name := Str "Ann"; data_email := Str "ann@example.org";
     data_location := Str "Oslo"; data_bio := Undefined |}.

Definition bob : MemberData :=
  {| data_name := Str "Bob"; data_email := Str "bob@example.org";
     data_location := Str "Rome"; data_bio := Str "ferns" |}.

(** A request body without any field. *)
Definition empty_member : MemberData :=
  {| data_name := Undefined; data_email := Undefined;
     data_location := Undefined; data_bio := Undefined |}.

Definition fern : PlantData :=
  {| data_plant_name := Str "Fern"; data_description := Str "cutting";
     data_category := Str "houseplants" |}.

Definition hello : MessageData :=
  {| data_fromId := Str "M1"; data_toId := Str "M2";
     data_content := Str "hello"; data_tradeId := Undefined |}.

Definition member_M1 : Payload := PMember (createMember "M1" "t1" (Str "Ann")
  (Str "ann@example.org") (Str "Oslo") Undefined).
Definition member_M2 : Payload := PMember (createMember "M2" "t5" (Str "Bob")
  (Str "bob@example.org") (Str "Rome") (Str "ferns")).
Definition plant_P1 : Payload := PPlant (createPlant "P1" "t2" (Str "Fern")
  (Str "cutting") (Str "houseplants") (Str "M1") (Str "offer")).
Definition plant_P2 : Payload := PPlant (createPlant "P2" "t3" (Str "Fern")
  (Str "cutting") (Str "houseplants") (Str "M1") (Str "wanted")).

(** Draft events, as the command methods build them. *)
Definition draft_M1 : Event :=
  createEvent "E1" "t1" MEMBER_REGISTERED member_M1 Undefined.
Definition draft_P1 : Event :=
  createEvent "E2" "t2" PLANT_OFFERED plant_P1 (Str "M1").
Definition draft_P2 : Event :=
  createEvent "E3" "t3" PLANT_WANTED plant_P2 (Str "M1").
Definition draft_remove_P1 : Event :=
  createEvent "E4" "t4" PLANT_REMOVED (PRemoval (Str "P1")) (Str "M1").
Definition draft_M2 : Event :=
  createEvent "E5" "t5" MEMBER_REGISTERED member_M2 Undefined.

(** A log written by an earlier run of the server: one registration. *)
Definition stored_M1 : Event := with_sequenceNumber draft_M1 1.
Definition old_file : option (list Event) := Some [stored_M1].

(** A heap with the history array at address 0, holding that event. *)
Definition stored_arrays : gmap ArrayHeap.loc (list ArrayHeap.loc) :=
  insert 0 [5] empty.
Definition stored_objects : gmap ArrayHeap.loc Event :=
  insert 5 stored_M1 empty.
Definition stored_heap : ArrayHeap.Heap :=
  ArrayHeap.Build_Heap stored_arrays stored_objects.

Definition browser (id : nat) : Client :=
  {| cid := id; writable := true; received := [] |}.

(** A server started on an empty directory, with one browser connected. *)
Definition one_client : Server := fst (events_route (browser 0) (boot None)).

(** The four appends of the specification's scenario, one after the other. *)
Definition four_events : list Action :=
  [CallAppend draft_M1; WriteSettles 0 IoOk;
   CallAppend draft_P1; WriteSettles 0 IoOk;
   CallAppend draft_P2; WriteSettles 0 IoOk;
   CallAppend draft_remove_P1; WriteSettles 0 IoOk].

Definition five_events : list Action :=
  (four_events ++ [CallAppend draft_M2; WriteSettles 0 IoOk])%list.

(** The same plant offered, removed and offered again. *)
Definition offered_again : list Action :=
  [CallAppend draft_P1; CallAppend draft_remove_P1; CallAppend draft_P1].

(** Two appends in flight at once, their writes settling out of order. *)
Definition overlapping : list Action :=
  [CallAppend draft_M1; CallAppend draft_P1; WriteSettles 1 IoOk;
   Connects (browser 7); WriteSettles 0 (IoFail "EIO"); CallAppend draft_P2].

End Scenario.

(* ===================================================================== *)
(** ** Query methods and the stats route *)
(* ===================================================================== *)

(** Property reads on the objects a projection holds; a property the
    object does not have reads as [undefined]. *)
Definition payload_type (p : Payload) : JsVal :=
  match p with
  | PPlant x => plant_type x
  | _ => Undefined
  end.

Definition payload_category (p : Payload) : JsVal :=
  match p with
  | PPlant x => category x
  | _ => Undefined
  end.

Definition payload_name (p : Payload) : JsVal :=
  match p with
  | PMember m => member_name m
  | PPlant x => plant_name x
  | _ => Undefined
  end.

Definition payload_description (p : Payload) : JsVal :=
  match p with
  | PPlant x => description x
  | _ => Undefined
  end.

Definition payload_fromId (p : Payload) : JsVal :=
  match p with
  | PMessage m => fromId m
  | _ => Undefined
  end.

Definition payload_toId (p : Payload) : JsVal :=
  match p with
  | PMessage m => toId m
  | _ => Undefined
  end.

(** [R.prop('createdAt')] and [R.prop('timestamp')]: a string where the
    object has the property, [None] for [undefined]. *)
Definition prop_createdAt (p : Payload) : option string :=
  match p with
  | PPlant x => Some (createdAt x)
  | _ => None
  end.

Definition prop_timestamp (p : Payload) : option string :=
  match p with
  | PMessage m => Some (message_timestamp m)
  | _ => None
  end.

(** Truthiness of the values above: only a non-empty string is truthy. *)
Definition truthy (v : JsVal) : bool :=
  match v with
  | Str s => negb (String.eqb s EmptyString)
  | _ => false
  end.

(** [a !== b] *)
Definition strict_differs (a b : JsVal) : bool := negb (bool_decide (a = b)).

(** [s.includes(searchString)] *)
Fixpoint includes (searchString s : string) : bool :=
  String.prefix searchString s
  || match s with
     | EmptyString => false
     | String _ rest => includes searchString rest
     end.

(** [aa < bb] on sort keys: strings compare by code units, a comparison
    with [undefined] is false. *)
Definition key_lt (aa bb : option string) : bool :=
  match aa, bb with
  | Some x, Some y => String.ltb x y
  | _, _ => false
  end.

(** Ramda: [R.filter] on an array calls the predicate on the elements in
    order; a call that throws ends the whole filter. *)
Fixpoint R_filter_throwing {A} (pred : A -> Outcome bool) (elements : list A)
  : Outcome (list A) :=
  match elements with
  | [] => Returned []
  | x :: rest =>
      match pred x with
      | Threw error => Threw error
      | Returned keep =>
          match R_filter_throwing pred rest with
          | Threw error => Threw error
          | Returned kept => Returned (if keep then x :: kept else kept)
          end
      end
  end.

(** Ramda: [R.sortBy(fn)] copies the array and sorts it with the comparator
    [aa < bb ? -1 : aa > bb ? 1 : 0]; [Array.prototype.sort] is stable.
    An element moves behind a later one only when its key is greater. *)
Section Sorting.
Context {A K : Type} (lt : K -> K -> bool) (fn : A -> K).

Fixpoint sort_insert (x : A) (sorted : list A) : list A :=
  match sorted with
  | [] => [x]
  | y :: rest => if lt (fn y) (fn x) then y :: sort_insert x rest else x :: sorted
  end.

Definition R_sortBy (elements : list A) : list A := foldr sort_insert [] elements.
End Sorting.

Definition R_reverse {A} (elements : list A) : list A := rev elements.

(** [req.query] of [GET /api/plants]. *)
Record Criteria : Type := {
  criteria_type : JsVal;
  criteria_category : JsVal;
  criteria_search : JsVal
}.

Definition method_of_nothing : JsError :=
  TypeError "Cannot read properties of undefined (reading 'toLowerCase')".

Section Search.
(** [String.prototype.toLowerCase], whatever it does to each string. *)
Variable toLowerCase : string -> string.

(** [v.toLowerCase()]: only a string has the method. *)
Definition lower_of (v : JsVal) : Outcome string :=
  match v with
  | Str s => Returned (toLowerCase s)
  | _ => Threw method_of_nothing
  end.

(** The predicate [searchPlants] filters with. *)
Definition plant_matches (criteria : Criteria) (plant : Payload) : Outcome bool :=
  if truthy (criteria_type criteria)
     && strict_differs (payload_type plant) (criteria_type criteria)
  then Returned false
  else if truthy (criteria_category criteria)
          && strict_differs (payload_category plant) (criteria_category criteria)
  then Returned false
  else if truthy (criteria_search criteria) then
    match lower_of (criteria_search criteria) with
    | Threw error => Threw error
    | Returned searchText =>
        match lower_of (payload_name plant) with
        | Threw error => Threw error
        | Returned name =>
            if includes searchText name then Returned true
            else match lower_of (payload_description plant) with
                 | Threw error => Threw error
                 | Returned description => Returned (includes searchText description)
                 end
        end
    end
  else Returned true.

(** [v] is a string whose lower case includes that of [search]. *)
Definition lowered_includes (search : string) (v : JsVal) : bool :=
  match v with
  | Str s => includes (toLowerCase search) (toLowerCase s)
  | _ => false
  end.

Definition searchPlants (criteria : Criteria) (s : Server) : Outcome (list Payload) :=
  let currentPlants := Map_values (plants_value s) in
  match R_filter_throwing (plant_matches criteria) currentPlants with
  | Threw error => Threw error
  | Returned found => Returned (R_reverse (R_sortBy key_lt prop_createdAt found))
  end.
End Search.

Definition involves (memberId : JsVal) (message : Payload) : bool :=
  bool_decide (payload_fromId message = memberId)
  || bool_decide (payload_toId message = memberId).

Definition getMemberMessages (memberId : JsVal) (s : Server) : list Payload :=
  let currentMessages := Map_values (messages_value s) in
  R_reverse (R_sortBy key_lt prop_timestamp (List.filter (involves memberId) currentMessages)).

(** The body [GET /api/stats] answers with. *)
Record Stats : Type := {
  totalMembers : nat;
  totalPlants : nat;
  plantsOffered : nat;
  plantsWanted : nat;
  totalMessages : nat;
  totalEvents : nat
}.

Definition api_stats (s : Server) : Stats :=
  let state := getCurrentState s in
  {| totalMembers := length (state_members state);
     totalPlants := length (state_plants state);
     plantsOffered :=
       length (List.filter (fun p => bool_decide (payload_type p = Str "offer"))
                 (state_plants state));
     plantsWanted :=
       length (List.filter (fun p => bool_decide (payload_type p = Str "wanted"))
                 (state_plants state));
     totalMessages := length (state_messages state);
     totalEvents := length (getEvents s) |}.

(* ===================================================================== *)
(** ** Calls of the command methods, one after the other *)
(* ===================================================================== *)

Record Call : Type := {
  call_fresh : Fresh;
  call_answer : IoResult;      (* what the file system answers to the write *)
  call_command : Command
}.

Definition call (s : Server) (c : Call) : Server :=
  fst (run_command (call_fresh c) (call_answer c) (call_command c) s).

Definition calls (cs : list Call) (s : Server) : Server := fold_left call cs s.

(** ** Notions used to state the properties of the queries *)

Definition is_plant (p : Payload) : bool :=
  match p with PPlant _ => true | _ => false end.

Definition is_message (p : Payload) : bool :=
  match p with PMessage _ => true | _ => false end.

(** A plant the text search can read: name and description are strings. *)
Definition searchable (p : Payload) : bool :=
  is_string (payload_name p) && is_string (payload_description p).

(** What [searchPlants] checks before it looks at the text. *)
Definition passes_type_and_category (criteria : Criteria) (plant : Payload) : bool :=
  negb (truthy (criteria_type criteria)
        && strict_differs (payload_type plant) (criteria_type criteria))
  && negb (truthy (criteria_category criteria)
           && strict_differs (payload_category plant) (criteria_category criteria)).

(** Position [i] comes before position [j] and holds the newer entry, or
    one as new. *)
Definition newest_first (key : Payload -> option string) (l : list Payload) : Prop :=
  forall i j a b, i < j -> l !! i = Some a -> l !! j = Some b ->
    key_lt (key a) (key b) = false.


(** A write that opens the file, writes [k] tokens and then fails. *)
Definition cut_short (i k : nat) (reason : string) : list Action :=
  [WriteOpens i; WriteWrites i k; WriteSettles i (IoFail reason)].

(** An offered or wanted plant stored under the id [__proto__]. *)
Definition proto_keyed (event : Event) : bool :=
  is_offer_event event
  && String.eqb (ToPropertyKey (payload_id (payload event))) "__proto__".

(** No offered or wanted plant of the log is stored under [__proto__]:
    [R.fromPairs] would make it the prototype of the object it builds, and
    [R.omit] would then copy its fields as if they were plants. *)
Definition plain_keyed (events : list Event) : bool :=
  forallb (fun event => negb (proto_keyed event)) events.

(** A command method up to the [await] in [append]. *)
Definition command_sync (f : Fresh) (c : Command) (s : Server) : Server * Outcome Event :=
  match command_event f c with
  | Returned event => (fst (append_sync event s), Returned (snd (append_sync event s)))
  | Threw error => (s, Threw error)
  end.

(** The event names the id, as the entity it carries or as the plant it
    removes. *)
Definition names_id (id : JsVal) (event : Event) : bool :=
  bool_decide (payload_id (payload event) = id)
  || bool_decide (payload_plantId (payload event) = id).

(** What can run between a command's notification and its return without
    touching the entry of [id]: anything but a rebuild and the append of
    an event that names [id]. *)
Definition leaves_entry (id : JsVal) (a : Action) : bool :=
  match a with
  | CallAppend event => negb (names_id id event)
  | CallRebuild => false
  | _ => true
  end.

Definition count_events (selects : Event -> bool) (events : list Event) : nat :=
  length (List.filter selects events).

(** The projection a command writes to. *)
Definition projection_for (c : Command) (s : Server) : JsMap Payload :=
  match c with
  | RegisterMember _ => members_value s
  | OfferPlant _ _ | RequestPlant _ _ | RemovePlant _ _ => plants_value s
  | SendMessage _ => messages_value s
  end.

(** The accumulator of the pipeline behind that projection. *)
Definition accumulator_for (c : Command) (s : Server) : JsMap Payload :=
  match c with
  | RegisterMember _ => members_acc s
  | OfferPlant _ _ | RequestPlant _ _ | RemovePlant _ _ => plants_acc s
  | SendMessage _ => messages_acc s
  end.

(** The projection of [c] shows what its pipeline emitted last, and in it
    [id] stands for [entity]. *)
Definition entry_held (c : Command) (id : JsVal) (entity : Payload) (s : Server) : Prop :=
  projection_for c s = accumulator_for c s /\
  Map_wf (accumulator_for c s) /\
  Map_get id (accumulator_for c s) = Some entity.

(** The command creates an entity (all do but [removePlant]). *)
Definition creates (c : Command) : bool :=
  match c with
  | RemovePlant _ _ => false
  | _ => true
  end.

(** The response object [id] comes in through [GET /events]. *)
Definition connects (id : nat) (a : Action) : bool :=
  match a with
  | Connects res => Nat.eqb (cid res) id
  | _ => false
  end.

(** The plant is listed as an offer or as a request. *)
Definition offer_or_wanted (p : Payload) : bool :=
  bool_decide (payload_type p = Str "offer") || bool_decide (payload_type p = Str "wanted").

(** The call is given a request object, so it appends. *)
Definition appends (c : Call) : bool := has_input_object (call_command c).

(** The projection-updated message a command causes, given the snapshot
    it carries. *)
Definition update_for (c : Command) (snapshot : list Payload) : SseMessage :=
  match c with
  | RegisterMember _ => members_updated snapshot
  | OfferPlant _ _ | RequestPlant _ _ | RemovePlant _ _ => plants_updated snapshot
  | SendMessage _ => messages_updated snapshot
  end.



(** Two states that differ at most in the file and the list of writes. *)
Definition same_but_file (s s' : Server) : Prop :=
  eventHistory s' = eventHistory s /\ console s' = console s /\
  members_acc s' = members_acc s /\ plants_acc s' = plants_acc s /\
  messages_acc s' = messages_acc s /\
  members_value s' = members_value s /\ plants_value s' = plants_value s /\
  messages_value s' = messages_value s /\ sseClients s' = sseClients s.

(** Sample data for the queries. *)
Module Catalogue.

(** Lower case for the letters A to Z, enough for the examples. *)
Definition ascii_lower (c : ascii) : ascii :=
  let n := N_of_ascii c in
  if ((65 <=? n) && (n <=? 90))%N then ascii_of_N (n + 32) else c.

Fixpoint lower (s : string) : string :=
  match s with
  | EmptyString => EmptyString
  | String c rest => String (ascii_lower c) (lower rest)
  end.

Definition plant (id time name : string) (descr : JsVal) (kind : string) : Payload :=
  PPlant (createPlant id time (Str name) descr (Str "herbs") (Str "M1") (Str kind)).

Definition basil : Payload := plant "P1" "2024-01-01T10:00:00.000Z" "Basil" (Str "sweet") "offer".
Definition mint : Payload := plant "P2" "2024-01-03T10:00:00.000Z" "Mint" (Str "BASIL friend") "wanted".
Definition sage : Payload := plant "P3" "2024-01-02T10:00:00.000Z" "Sage" (Str "grey") "offer".
(** An offer posted without a description. *)
Definition bare : Payload := plant "P4" "2024-01-04T10:00:00.000Z" "Thyme" Undefined "offer".

(** An offer posted without a name. *)
Definition nameless : Payload :=
  PPlant (createPlant "P5" "2024-01-05T10:00:00.000Z" Undefined (Str "mystery")
            (Str "herbs") (Str "M1") (Str "offer")).

Definition no_name : PlantData :=
  {| data_plant_name := Undefined; data_description := Str "mystery";
     data_category := Str "herbs" |}.

Definition with_plants (plants : list Payload) : Server :=
  set_plants Map_empty (map (fun p => (payload_id p, p)) plants) (boot None).

Definition shop : Server := with_plants [basil; mint; sage].

Definition any : Criteria :=
  {| criteria_type := Undefined; criteria_category := Undefined;
     criteria_search := Undefined |}.

Definition text (s : string) : Criteria :=
  {| criteria_type := Undefined; criteria_category := Undefined;
     criteria_search := Str s |}.

Definition offers : Criteria :=
  {| criteria_type := Str "offer"; criteria_category := Undefined;
     criteria_search := Undefined |}.

Definition note (id time from to : string) : Payload :=
  PMessage (createMessage id time (Str from) (Str to) (Str "hi") Undefined).

Definition with_messages (messages : list Payload) : Server :=
  set_messages Map_empty (map (fun p => (payload_id p, p)) messages) (boot None).

Definition inbox : Server :=
  with_messages [note "N1" "t1" "M1" "M2"; note "N2" "t3" "M3" "M1"; note "N3" "t2" "M2" "M3"].

Definition register (uuid : string) : Call :=
  {| call_fresh := Scenario.fresh uuid (String.append "E-" uuid) "t";
     call_answer := IoOk;
     call_command := RegisterMember (Some Scenario.ann) |}.

Definition offer (uuid : string) (answer : IoResult) : Call :=
  {| call_fresh := Scenario.fresh uuid (String.append "E-" uuid) "t";
     call_answer := answer;
     call_command := OfferPlant (Some Scenario.fern) (Str "M1") |}.

Definition remove (uuid plantId : string) : Call :=
  {| call_fresh := Scenario.fresh uuid (String.append "E-" uuid) "t";
     call_answer := IoOk;
     call_command := RemovePlant (Str plantId) (Str "M1") |}.

End Catalogue.

(* ===================================================================== *)
(** * Properties *)
(* ===================================================================== *)

Local Open Scope list_scope.

(** ** Association lists *)

Section AssocFacts.
Context {K V : Type} `{EqDecision K}.
Implicit Types (k : K) (v : V) (m : list (K * V)).

Lemma assoc_set_fresh k v m :
  k ∉ keys m -> assoc_set k v m = (m ++ [(k, v)])%list.
Proof.
  induction m as [|[k' v'] m IH]; simpl; intros Hk; [done|].
  apply not_elem_of_cons in Hk as [Hne Hk].
  destruct (decide (k' = k)); [congruence|]. by rewrite IH.
Qed.

Lemma keys_assoc_set_in k v m :
  k ∈ keys m -> keys (assoc_set k v m) = keys m.
Proof.
  induction m as [|[k' v'] m IH]; simpl; intros Hk.
  - by apply elem_of_nil in Hk.
  - destruct (decide (k' = k)) as [->|Hne]; simpl; [done|].
    apply elem_of_cons in Hk as [Hk|Hk]; [congruence|]. by rewrite IH.
Qed.

Lemma assoc_set_NoDup k v m : NoDup (keys m) -> NoDup (keys (assoc_set k v m)).
Proof.
  intros Hm. destruct (decide (k ∈ keys m)) as [Hin|Hout].
  - by rewrite keys_assoc_set_in.
  - rewrite assoc_set_fresh by done. unfold keys. rewrite map_app. simpl.
    apply NoDup_app. split; [done|]. split.
    + intros x Hx Hx'. apply list_elem_of_singleton in Hx'. by subst.
    + apply NoDup_singleton.
Qed.

Lemma assoc_of_pairs_acc (acc m : list (K * V)) :
  NoDup (keys (acc ++ m)) ->
  fold_left (fun a kv => assoc_set (fst kv) (snd kv) a) m acc = (acc ++ m)%list.
Proof.
  revert acc. induction m as [|[k v] m IH]; intros acc Hnd; simpl.
  - by rewrite app_nil_r.
  - assert (k ∉ keys acc) as Hk.
    { unfold keys in Hnd. rewrite map_app in Hnd. apply NoDup_app in Hnd as (_ & Hd & _).
      intros Hin. apply (Hd k Hin). simpl. left. }
    rewrite assoc_set_fresh by done.
    rewrite IH; rewrite <- app_assoc; done.
Qed.

(** Copying a duplicate-free entry list entry by entry gives it back. *)
Lemma assoc_of_pairs_id m : NoDup (keys m) -> assoc_of_pairs m = m.
Proof. intros Hm. unfold assoc_of_pairs. by rewrite assoc_of_pairs_acc. Qed.

Lemma assoc_delete_filter k m :
  assoc_delete k m = filter (fun kv => fst kv <> k) m.
Proof.
  induction m as [|[k' v'] m IH]; simpl; [done|].
  destruct (decide (k' = k)) as [->|Hne].
  - rewrite filter_cons_False; [done|]. simpl. tauto.
  - rewrite filter_cons_True by done. by rewrite IH.
Qed.

Lemma assoc_delete_absent k m : k ∉ keys m -> assoc_delete k m = m.
Proof.
  induction m as [|[k' v'] m IH]; simpl; intros Hk; [done|].
  apply not_elem_of_cons in Hk as [Hne Hk].
  destruct (decide (k' = k)); [congruence|]. by rewrite IH.
Qed.

Lemma assoc_get_delete_eq k m : assoc_get k (assoc_delete k m) = None.
Proof.
  induction m as [|[k' v'] m IH]; simpl; [done|].
  destruct (decide (k' = k)); [done|]. simpl.
  destruct (decide (k' = k)); [congruence|done].
Qed.

Lemma assoc_get_delete_ne k k' m :
  k' <> k -> assoc_get k' (assoc_delete k m) = assoc_get k' m.
Proof.
  intros Hne. induction m as [|[k0 v0] m IH]; simpl; [done|].
  destruct (decide (k0 = k)) as [->|]; simpl.
  - destruct (decide (k = k')); [congruence|done].
  - destruct (decide (k0 = k')); [done|]. apply IH.
Qed.

Lemma assoc_delete_length k m :
  NoDup (keys m) -> k ∈ keys m -> length (assoc_delete k m) + 1 = length m.
Proof.
  induction m as [|[k' v'] m IH]; simpl; intros Hnd Hk.
  - by apply elem_of_nil in Hk.
  - apply NoDup_cons in Hnd as [Hk' Hnd].
    destruct (decide (k' = k)) as [->|Hne].
    + rewrite assoc_delete_absent by done. lia.
    + apply elem_of_cons in Hk as [Hk|Hk]; [congruence|].
      simpl. rewrite <- (IH Hnd Hk). lia.
Qed.

Lemma assoc_delete_NoDup k m : NoDup (keys m) -> NoDup (keys (assoc_delete k m)).
Proof.
  intros Hm. rewrite assoc_delete_filter. unfold keys.
  induction m as [|[k' v'] m IH]; simpl; [constructor|].
  apply NoDup_cons in Hm as [Hk' Hm].
  destruct (decide (k' = k)) as [->|Hne].
  - rewrite filter_cons_False by (simpl; tauto). by apply IH.
  - rewrite filter_cons_True by done. simpl. apply NoDup_cons. split; [|by apply IH].
    intros Hin. apply Hk'. apply list_elem_of_fmap in Hin as ([k1 v1] & -> & Hin).
    apply list_elem_of_filter in Hin as [_ Hin].
    apply list_elem_of_fmap. by exists (k1, v1).
Qed.
End AssocFacts.

Lemma Map_new_copy {V} (m : JsMap V) : Map_wf m -> Map_new m = m.
Proof. apply assoc_of_pairs_id. Qed.

(** ** What each operation leaves alone *)

Ltac unfold_ops :=
  unfold events_next, sse_event_observer, messages_pipe, plants_pipe, members_pipe,
    rebuildFromHistory, messages_next, plants_next, members_next,
    broadcastToSSEClients, getEvents in *.

Ltac frame := intros; unfold_ops; repeat case_match; reflexivity.

Section Frames.
Variables (event : Event) (s : Server).

Lemma events_next_eventHistory : eventHistory (events_next event s) = eventHistory s.
Proof. frame. Qed.
Lemma events_next_disk : disk (events_next event s) = disk s.
Proof. frame. Qed.
Lemma events_next_pending : pending (events_next event s) = pending s.
Proof. frame. Qed.
Lemma events_next_console : console (events_next event s) = console s.
Proof. frame. Qed.

Lemma rebuild_eventHistory : eventHistory (fst (rebuildFromHistory s)) = eventHistory s.
Proof. frame. Qed.
Lemma rebuild_console : console (fst (rebuildFromHistory s)) = console s.
Proof. frame. Qed.
Lemma rebuild_members_acc : members_acc (fst (rebuildFromHistory s)) = members_acc s.
Proof. frame. Qed.
Lemma rebuild_plants_acc : plants_acc (fst (rebuildFromHistory s)) = plants_acc s.
Proof. frame. Qed.
Lemma rebuild_messages_acc : messages_acc (fst (rebuildFromHistory s)) = messages_acc s.
Proof. frame. Qed.
End Frames.

(** The steps of a file write touch the file and the list of writes
    only. *)
Lemma writeFile_open_frame i s : same_but_file s (writeFile_open i s).
Proof.
  unfold writeFile_open, same_but_file.
  destruct (pending s !! i) as [w|]; [destruct (write_pos w)|]; repeat split.
Qed.

Lemma writeFile_write_frame i k s : same_but_file s (writeFile_write i k s).
Proof.
  unfold writeFile_write, same_but_file.
  destruct (pending s !! i) as [w|]; [destruct (write_pos w)|]; repeat split.
Qed.

Lemma writeFile_open_eventHistory i s : eventHistory (writeFile_open i s) = eventHistory s.
Proof. apply writeFile_open_frame. Qed.

Lemma writeFile_write_eventHistory i k s :
  eventHistory (writeFile_write i k s) = eventHistory s.
Proof. apply writeFile_write_frame. Qed.

Lemma persist_resume_frame i r s :
  eventHistory (fst (persist_resume i r s)) = eventHistory s /\
  members_acc (fst (persist_resume i r s)) = members_acc s /\
  plants_acc (fst (persist_resume i r s)) = plants_acc s /\
  messages_acc (fst (persist_resume i r s)) = messages_acc s /\
  members_value (fst (persist_resume i r s)) = members_value s /\
  plants_value (fst (persist_resume i r s)) = plants_value s /\
  messages_value (fst (persist_resume i r s)) = messages_value s /\
  sseClients (fst (persist_resume i r s)) = sseClients s.
Proof.
  unfold persist_resume, writeFile_settle.
  destruct (pending s !! i) as [w|]; [|repeat split].
  destruct r; cbn [fst]; [|repeat split].
  destruct (writeFile_write_frame i (length (write_data w)) (writeFile_open i s))
    as (H1 & _ & H2 & H3 & H4 & H5 & H6 & H7 & H8).
  destruct (writeFile_open_frame i s) as (G1 & _ & G2 & G3 & G4 & G5 & G6 & G7 & G8).
  cbn [eventHistory members_acc plants_acc messages_acc members_value plants_value
       messages_value sseClients set_pending].
  repeat split; congruence.
Qed.

Lemma append_sync_eventHistory event s :
  eventHistory (fst (append_sync event s)) =
  (eventHistory s ++ [with_sequenceNumber event (length (eventHistory s) + 1)])%list.
Proof.
  unfold append_sync, append_push, persist_begin, set_pending. cbn [fst eventHistory].
  by rewrite events_next_eventHistory.
Qed.

Lemma append_sync_event event s :
  snd (append_sync event s) = with_sequenceNumber event (length (eventHistory s) + 1).
Proof. reflexivity. Qed.

Lemma append_sync_pending event s :
  pending (fst (append_sync event s)) =
  (pending s ++
     [{| write_data := JSON_stringify
           (eventHistory s ++ [with_sequenceNumber event (length (eventHistory s) + 1)]);
         write_pos := None |}])%list.
Proof.
  unfold append_sync, append_push, persist_begin, set_pending. cbn [fst pending].
  by rewrite events_next_pending, events_next_eventHistory.
Qed.

Lemma append_sync_disk event s : disk (fst (append_sync event s)) = disk s.
Proof.
  unfold append_sync, append_push, persist_begin, set_pending. cbn [fst disk].
  by rewrite events_next_disk.
Qed.

Lemma append_sync_console event s : console (fst (append_sync event s)) = console s.
Proof.
  unfold append_sync, append_push, persist_begin, set_pending. cbn [fst console].
  by rewrite events_next_console.
Qed.

Lemma persist_resume_eventHistory i r s :
  eventHistory (fst (persist_resume i r s)) = eventHistory s.
Proof. apply persist_resume_frame. Qed.

Lemma events_route_eventHistory res s :
  eventHistory (fst (events_route res s)) = eventHistory s.
Proof. unfold events_route. by case_match. Qed.

(** ** Sequence numbers *)

Lemma well_sequenced_nil : well_sequenced [].
Proof. intros i e H. by rewrite lookup_nil in H. Qed.

Lemma well_sequenced_snoc h event :
  well_sequenced h ->
  well_sequenced (h ++ [with_sequenceNumber event (length h + 1)]).
Proof.
  intros Hh i e Hi.
  destruct (decide (i < length h)) as [Hlt|Hge].
  - rewrite lookup_app_l in Hi by done. by apply Hh.
  - rewrite lookup_app_r in Hi by lia.
    destruct (i - length h) as [|n] eqn:Hd; simpl in Hi; [|by rewrite lookup_nil in Hi].
    injection Hi as <-. simpl. f_equal. lia.
Qed.

Lemma well_sequenced_numbers h :
  well_sequenced h <-> map sequenceNumber h = map Some (seq 1 (length h)).
Proof.
  split.
  - intros Hh. apply list_eq. intros i.
    rewrite !list_lookup_fmap.
    destruct (h !! i) as [e|] eqn:He; simpl.
    + rewrite (Hh i e He).
      apply lookup_lt_Some in He as Hlt.
      rewrite lookup_seq_lt by done. simpl. do 2 f_equal. lia.
    + apply lookup_ge_None in He. rewrite lookup_seq_ge by done. done.
  - intros Hmap i e He.
    assert (map sequenceNumber h !! i = Some (sequenceNumber e)) as Hl.
    { by rewrite list_lookup_fmap, He. }
    rewrite Hmap, list_lookup_fmap in Hl.
    apply lookup_lt_Some in He as Hlt.
    rewrite lookup_seq_lt in Hl by done. simpl in Hl.
    injection Hl as <-. f_equal. lia.
Qed.

(** ** Reading the file *)

Lemma JSON_parse_stringify events : JSON_parse (JSON_stringify events) = Some events.
Proof.
  unfold JSON_stringify. induction events as [|e events IH]; [done|].
  simpl in *. by rewrite IH.
Qed.


Lemma read_events_file (file : option (list Event)) :
  read_events (option_map JSON_stringify file) = file.
Proof. destruct file as [data|]; [|done]. apply JSON_parse_stringify. Qed.

Lemma boot_on_eventHistory text :
  eventHistory (boot_on text) = default [] (read_events text).
Proof.
  unfold boot_on, start. rewrite rebuild_eventHistory. unfold initialize.
  cbn [disk new_PlantExchangeServer]. by destruct (read_events text).
Qed.

Lemma boot_eventHistory file : eventHistory (boot file) = default [] file.
Proof. unfold boot. by rewrite boot_on_eventHistory, read_events_file. Qed.

Lemma sequence_inv_boot file : file_ok file -> sequence_inv (boot file).
Proof.
  intros Hf. unfold sequence_inv. rewrite boot_eventHistory.
  destruct file as [data|]; simpl; auto using well_sequenced_nil.
Qed.

Lemma sequence_inv_step s a : sequence_inv s -> sequence_inv (step s a).
Proof.
  unfold sequence_inv. intros Hh.
  destruct a as [event|i r| |res|id|id|i|i k]; cbn [step].
  - rewrite append_sync_eventHistory. by apply well_sequenced_snoc.
  - by rewrite persist_resume_eventHistory.
  - by rewrite rebuild_eventHistory.
  - by rewrite events_route_eventHistory.
  - done.
  - done.
  - by rewrite writeFile_open_eventHistory.
  - by rewrite writeFile_write_eventHistory.
Qed.

Lemma sequence_inv_run acts s : sequence_inv s -> sequence_inv (run acts s).
Proof.
  revert s. induction acts as [|a acts IH]; intros s Hs; [done|].
  simpl. apply IH. by apply sequence_inv_step.
Qed.

(** C5. Whatever the server has done since it started on a well-numbered
    (or missing) file -- appends whose writes overlap and settle in any
    order, rebuilds, clients coming and going -- the sequence numbers in
    the log are exactly 1, 2, ..., n in that order, without duplicates, the
    event at index [i] carries number [i + 1], and the next append is
    given number [n + 1] and placed last. *)
Theorem C5_sequence_numbers_gapless (file : option (list Event)) (acts : list Action)
    (event : Event) :
  file_ok file ->
  let s := run acts (boot file) in
  let h := eventHistory s in
  map sequenceNumber h = map Some (seq 1 (length h)) /\
  NoDup (map sequenceNumber h) /\
  (forall i e, h !! i = Some e -> sequenceNumber e = Some (i + 1)) /\
  sequenceNumber (snd (append_sync event s)) = Some (length h + 1) /\
  eventHistory (fst (append_sync event s)) = (h ++ [snd (append_sync event s)])%list.
Proof.
  intros Hf s h.
  pose proof (sequence_inv_run acts (boot file) (sequence_inv_boot file Hf)) as Hh.
  unfold sequence_inv in Hh. fold s in Hh. fold h in Hh.
  assert (map sequenceNumber h = map Some (seq 1 (length h))) as Hnum
    by (by apply well_sequenced_numbers).
  split; [exact Hnum|].
  split; [rewrite Hnum; apply (NoDup_fmap_2 Some), NoDup_seq|].
  split; [exact Hh|].
  split; [reflexivity|].
  apply append_sync_eventHistory.
Qed.

Lemma C5_sequence_numbers_gapless_witness :
  file_ok Scenario.old_file /\
  map sequenceNumber (eventHistory (run Scenario.overlapping (boot Scenario.old_file)))
  = [Some 1; Some 2; Some 3; Some 4].
Proof.
  assert (file_ok Scenario.old_file) as Hf.
  { intros [|i] e H; simpl in H; [by injection H as <-|by rewrite lookup_nil in H]. }
  split; [exact Hf|].
  exact (proj1 (C5_sequence_numbers_gapless Scenario.old_file Scenario.overlapping
                  Scenario.draft_M2 Hf)).
Defined.

(** ** The reducers *)

Lemma Map_wf_empty {V} : Map_wf (@Map_empty V).
Proof. constructor. Qed.

Lemma members_reducer_set members event :
  Map_wf members ->
  members_reducer members event = Map_set (payload_id (payload event)) (payload event) members.
Proof. intros Hm. unfold members_reducer. by rewrite Map_new_copy. Qed.

Lemma messages_reducer_set messages event :
  Map_wf messages ->
  messages_reducer messages event =
  Map_set (payload_id (payload event)) (payload event) messages.
Proof. intros Hm. unfold messages_reducer. by rewrite Map_new_copy. Qed.

Lemma plants_reducer_removed plants event :
  Map_wf plants ->
  event_type event = PLANT_REMOVED ->
  plants_reducer plants event = Map_delete (payload_plantId (payload event)) plants.
Proof.
  intros Hm Ht. unfold plants_reducer. rewrite Map_new_copy by done. by rewrite Ht.
Qed.

Lemma members_reducer_wf members event :
  Map_wf members -> Map_wf (members_reducer members event).
Proof.
  intros Hm. rewrite members_reducer_set by done. by apply assoc_set_NoDup.
Qed.

Lemma messages_reducer_wf messages event :
  Map_wf messages -> Map_wf (messages_reducer messages event).
Proof.
  intros Hm. rewrite messages_reducer_set by done. by apply assoc_set_NoDup.
Qed.

Lemma plants_reducer_wf plants event :
  Map_wf plants -> Map_wf (plants_reducer plants event).
Proof.
  intros Hm. unfold plants_reducer. rewrite Map_new_copy by done.
  repeat case_match; [by apply assoc_set_NoDup|by apply assoc_delete_NoDup|done].
Qed.

(** The plants reducer applied to a PLANT_REMOVED event: when the
    referenced id is not a key of the map, the result is the map itself;
    when it is, the result is the map without that one entry -- the id is
    gone, every other id keeps its value, the remaining entries keep their
    order, and the size drops by exactly one. *)
Lemma plants_reducer_removal (plants : JsMap Payload) (event : Event) :
  Map_wf plants ->
  event_type event = PLANT_REMOVED ->
  let k := payload_plantId (payload event) in
  let plants' := plants_reducer plants event in
  (Map_has k plants = false -> plants' = plants) /\
  (Map_has k plants = true ->
     Map_get k plants' = None /\
     (forall k', k' <> k -> Map_get k' plants' = Map_get k' plants) /\
     plants' = filter (fun kv => fst kv <> k) plants /\
     length plants' + 1 = length plants).
Proof.
  intros Hwf Ht k plants'. subst plants'.
  rewrite plants_reducer_removed by done. fold k. unfold Map_has, Map_get, Map_delete.
  split.
  - intros Hk. apply bool_decide_eq_false in Hk. by apply assoc_delete_absent.
  - intros Hk. apply bool_decide_eq_true in Hk. repeat split.
    + apply assoc_get_delete_eq.
    + intros k' Hne. by apply assoc_get_delete_ne.
    + apply assoc_delete_filter.
    + by apply assoc_delete_length.
Qed.

Example plants_reducer_removes_P1 :
  plants_reducer [(Str "P1", Scenario.plant_P1); (Str "P2", Scenario.plant_P2)]
    (with_sequenceNumber Scenario.draft_remove_P1 4)
  = [(Str "P2", Scenario.plant_P2)].
Proof. vm_compute. reflexivity. Qed.

(** On the running server: a plant event publishes the reducer's result on
    the accumulator kept by [scan]. *)
Lemma append_sync_plants event s :
  is_plant_event event = true ->
  plants_value (fst (append_sync event s)) =
  plants_reducer (plants_acc s) (with_sequenceNumber event (length (eventHistory s) + 1)).
Proof.
  intros Hp. unfold append_sync, append_push, persist_begin, set_pending.
  cbn [fst plants_value].
  set (e := with_sequenceNumber event _).
  assert (is_plant_event e = true) as He by exact Hp.
  assert (is_member_event e = is_member_event event) as Hm by reflexivity.
  assert (is_message_event e = is_message_event event) as Hg by reflexivity.
  unfold events_next, sse_event_observer, messages_pipe, plants_pipe, members_pipe.
  rewrite He, Hm, Hg.
  destruct (is_member_event event), (is_message_event event); reflexivity.
Qed.

(** ** Rebuilding *)

Lemma rebuild_members_value s :
  members_value (fst (rebuildFromHistory s)) = rebuild_members (eventHistory s).
Proof. unfold rebuildFromHistory, getEvents. by case_match. Qed.

Lemma rebuild_plants_value s :
  plants_value (fst (rebuildFromHistory s)) =
  match rebuild_plants (eventHistory s) with
  | Returned plants => plants
  | Threw _ => plants_value s
  end.
Proof. unfold rebuildFromHistory, getEvents. by case_match. Qed.

Lemma rebuild_messages_value s :
  messages_value (fst (rebuildFromHistory s)) =
  match rebuild_plants (eventHistory s) with
  | Returned _ => rebuild_messages (eventHistory s)
  | Threw _ => messages_value s
  end.
Proof. unfold rebuildFromHistory, getEvents. by case_match. Qed.

Lemma rebuild_outcome s :
  snd (rebuildFromHistory s) =
  match rebuild_plants (eventHistory s) with
  | Returned _ => Returned tt
  | Threw error => Threw error
  end.
Proof. unfold rebuildFromHistory, getEvents. by case_match. Qed.

Lemma rebuild_state s :
  getCurrentState (fst (rebuildFromHistory s)) =
  match rebuild_plants (eventHistory s) with
  | Returned plants =>
      {| state_members := Map_values (rebuild_members (eventHistory s));
         state_plants := Map_values plants;
         state_messages := Map_values (rebuild_messages (eventHistory s)) |}
  | Threw _ =>
      {| state_members := Map_values (rebuild_members (eventHistory s));
         state_plants := Map_values (plants_value s);
         state_messages := Map_values (messages_value s) |}
  end.
Proof.
  unfold getCurrentState.
  rewrite rebuild_members_value, rebuild_plants_value, rebuild_messages_value.
  by case_match.
Qed.



(** A removal that names [hasOwnProperty] makes replay throw as soon as
    the log offers a plant: the members are replaced, the plants and the
    messages stay as they were, and a second call does the same. *)
Example rebuild_throws_on_hasOwnProperty :
  let remove := createEvent "E9" "t9" PLANT_REMOVED (PRemoval (Str "hasOwnProperty"))
                  (Str "M1") in
  let s := run [CallAppend Scenario.draft_M1; CallAppend Scenario.draft_P1;
                CallAppend remove] (boot None) in
  snd (rebuildFromHistory s) = Threw not_a_function /\
  getCurrentState (fst (rebuildFromHistory s)) = getCurrentState s /\
  snd (start (new_PlantExchangeServer (Some (JSON_stringify (eventHistory s)))))
  = Threw not_a_function /\
  state_plants (getCurrentState (boot (Some (eventHistory s)))) = [].
Proof. split; [|split; [|split]]; vm_compute; reflexivity. Qed.

(** ** Fan-out *)

Lemma client_write_deliver message : client_write message = deliver [message].
Proof. reflexivity. Qed.

Lemma omap_deliver_app l1 l2 (clients : list Client) :
  omap (deliver l2) (omap (deliver l1) clients) = omap (deliver (l1 ++ l2)) clients.
Proof.
  induction clients as [|[id w r] clients IH]; [done|].
  destruct w; simpl in *; [|exact IH].
  rewrite <- app_assoc. f_equal. exact IH.
Qed.

Lemma deliver_in messages (clients : list Client) c' :
  c' ∈ omap (deliver messages) clients ->
  exists c, c ∈ clients /\ writable c = true /\ cid c' = cid c /\
            received c' = (received c ++ messages)%list.
Proof.
  intros Hin. apply list_elem_of_omap in Hin as (c & Hc & Hd).
  exists c. unfold deliver in Hd. destruct (writable c); [|discriminate].
  injection Hd as <-. auto.
Qed.

(** One [events$.next]: every client whose writes succeed is sent the
    projection updates and then the event; the others are dropped. *)
Lemma events_next_sseClients event s :
  sseClients (events_next event s) =
  omap (deliver (projection_messages event s ++ [event_message event])) (sseClients s).
Proof.
  unfold events_next, sse_event_observer, messages_pipe, plants_pipe, members_pipe,
    projection_messages.
  destruct (is_member_event event), (is_plant_event event), (is_message_event event);
    unfold messages_next, plants_next, members_next, broadcastToSSEClients;
    cbn [sseClients set_sseClients set_members set_plants set_messages
         members_acc plants_acc messages_acc];
    rewrite ?client_write_deliver, ?omap_deliver_app; reflexivity.
Qed.

Lemma append_sync_sseClients event s :
  sseClients (fst (append_sync event s)) =
  omap (deliver (projection_messages (snd (append_sync event s)) s
                 ++ [event_message (snd (append_sync event s))])) (sseClients s).
Proof.
  unfold append_sync, append_push, persist_begin, set_pending.
  cbn [fst snd sseClients]. by rewrite events_next_sseClients.
Qed.

Lemma event_types_disjoint event :
  (is_member_event event = true -> is_plant_event event = false /\ is_message_event event = false)
  /\ (is_plant_event event = true -> is_message_event event = false).
Proof.
  unfold is_member_event, is_plant_event, is_message_event, existsb.
  split.
  - intros H. apply String.eqb_eq in H. rewrite H. by vm_compute.
  - intros H. rewrite !orb_true_iff in H.
    destruct H as [H|[H|[H|H]]]; [..|done]; apply String.eqb_eq in H; rewrite H; by vm_compute.
Qed.

Lemma projection_messages_updates event s :
  Forall (fun m => is_projection_update m = true) (projection_messages event s).
Proof.
  unfold projection_messages.
  destruct (is_member_event event), (is_plant_event event), (is_message_event event);
    simpl; repeat constructor.
Qed.

Lemma projection_messages_at_most_one event s :
  length (projection_messages event s) <= 1.
Proof.
  unfold projection_messages. destruct (event_types_disjoint event) as [Hm Hp].
  destruct (is_member_event event).
  - destruct (Hm eq_refl) as [-> ->]. simpl. lia.
  - destruct (is_plant_event event).
    + rewrite (Hp eq_refl). simpl. lia.
    + destruct (is_message_event event); simpl; lia.
Qed.

Lemma updates_then_event_order event s :
  updates_before_event (projection_messages event s ++ [event_message event]) event.
Proof.
  pose proof (projection_messages_updates event s) as Hall.
  set (pm := projection_messages event s) in *.
  intros i j u Hi Hj Hu.
  assert (~ i < length pm) as Hige.
  { intros Hlt. rewrite lookup_app_l in Hi by done.
    eapply Forall_lookup_1 in Hall; [|exact Hi]. discriminate. }
  assert (j < length pm) as Hjlt.
  { destruct (decide (j < length pm)) as [|Hge]; [done|].
    rewrite lookup_app_r in Hj by lia.
    destruct (j - length pm) as [|n]; simpl in Hj.
    - injection Hj as <-. discriminate.
    - by rewrite lookup_nil in Hj. }
  lia.
Qed.

(** C2 (as the code orders it). For every append, the clients registered
    afterwards are exactly the earlier clients whose writes succeed, and
    each of them has been sent the same run of messages: first the
    projection update the event causes (at most one, none for an event
    type no projection listens to), and last the event itself.  Every
    client sees that same order. *)
Theorem C2_updates_precede_event (event : Event) (s : Server) :
  let e := snd (append_sync event s) in
  let sent := (projection_messages e s ++ [event_message e])%list in
  sseClients (fst (append_sync event s)) = omap (deliver sent) (sseClients s) /\
  (forall c', c' ∈ sseClients (fst (append_sync event s)) ->
     exists c, c ∈ sseClients s /\ cid c' = cid c /\
               received c' = (received c ++ sent)%list) /\
  updates_before_event sent e /\
  length (projection_messages e s) <= 1.
Proof.
  intros e sent. split; [apply append_sync_sseClients|].
  split.
  - intros c' Hc'. rewrite append_sync_sseClients in Hc'.
    apply deliver_in in Hc' as (c & Hc & _ & Hid & Hr). by exists c.
  - split; [apply updates_then_event_order|apply projection_messages_at_most_one].
Qed.

Lemma C2_updates_precede_event_witness :
  let c' := {| cid := 0; writable := true;
               received := [initial_state [] [] []; members_updated [Scenario.member_M1];
                            event_message Scenario.stored_M1] |} in
  let e := snd (append_sync Scenario.draft_M1 Scenario.one_client) in
  c' ∈ sseClients (fst (append_sync Scenario.draft_M1 Scenario.one_client)) /\
  exists c, c ∈ sseClients Scenario.one_client /\ cid c' = cid c /\
    received c' =
    (received c ++ projection_messages e Scenario.one_client ++ [event_message e])%list.
Proof.
  intros c' e.
  assert (c' ∈ sseClients (fst (append_sync Scenario.draft_M1 Scenario.one_client))) as Hin.
  { vm_compute. apply list_elem_of_singleton. reflexivity. }
  split; [exact Hin|].
  exact (proj1 (proj2 (C2_updates_precede_event Scenario.draft_M1 Scenario.one_client))
           c' Hin).
Defined.

(** The order the specification asks for does not hold: the connected
    browser is sent [members_updated] before the event it comes from. *)
Lemma C2_event_first_fails :
  let s := Scenario.one_client in
  let e := snd (append_sync Scenario.draft_M1 s) in
  ~ (forall c c', c ∈ sseClients s -> c' ∈ sseClients (fst (append_sync Scenario.draft_M1 s)) ->
       cid c' = cid c ->
       event_before_updates (drop (length (received c)) (received c')) e).
Proof.
  intros s e Hfirst.
  pose (c := {| cid := 0; writable := true; received := [initial_state [] [] []] |}).
  pose (c' := {| cid := 0; writable := true;
                 received := [initial_state [] [] []; members_updated [Scenario.member_M1];
                              event_message Scenario.stored_M1] |}).
  assert (c ∈ sseClients s) as Hc.
  { vm_compute. apply list_elem_of_singleton. reflexivity. }
  assert (c' ∈ sseClients (fst (append_sync Scenario.draft_M1 s))) as Hc'.
  { vm_compute. apply list_elem_of_singleton. reflexivity. }
  specialize (Hfirst c c' Hc Hc' eq_refl 1 0 (members_updated [Scenario.member_M1])).
  vm_compute in Hfirst.
  specialize (Hfirst eq_refl eq_refl eq_refl). lia.
Qed.

(** ** One whole append *)

Lemma delete_last {A} (l : list A) (x : A) : delete (length l) (l ++ [x]) = l.
Proof. induction l as [|y l IH]; simpl; [done|]. by rewrite IH. Qed.

Lemma at_notification_sync event s :
  fst (append_sync event s) = persist_begin (at_notification event s).
Proof. reflexivity. Qed.

Lemma insert_last {A} (l : list A) (x y : A) : <[length l := y]> (l ++ [x]) = l ++ [y].
Proof. induction l as [|z l IH]; simpl; [done|]. by rewrite IH. Qed.

Lemma lookup_last {A} (l : list A) (x : A) : (l ++ [x]) !! length l = Some x.
Proof. rewrite lookup_app_r by lia. by rewrite Nat.sub_diag. Qed.

Lemma write_at_start text : write_at 0 text [] = text.
Proof. unfold write_at. simpl. by rewrite drop_nil, app_nil_r. Qed.

Lemma append_resume_state i r e s :
  fst (append_resume i r e s) = fst (persist_resume i r s).
Proof. unfold append_resume. by destruct (persist_resume i r s) as [s' [[]|err]]. Qed.

Lemma persist_resume_returns i r s : snd (persist_resume i r s) = Returned tt.
Proof.
  unfold persist_resume. by destruct (writeFile_settle i r s) as [s' [[]|err]].
Qed.

Lemma append_resume_returns i r e s : snd (append_resume i r e s) = Returned e.
Proof.
  unfold append_resume. pose proof (persist_resume_returns i r s) as H.
  by destruct (persist_resume i r s) as [s' [[]|err]].
Qed.

(** A rejected write: the error is printed, the write is forgotten, and
    nothing else changes -- the file stays as the write left it. *)
Lemma persist_resume_fail i reason s w :
  pending s !! i = Some w ->
  fst (persist_resume i (IoFail reason) s) =
  console_write (ErrFailedToPersist (SystemError reason))
    (set_pending (delete i (pending s)) s).
Proof. intros Hw. unfold persist_resume, writeFile_settle. by rewrite Hw. Qed.

Section WholeAppend.
Variables (event : Event) (s : Server).

Let e := with_sequenceNumber event (length (eventHistory s) + 1).
Let written := (eventHistory s ++ [e])%list.

Lemma append_settles_own_write :
  pending (fst (append_sync event s)) !! length (pending s)
  = Some {| write_data := JSON_stringify written; write_pos := None |}.
Proof. rewrite append_sync_pending. apply lookup_last. Qed.

(** The whole call is its synchronous part followed by the settling of
    the write it started. *)
Lemma append_split r :
  append r event s =
  append_resume (length (pending s)) r (snd (append_sync event s))
    (fst (append_sync event s)).
Proof.
  unfold append, persist, append_resume, append_sync, append_push.
  cbn [fst snd]. by rewrite events_next_pending.
Qed.

Lemma append_ok :
  append IoOk event s =
  (set_disk (Some (JSON_stringify written))
     (set_pending (pending s) (fst (append_sync event s))),
   Returned e).
Proof.
  rewrite append_split. unfold append_resume, persist_resume, writeFile_settle.
  rewrite append_settles_own_write. unfold writeFile_open.
  rewrite append_settles_own_write. cbn [write_pos write_data].
  unfold writeFile_write. cbn [pending set_pending set_disk disk].
  rewrite append_sync_pending. fold e. fold written.
  rewrite insert_last, lookup_last. cbn [write_pos write_data default].
  rewrite insert_last, drop_0, firstn_all, write_at_start.
  cbn [pending set_pending set_disk]. by rewrite delete_last.
Qed.

Lemma append_fail reason :
  append (IoFail reason) event s =
  (console_write (ErrFailedToPersist (SystemError reason))
     (set_pending (pending s) (fst (append_sync event s))),
   Returned e).
Proof.
  rewrite append_split. unfold append_resume, persist_resume, writeFile_settle.
  rewrite append_settles_own_write, append_sync_pending. fold e. fold written.
  by rewrite delete_last.
Qed.

Lemma append_returns r : snd (append r event s) = Returned e.
Proof. destruct r; [by rewrite append_ok|by rewrite append_fail]. Qed.

Lemma append_eventHistory r : eventHistory (fst (append r event s)) = written.
Proof.
  destruct r; [rewrite append_ok|rewrite append_fail]; simpl;
    apply append_sync_eventHistory.
Qed.

(** What the listeners and the queries see is settled by the synchronous
    part. *)
Lemma append_members_value r :
  members_value (fst (append r event s)) = members_value (fst (append_sync event s)).
Proof. destruct r; [by rewrite append_ok|by rewrite append_fail]. Qed.

Lemma append_plants_value r :
  plants_value (fst (append r event s)) = plants_value (fst (append_sync event s)).
Proof. destruct r; [by rewrite append_ok|by rewrite append_fail]. Qed.

Lemma append_messages_value r :
  messages_value (fst (append r event s)) = messages_value (fst (append_sync event s)).
Proof. destruct r; [by rewrite append_ok|by rewrite append_fail]. Qed.

Lemma append_plants_acc r :
  plants_acc (fst (append r event s)) = plants_acc (fst (append_sync event s)).
Proof. destruct r; [by rewrite append_ok|by rewrite append_fail]. Qed.

Lemma append_sseClients r :
  sseClients (fst (append r event s)) = sseClients (fst (append_sync event s)).
Proof. destruct r; [by rewrite append_ok|by rewrite append_fail]. Qed.
End WholeAppend.




(** What the browser holds at that moment. *)
Example notified_while_unwritten :
  let notified := at_notification Scenario.draft_M1 Scenario.one_client in
  map received (sseClients notified) =
    [[initial_state [] [] []; members_updated [Scenario.member_M1];
      event_message Scenario.stored_M1]] /\
  disk notified = None.
Proof. split; vm_compute; reflexivity. Qed.

(** And a write that is refused: [append] has returned, the file is still
    missing. *)
Example failed_write_leaves_file_behind :
  let s' := fst (append (IoFail "EACCES") Scenario.draft_M1 Scenario.one_client) in
  eventHistory s' = [Scenario.stored_M1] /\ disk s' = None.
Proof. split; vm_compute; reflexivity. Qed.

Lemma run_command_event f r c s :
  run_command f r c s = then_append r (command_event f c) s.
Proof. by destruct c. Qed.

(** C4 (as the code handles it). When the write fails, [persist] catches
    the error and prints it on the console; nothing is thrown.  The command
    returns the finalized event to its caller as after a successful write,
    and the event stays in the in-memory log.  This is so at whatever
    point the write fails -- refused before the file is opened, or broken
    off after it has been opened and partly written: the settling of a
    rejected write prints the error, returns the event, and leaves the log
    and the projections alone. *)
Theorem C4_write_failure_logged_not_raised (f : Fresh) (c : Command) (reason : string)
    (s : Server) (ev : Event) :
  command_event f c = Returned ev ->
  let e := with_sequenceNumber ev (length (eventHistory s) + 1) in
  let s' := fst (run_command f (IoFail reason) c s) in
  (snd (run_command f (IoFail reason) c s) = Returned e /\
   eventHistory s' = (eventHistory s ++ [e])%list /\
   console s' = (console s ++ [ErrFailedToPersist (SystemError reason)])%list) /\
  (forall (i : nat) (s1 : Server),
     is_Some (pending s1 !! i) ->
     let s2 := fst (append_resume i (IoFail reason) e s1) in
     snd (append_resume i (IoFail reason) e s1) = Returned e /\
     console s2 = (console s1 ++ [ErrFailedToPersist (SystemError reason)])%list /\
     eventHistory s2 = eventHistory s1 /\
     getCurrentState s2 = getCurrentState s1).
Proof.
  intros Hev e s'. subst s'. rewrite run_command_event, Hev. cbn [then_append]. split.
  - split; [apply append_returns|]. split; [apply append_eventHistory|].
    rewrite append_fail. cbn [fst console console_write set_pending].
    by rewrite append_sync_console.
  - intros i s1 [w Hw]. split; [apply append_resume_returns|].
    rewrite append_resume_state, (persist_resume_fail _ _ _ _ Hw). done.
Qed.

Lemma C4_write_failure_logged_not_raised_witness :
  let f := Scenario.fresh "M1" "E1" "t1" in
  let s1 := run [WriteOpens 0; WriteWrites 0 1]
              (fst (append_sync Scenario.draft_M1 Scenario.one_client)) in
  command_event f (RegisterMember (Some Scenario.ann)) = Returned Scenario.draft_M1 /\
  snd (run_command f (IoFail "EACCES") (RegisterMember (Some Scenario.ann))
         Scenario.one_client)
  = Returned Scenario.stored_M1 /\
  is_Some (pending s1 !! 0) /\
  snd (append_resume 0 (IoFail "ENOSPC") Scenario.stored_M1 s1) = Returned Scenario.stored_M1 /\
  console (fst (append_resume 0 (IoFail "ENOSPC") Scenario.stored_M1 s1))
  = (console s1 ++ [ErrFailedToPersist (SystemError "ENOSPC")])%list.
Proof.
  intros f s1.
  assert (is_Some (pending s1 !! 0)) as Hw by (vm_compute; eexists; reflexivity).
  destruct (C4_write_failure_logged_not_raised f (RegisterMember (Some Scenario.ann))
              "EACCES" Scenario.one_client Scenario.draft_M1 eq_refl) as [(Hret & _) _].
  destruct (C4_write_failure_logged_not_raised f (RegisterMember (Some Scenario.ann))
              "ENOSPC" Scenario.one_client Scenario.draft_M1 eq_refl) as [_ Hany].
  destruct (Hany 0 s1 Hw) as (Hret' & Hcon & _).
  split; [reflexivity|]. split; [exact Hret|]. split; [exact Hw|].
  split; [exact Hret'|exact Hcon].
Defined.

(** The failure the specification asks for does not happen: with the disk
    full, registering a member still returns normally. *)
Lemma C4_no_error_surfaces :
  ~ (exists err,
       snd (registerMember (Scenario.fresh "M1" "E1" "t1") (IoFail "ENOSPC")
              (Some Scenario.ann) Scenario.one_client) = Threw err).
Proof. intros [err H]. vm_compute in H. discriminate. Qed.




(** What the server did with it instead. *)
Example incomplete_member_stored :
  let f := Scenario.fresh "M9" "E9" "t9" in
  let s' := fst (registerMember f IoOk (Some Scenario.empty_member) Scenario.one_client) in
  state_members (getCurrentState s') =
    [PMember {| member_id := Str "M9"; member_name := Undefined; email := Undefined;
                location := Undefined; bio := Str EmptyString; joinedAt := "t9";
                reputation := 0 |}] /\
  length (eventHistory s') = 1.
Proof. split; vm_compute; reflexivity. Qed.

(** ** Joining the stream *)

Lemma res_write_others id message (clients : list Client) :
  id ∉ map cid clients ->
  res_write id message clients = Some clients.
Proof.
  unfold res_write. induction clients as [|c clients IH]; intros Hid; [done|].
  simpl in Hid. apply not_elem_of_cons in Hid as [Hne Hid].
  simpl. destruct (decide (cid c = id)); [congruence|]. simpl.
  rewrite (IH Hid). done.
Qed.

Lemma res_write_new res message (clients : list Client) :
  cid res ∉ map cid clients ->
  writable res = true ->
  res_write (cid res) message (clients ++ [res]) =
  Some (clients ++ [{| cid := cid res; writable := true;
                       received := received res ++ [message] |}])%list.
Proof.
  unfold res_write. induction clients as [|c clients IH]; intros Hid Hw.
  - simpl. destruct (decide (cid res = cid res)); [|congruence].
    unfold client_write. rewrite Hw. done.
  - simpl in Hid. apply not_elem_of_cons in Hid as [Hne Hid].
    simpl. destruct (decide (cid c = cid res)); [congruence|]. simpl.
    rewrite (IH Hid Hw). done.
Qed.

(** A response object that joins through [GET /events] (a new object,
    whose writes succeed) is added to the clients and is at once written
    one [initial_state] message holding the current members, plants and
    messages snapshots, i.e. the current value of every projection.  This
    happens inside the request itself: the log, the projections and the
    other clients are untouched, and no event is needed. *)
Lemma events_route_sends_current_state (res : Client) (s : Server) :
  writable res = true ->
  cid res ∉ map cid (sseClients s) ->
  let s' := fst (events_route res s) in
  let state := getCurrentState s in
  let hello := initial_state (state_members state) (state_plants state)
                 (state_messages state) in
  snd (events_route res s) = Returned tt /\
  sseClients s' =
    (sseClients s ++ [{| cid := cid res; writable := true;
                         received := received res ++ [hello] |}])%list /\
  getCurrentState s' = state /\
  eventHistory s' = eventHistory s.
Proof.
  intros Hw Hnew s' state hello. subst s'.
  unfold events_route, Set_add.
  rewrite bool_decide_eq_false_2 by done.
  cbn [sseClients set_sseClients].
  change (getCurrentState (set_sseClients _ s)) with state.
  fold hello. rewrite res_write_new by done. done.
Qed.

(** C9, on the code.  The snapshot a new subscriber is sent is the
    current value of each projection, and after a restart that value does
    not reflect all events: a server restarted on a log that holds the
    registration of M1, on which M2 then registers, sends a subscriber who
    joins next the members snapshot [M2] alone, while the log holds both
    registrations and their in-order fold gives M1 and M2. *)
Theorem C9_late_subscriber_after_restart_misses_history :
  let s0 := boot Scenario.old_file in
  let s1 := fst (registerMember (Scenario.fresh "M2" "E5" "t5") IoOk
                   (Some Scenario.bob) s0) in
  let s2 := fst (events_route (Scenario.browser 1) s1) in
  map event_type (eventHistory s1) = [MEMBER_REGISTERED; MEMBER_REGISTERED] /\
  snd (events_route (Scenario.browser 1) s1) = Returned tt /\
  map received (sseClients s2) = [[initial_state [Scenario.member_M2] [] []]] /\
  Map_values (fold_members (eventHistory s1)) = [Scenario.member_M1; Scenario.member_M2].
Proof. split; [|split; [|split]]; vm_compute; reflexivity. Qed.

(** ** The array handed out by [getEvents] *)

Section Copies.
Import ArrayHeap.
Implicit Types (h : Heap) (l hist : loc).

Lemma fresh_array_unused h : arrays h !! fresh (dom (arrays h)) = None.
Proof. apply not_elem_of_dom. apply is_fresh. Qed.

Lemma fresh_object_unused h : objects h !! fresh (dom (objects h)) = None.
Proof. apply not_elem_of_dom. apply is_fresh. Qed.

Lemma push_elements_other event hist h l :
  l <> hist -> elements_of (eventHistory_push event hist h) l = elements_of h l.
Proof.
  intros Hne. unfold eventHistory_push, elements_of, object_alloc, array_mutate. simpl.
  by rewrite lookup_alter_ne.
Qed.

Lemma push_objects_live event hist h o :
  is_Some (objects h !! o) ->
  objects (eventHistory_push event hist h) !! o = objects h !! o.
Proof.
  intros Hlive. unfold eventHistory_push, object_alloc, array_mutate. simpl.
  apply lookup_insert_ne. intros <-.
  rewrite fresh_object_unused in Hlive. by destruct Hlive.
Qed.

Lemma pushes_keep events hist h l :
  l <> hist ->
  elements_of (pushes events hist h) l = elements_of h l /\
  forall o, is_Some (objects h !! o) ->
            objects (pushes events hist h) !! o = objects h !! o.
Proof.
  intros Hne. revert h. induction events as [|e events IH]; intros h; [done|].
  simpl. destruct (IH (eventHistory_push e hist h)) as [Hel Hob]. split.
  - by rewrite Hel, push_elements_other.
  - intros o Hlive. rewrite Hob; rewrite push_objects_live; done.
Qed.

(** The push of the heap model is the push of [append]. *)
Lemma push_read event hist h :
  store_ok hist h ->
  read_array (eventHistory_push event hist h) hist =
  (read_array h hist
     ++ [Some (with_sequenceNumber event (length (read_array h hist) + 1))])%list.
Proof.
  intros (a & Ha & Hlive).
  unfold read_array, eventHistory_push, elements_of, object_alloc, array_mutate. simpl.
  rewrite lookup_alter_eq, Ha. simpl. rewrite map_app. simpl.
  rewrite lookup_insert_eq, length_map. f_equal.
  apply map_ext_in. intros o Ho. apply lookup_insert_ne. intros <-.
  apply list_elem_of_In, Hlive in Ho. rewrite fresh_object_unused in Ho. by destruct Ho.
Qed.

(** C10. [getEvents] returns a newly allocated array -- not the history
    array, nor any array that existed before, nor the one a later call
    returns -- holding the events of the history at the time of the call.
    Whatever is done to that array in place leaves the history as it was,
    and events appended afterwards never show up in it. *)
Theorem C10_getEvents_returns_fresh_copy (hist : loc) (h : Heap) :
  store_ok hist h ->
  let h1 := fst (getEvents_copy hist h) in
  let r := snd (getEvents_copy hist h) in
  r <> hist /\
  arrays h !! r = None /\
  read_array h1 r = read_array h hist /\
  read_array h1 hist = read_array h hist /\
  (forall f, read_array (array_mutate r f h1) hist = read_array h hist) /\
  (forall events, read_array (pushes events hist h1) r = read_array h hist) /\
  snd (getEvents_copy hist h1) <> r.
Proof.
  intros (a & Ha & Hlive) h1 r.
  assert (arrays h !! r = None) as Hr by apply fresh_array_unused.
  assert (r <> hist) as Hne by (intros Heq; rewrite Heq, Ha in Hr; discriminate).
  assert (arrays h1 !! r = Some a) as Hr1.
  { subst h1 r. unfold getEvents_copy, array_alloc, elements_of. simpl.
    by rewrite lookup_insert_eq, Ha. }
  assert (arrays h1 !! hist = Some a) as Hh1.
  { subst h1. unfold getEvents_copy, array_alloc. simpl.
    rewrite lookup_insert_ne by done. exact Ha. }
  assert (objects h1 = objects h) as Hobj by reflexivity.
  assert (read_array h1 r = read_array h hist) as Hcopy.
  { unfold read_array, elements_of. by rewrite Hr1, Ha, Hobj. }
  repeat split; try done.
  - unfold read_array, elements_of. by rewrite Hh1, Ha, Hobj.
  - intros f. unfold read_array, elements_of, array_mutate. cbn [arrays objects].
    rewrite lookup_alter_ne by done. by rewrite Hh1, Ha, Hobj.
  - intros events. rewrite <- Hcopy.
    destruct (pushes_keep events hist h1 r Hne) as [Hel Hob].
    unfold read_array. rewrite Hel.
    apply map_ext_in. intros o Ho. apply Hob.
    unfold elements_of in Ho. rewrite Hr1 in Ho. simpl in Ho.
    rewrite Hobj. apply Hlive. by apply list_elem_of_In.
  - intros Heq.
    assert (arrays h1 !! snd (getEvents_copy hist h1) = None) as Hfresh
      by apply fresh_array_unused.
    rewrite Heq, Hr1 in Hfresh. discriminate.
Qed.

(** The copy is shallow: the two arrays hold the same event objects, so a
    change made to an element (not to the array) shows in both. *)
Remark copy_shares_elements hist h :
  elements_of (fst (getEvents_copy hist h)) (snd (getEvents_copy hist h))
  = elements_of h hist.
Proof.
  unfold getEvents_copy, array_alloc, elements_of. simpl. by rewrite lookup_insert_eq.
Qed.
(** For one, rewriting the event object at the head of the returned array
    rewrites the head of the history. *)
Example element_change_reaches_history :
  let h1 := fst (getEvents_copy 0 Scenario.stored_heap) in
  let r := snd (getEvents_copy 0 Scenario.stored_heap) in
  elements_of h1 r = [5] /\
  read_array (object_mutate 5 (fun _ => Scenario.draft_P1) h1) 0 = [Some Scenario.draft_P1].
Proof. split; vm_compute; reflexivity. Qed.
End Copies.

Lemma C10_getEvents_returns_fresh_copy_witness :
  let h := Scenario.stored_heap in
  let h1 := fst (ArrayHeap.getEvents_copy 0 h) in
  let r := snd (ArrayHeap.getEvents_copy 0 h) in
  ArrayHeap.store_ok 0 h /\
  ArrayHeap.read_array (ArrayHeap.array_mutate r (fun _ => []) h1) 0
    = [Some Scenario.stored_M1] /\
  ArrayHeap.read_array (ArrayHeap.pushes [Scenario.draft_P1] 0 h1) r
    = [Some Scenario.stored_M1].
Proof.
  intros h h1 r.
  assert (ArrayHeap.store_ok 0 h) as Hok.
  { exists [5]. split; [reflexivity|].
    intros o Ho. apply list_elem_of_singleton in Ho as ->. by eexists. }
  destruct (C10_getEvents_returns_fresh_copy 0 h Hok) as (_ & _ & _ & _ & Hmut & Hpush & _).
  split; [exact Hok|]. split.
  - exact (Hmut (fun _ => [])).
  - exact (Hpush [Scenario.draft_P1]).
Defined.

(** ** Live folding against replay *)

Lemma fold_projection_snoc selects reducer events event :
  fold_projection selects reducer (events ++ [event]) =
  if selects event
  then reducer (fold_projection selects reducer events) event
  else fold_projection selects reducer events.
Proof.
  unfold fold_projection. rewrite List.filter_app. simpl.
  destruct (selects event); [|by rewrite app_nil_r].
  by rewrite fold_left_app.
Qed.

Section Accumulators.
Variables (event : Event) (s : Server).
Let e := with_sequenceNumber event (length (eventHistory s) + 1).

Lemma append_sync_members_acc :
  members_acc (fst (append_sync event s)) =
  if is_member_event e then members_reducer (members_acc s) e else members_acc s.
Proof.
  unfold append_sync, append_push, persist_begin, set_pending. cbn [fst members_acc].
  fold e. unfold_ops.
  destruct (is_member_event e), (is_plant_event e), (is_message_event e); reflexivity.
Qed.

Lemma append_sync_plants_acc :
  plants_acc (fst (append_sync event s)) =
  if is_plant_event e then plants_reducer (plants_acc s) e else plants_acc s.
Proof.
  unfold append_sync, append_push, persist_begin, set_pending. cbn [fst plants_acc].
  fold e. unfold_ops.
  destruct (is_member_event e), (is_plant_event e), (is_message_event e); reflexivity.
Qed.

Lemma append_sync_messages_acc :
  messages_acc (fst (append_sync event s)) =
  if is_message_event e then messages_reducer (messages_acc s) e else messages_acc s.
Proof.
  unfold append_sync, append_push, persist_begin, set_pending. cbn [fst messages_acc].
  fold e. unfold_ops.
  destruct (is_member_event e), (is_plant_event e), (is_message_event e); reflexivity.
Qed.

Lemma append_sync_members_value :
  members_value (fst (append_sync event s)) =
  if is_member_event e then members_reducer (members_acc s) e else members_value s.
Proof.
  unfold append_sync, append_push, persist_begin, set_pending. cbn [fst members_value].
  fold e. unfold_ops.
  destruct (is_member_event e), (is_plant_event e), (is_message_event e); reflexivity.
Qed.

Lemma append_sync_plants_value :
  plants_value (fst (append_sync event s)) =
  if is_plant_event e then plants_reducer (plants_acc s) e else plants_value s.
Proof.
  unfold append_sync, append_push, persist_begin, set_pending. cbn [fst plants_value].
  fold e. unfold_ops.
  destruct (is_member_event e), (is_plant_event e), (is_message_event e); reflexivity.
Qed.

Lemma append_sync_messages_value :
  messages_value (fst (append_sync event s)) =
  if is_message_event e then messages_reducer (messages_acc s) e else messages_value s.
Proof.
  unfold append_sync, append_push, persist_begin, set_pending. cbn [fst messages_value].
  fold e. unfold_ops.
  destruct (is_member_event e), (is_plant_event e), (is_message_event e); reflexivity.
Qed.

Lemma append_sync_values :
  values_follow_scans s -> values_follow_scans (fst (append_sync event s)).
Proof.
  intros (Hm & Hp & Hg). unfold values_follow_scans.
  rewrite append_sync_members_value, append_sync_plants_value, append_sync_messages_value,
    append_sync_members_acc, append_sync_plants_acc, append_sync_messages_acc.
  fold e. rewrite Hm, Hp, Hg.
  destruct (is_member_event e), (is_plant_event e), (is_message_event e); done.
Qed.
End Accumulators.

Lemma scans_fold_live_step loaded s a :
  scans_fold_live loaded s -> scans_fold_live loaded (step s a).
Proof.
  intros (live & Hh & Hm & Hp & Hg).
  destruct a as [event|i r| |res|id|id|i|i k]; cbn [step].
  - exists (live ++ [with_sequenceNumber event (length (eventHistory s) + 1)])%list.
    rewrite append_sync_eventHistory, append_sync_members_acc, append_sync_plants_acc,
      append_sync_messages_acc.
    unfold fold_members, fold_plants, fold_messages. rewrite !fold_projection_snoc.
    rewrite Hh at 1. rewrite <- app_assoc. rewrite Hm, Hp, Hg. done.
  - exists live. destruct (persist_resume_frame i r s) as (-> & -> & -> & -> & _). done.
  - exists live.
    by rewrite rebuild_eventHistory, rebuild_members_acc, rebuild_plants_acc,
      rebuild_messages_acc.
  - exists live. unfold events_route. case_match; done.
  - by exists live.
  - by exists live.
  - exists live. destruct (writeFile_open_frame i s) as (-> & _ & -> & -> & -> & _). done.
  - exists live. destruct (writeFile_write_frame i k s) as (-> & _ & -> & -> & -> & _). done.
Qed.

(** The accumulators of the three pipelines start empty when the process
    starts and never see the events [initialize] loaded: at any later time
    they are the in-order folds of the events appended since the start. *)
Lemma scans_fold_live_run loaded acts s :
  scans_fold_live loaded s -> scans_fold_live loaded (run acts s).
Proof.
  revert s. induction acts as [|a acts IH]; intros s Hs; [done|].
  simpl. apply IH. by apply scans_fold_live_step.
Qed.

Lemma scans_fold_live_boot_on (text : option (list Token)) (acts : list Action) :
  scans_fold_live (default [] (read_events text)) (run acts (boot_on text)).
Proof.
  apply scans_fold_live_run. exists []. unfold boot_on, start.
  rewrite rebuild_eventHistory, rebuild_members_acc, rebuild_plants_acc,
    rebuild_messages_acc, app_nil_r.
  unfold initialize. cbn [disk new_PlantExchangeServer].
  destruct (read_events text); done.
Qed.

Lemma scans_fold_live_events (file : option (list Event)) (acts : list Action) :
  scans_fold_live (default [] file) (run acts (boot file)).
Proof.
  pose proof (scans_fold_live_boot_on (option_map JSON_stringify file) acts) as H.
  by rewrite read_events_file in H.
Qed.

Lemma values_follow_scans_step s a :
  is_rebuild a = false -> values_follow_scans s -> values_follow_scans (step s a).
Proof.
  intros Ha Hs. unfold values_follow_scans in *.
  destruct a as [event|i r| |res|id|id|i|i k]; cbn [step]; try done.
  - by apply append_sync_values.
  - destruct (persist_resume_frame i r s) as (_ & -> & -> & -> & -> & -> & -> & _). done.
  - unfold events_route. case_match; done.
  - destruct (writeFile_open_frame i s) as (_ & _ & -> & -> & -> & -> & -> & -> & _). done.
  - destruct (writeFile_write_frame i k s) as (_ & _ & -> & -> & -> & -> & -> & -> & _). done.
Qed.

Lemma values_follow_scans_run acts s :
  forallb (fun a => negb (is_rebuild a)) acts = true ->
  values_follow_scans s -> values_follow_scans (run acts s).
Proof.
  revert s. induction acts as [|a acts IH]; intros s Hacts Hs; [done|].
  simpl in Hacts. apply andb_true_iff in Hacts as [Ha Hacts].
  simpl. apply IH; [done|]. apply values_follow_scans_step; [|done].
  by destruct (is_rebuild a).
Qed.

(** On a server started without a stored log and never rebuilt by hand,
    every projection is the in-order fold of its reducer over the whole
    log. *)
Lemma fresh_run_values_are_folds (acts : list Action) :
  forallb (fun a => negb (is_rebuild a)) acts = true ->
  let s := run acts (boot None) in
  members_value s = fold_members (eventHistory s) /\
  plants_value s = fold_plants (eventHistory s) /\
  messages_value s = fold_messages (eventHistory s).
Proof.
  intros Hacts s. subst s.
  destruct (scans_fold_live_events None acts) as (live & Hh & Hm & Hp & Hg).
  assert (values_follow_scans (boot None)) as H0 by (by vm_compute).
  destruct (values_follow_scans_run acts (boot None) Hacts H0) as (Vm & Vp & Vg).
  change (default [] None ++ live) with live in Hh.
  by rewrite Hh, Vm, Vp, Vg.
Qed.

(** C1, on the code.  A server restarted on a log that holds the
    registration of M1 shows M1 after [start]; when M2 then registers, the
    members projection shows M2 alone, although the in-order fold of the
    log, and [rebuildFromHistory] on that same log, both give M1 and M2. *)
Theorem C1_restart_then_append_drops_history :
  let s0 := boot Scenario.old_file in
  let s1 := fst (registerMember (Scenario.fresh "M2" "E5" "t5") IoOk
                   (Some Scenario.bob) s0) in
  map sequenceNumber (eventHistory s1) = [Some 1; Some 2] /\
  state_members (getCurrentState s0) = [Scenario.member_M1] /\
  state_members (getCurrentState s1) = [Scenario.member_M2] /\
  Map_values (fold_members (eventHistory s1)) = [Scenario.member_M1; Scenario.member_M2] /\
  state_members (getCurrentState (fst (rebuildFromHistory s1)))
    = [Scenario.member_M1; Scenario.member_M2].
Proof. split; [|split; [|split; [|split]]]; vm_compute; reflexivity. Qed.

(** Replay also disagrees with the live fold on a fresh server when a
    plant id is offered again after its removal: the pipeline shows the
    plant, [rebuildFromHistory] omits every id that was ever removed. *)
Example rebuild_ignores_event_order :
  let s := run Scenario.offered_again (boot None) in
  state_plants (getCurrentState s) = [Scenario.plant_P1] /\
  Map_values (fold_plants (eventHistory s)) = [Scenario.plant_P1] /\
  state_plants (getCurrentState (fst (rebuildFromHistory s))) = [].
Proof. split; [|split]; vm_compute; reflexivity. Qed.

(** The late subscriber of the specification: five events, then a client. *)
Example late_subscriber_sees_five_events :
  let s := run Scenario.five_events (boot None) in
  length (eventHistory s) = 5 /\
  map received (sseClients (fst (events_route (Scenario.browser 1) s))) =
    [[initial_state [Scenario.member_M1; Scenario.member_M2] [Scenario.plant_P2] []]].
Proof. split; vm_compute; reflexivity. Qed.

(** ** Where replay and live folding agree *)

Section AssocMore.
Context {K V : Type} `{EqDecision K}.
Implicit Types (k : K) (v : V) (m : list (K * V)).

Lemma keys_assoc_set k v m x :
  x ∈ keys (assoc_set k v m) -> x = k \/ x ∈ keys m.
Proof.
  destruct (decide (k ∈ keys m)) as [Hin|Hout].
  - rewrite keys_assoc_set_in by done. auto.
  - rewrite assoc_set_fresh by done. unfold keys. rewrite map_app. simpl.
    intros Hx. apply elem_of_app in Hx as [Hx|Hx]; [auto|].
    apply list_elem_of_singleton in Hx. auto.
Qed.

Lemma keys_assoc_set_iff k v m x :
  x ∈ keys (assoc_set k v m) <-> x = k \/ x ∈ keys m.
Proof.
  split; [apply keys_assoc_set|].
  destruct (decide (k ∈ keys m)) as [Hin|Hout].
  - rewrite keys_assoc_set_in by done. by intros [->|Hx].
  - rewrite assoc_set_fresh by done. unfold keys. rewrite map_app. simpl.
    intros [->|Hx]; apply elem_of_app; [right; by left|by left].
Qed.

Lemma assoc_of_pairs_snoc (pairs : list (K * V)) k v :
  assoc_of_pairs (pairs ++ [(k, v)]) = assoc_set k v (assoc_of_pairs pairs).
Proof. unfold assoc_of_pairs. by rewrite fold_left_app. Qed.

Lemma assoc_of_pairs_NoDup (pairs : list (K * V)) : NoDup (keys (assoc_of_pairs pairs)).
Proof.
  induction pairs as [|[k v] pairs IH] using rev_ind; [constructor|].
  rewrite assoc_of_pairs_snoc. by apply assoc_set_NoDup.
Qed.

Lemma assoc_of_pairs_keys (pairs : list (K * V)) x :
  x ∈ keys (assoc_of_pairs pairs) -> x ∈ keys pairs.
Proof.
  induction pairs as [|[k v] pairs IH] using rev_ind; [done|].
  rewrite assoc_of_pairs_snoc. intros Hx. unfold keys. rewrite map_app.
  apply elem_of_app. apply keys_assoc_set in Hx as [->|Hx].
  - right. simpl. by apply list_elem_of_singleton.
  - left. by apply IH.
Qed.

(** Dropping the keys of [l] commutes with writing a key outside [l] ... *)
Lemma filter_assoc_set (l : list K) k v m :
  k ∉ l ->
  filter (fun kv => fst kv ∉ l) (assoc_set k v m)
  = assoc_set k v (filter (fun kv => fst kv ∉ l) m).
Proof.
  intros Hk. induction m as [|[k' v'] m IH]; simpl.
  - by rewrite filter_cons_True.
  - destruct (decide (k' = k)) as [->|Hne].
    + rewrite !filter_cons_True by done. simpl.
      destruct (decide (k = k)); [done|congruence].
    + destruct (decide (k' ∈ l)) as [Hin|Hout].
      * rewrite !filter_cons_False by (simpl; tauto). exact IH.
      * rewrite !filter_cons_True by done. simpl.
        destruct (decide (k' = k)); [congruence|]. by rewrite IH.
Qed.

(** ... and dropping one more key is deleting it. *)
Lemma filter_assoc_delete (l : list K) k m :
  filter (fun kv => fst kv ∉ l ++ [k]) m
  = assoc_delete k (filter (fun kv => fst kv ∉ l) m).
Proof.
  induction m as [|[k' v'] m IH]; simpl; [done|].
  destruct (decide (k' ∈ l)) as [Hin|Hout].
  - rewrite (filter_cons_False (fun kv => fst kv ∉ l)) by (simpl; tauto).
    rewrite filter_cons_False; [exact IH|].
    simpl. intros Hn. apply Hn. apply elem_of_app. by left.
  - rewrite (filter_cons_True (fun kv => fst kv ∉ l)) by done. simpl.
    destruct (decide (k' = k)) as [->|Hne].
    + rewrite filter_cons_False; [exact IH|].
      simpl. intros Hn. apply Hn. apply elem_of_app. right.
      by apply list_elem_of_singleton.
    + rewrite filter_cons_True; [by rewrite IH|].
      simpl. intros Hn. apply elem_of_app in Hn as [Hn|Hn]; [done|].
      by apply list_elem_of_singleton in Hn.
Qed.

Lemma keys_filter_NoDup (q : K * V -> bool) m :
  NoDup (keys m) -> NoDup (keys (List.filter q m)).
Proof.
  induction m as [|[k v] m IH]; simpl; intros Hnd; [constructor|].
  apply NoDup_cons in Hnd as [Hk Hnd].
  destruct (q (k, v)); [|by apply IH].
  simpl. apply NoDup_cons. split; [|by apply IH].
  intros Hin. apply Hk. unfold keys in *.
  apply list_elem_of_fmap in Hin as ([k1 v1] & -> & Hin).
  apply list_elem_of_In, filter_In in Hin as [Hin _].
  apply list_elem_of_fmap. exists (k1, v1). split; [done|]. by apply list_elem_of_In.
Qed.
End AssocMore.

#[global] Instance Str_inj : Inj (=) (=) Str.
Proof. intros x y Hxy. by injection Hxy. Qed.

Section ObjectsAndMaps.
Context {V : Type}.
Implicit Types (o : JsObject V) (pairs : list (JsVal * V)).

Lemma R_fromPairs_snoc pairs k v :
  R_fromPairs (pairs ++ [(k, v)]) = obj_set (ToPropertyKey k) v (R_fromPairs pairs).
Proof. unfold R_fromPairs. by rewrite fold_left_app. Qed.

Lemma obj_set_plain (k : string) v o :
  k <> "__proto__" -> obj_set k v o = assoc_set k v o.
Proof. intros Hk. unfold obj_set. by rewrite (proj2 (String.eqb_neq _ _) Hk). Qed.

Lemma obj_set_proto v o : obj_set "__proto__" v o = o.
Proof. reflexivity. Qed.

Lemma obj_set_keys (k : string) v o x :
  x ∈ keys (obj_set k v o) <-> (x = k /\ k <> "__proto__") \/ x ∈ keys o.
Proof.
  unfold obj_set. destruct (String.eqb_spec k "__proto__") as [->|Hk].
  - split; [auto|]. by intros [[_ ?]|?].
  - rewrite keys_assoc_set_iff. split; [intros [->|?]; auto|intros [[-> _]|?]; auto].
Qed.

Lemma obj_set_NoDup (k : string) v o : NoDup (keys o) -> NoDup (keys (obj_set k v o)).
Proof. unfold obj_set. destruct (String.eqb k "__proto__"); [done|apply assoc_set_NoDup]. Qed.

Lemma R_fromPairs_NoDup pairs : NoDup (keys (R_fromPairs pairs)).
Proof.
  induction pairs as [|[k v] pairs IH] using rev_ind; [constructor|].
  rewrite R_fromPairs_snoc. by apply obj_set_NoDup.
Qed.

(** No pair becomes a property called [__proto__]. *)
Lemma R_fromPairs_keys pairs x :
  x ∈ keys (R_fromPairs pairs) ->
  x <> "__proto__" /\ exists k, k ∈ keys pairs /\ x = ToPropertyKey k.
Proof.
  induction pairs as [|[k v] pairs IH] using rev_ind.
  - intros Hx. by apply elem_of_nil in Hx.
  - rewrite R_fromPairs_snoc. intros Hx.
    apply obj_set_keys in Hx as [[-> Hk]|Hx].
    + split; [done|]. exists k. split; [|done]. unfold keys. rewrite map_app.
      apply elem_of_app. right. by apply list_elem_of_singleton.
    + destruct (IH Hx) as (Hne & k0 & Hk0 & ->). split; [done|]. exists k0. split; [|done].
      unfold keys. rewrite map_app. apply elem_of_app. by left.
Qed.

Lemma string_keys_assoc_set (s : string) v o :
  map (fun kv => (Str (fst kv), snd kv)) (assoc_set s v o)
  = assoc_set (Str s) v (map (fun kv => (Str (fst kv), snd kv)) o).
Proof.
  induction o as [|[s' v'] o IH]; simpl; [done|].
  destruct (decide (s' = s)) as [->|Hne].
  - destruct (decide (Str s = Str s)); [done|congruence].
  - destruct (decide (Str s' = Str s)); [congruence|]. simpl. by rewrite IH.
Qed.

Lemma uuid_like_string k : uuid_like k = true -> is_string k = true.
Proof. by destruct k. Qed.

Lemma uuid_like_not_index k :
  uuid_like k = true -> array_index (ToPropertyKey k) = None.
Proof.
  destruct k as [| |s]; simpl; try discriminate.
  destruct (array_index s); [discriminate|done].
Qed.

Lemma uuid_like_not_proto k : uuid_like k = true -> ToPropertyKey k <> "__proto__".
Proof.
  destruct k as [| |s]; simpl; try discriminate. intros H.
  apply andb_true_iff in H as [_ H]. apply negb_true_iff in H. by apply String.eqb_neq.
Qed.

(** With ids as [uuidv4] makes them, the object [R.fromPairs] builds has
    the entries a [Map] filled pair by pair would have. *)
Lemma R_fromPairs_as_map pairs :
  Forall (fun kv => uuid_like (fst kv) = true) pairs ->
  map (fun kv => (Str (fst kv), snd kv)) (R_fromPairs pairs) = assoc_of_pairs pairs.
Proof.
  induction pairs as [|[k v] pairs IH] using rev_ind; intros Hall; [done|].
  apply Forall_app in Hall as [Hall Hk]. apply Forall_inv in Hk. simpl in Hk.
  pose proof (uuid_like_not_proto k Hk) as Hp.
  destruct k as [| |s]; try discriminate.
  rewrite R_fromPairs_snoc, assoc_of_pairs_snoc. simpl in *.
  rewrite obj_set_plain by done.
  by rewrite string_keys_assoc_set, IH.
Qed.

Lemma index_entries_none o :
  Forall (fun kv => array_index (fst kv) = None) o -> index_entries o = [].
Proof.
  induction 1 as [|kv o Hkv _ IH]; simpl; [done|]. by rewrite Hkv.
Qed.

Lemma string_entries_all o :
  Forall (fun kv => array_index (fst kv) = None) o -> string_entries o = o.
Proof.
  unfold string_entries. induction 1 as [|kv o Hkv _ IH]; simpl; [done|].
  rewrite Hkv. by rewrite IH.
Qed.

(** An object without array-index keys is enumerated in creation order. *)
Lemma Object_entries_creation_order o :
  Forall (fun kv => array_index (fst kv) = None) o -> Object_entries o = o.
Proof.
  intros Ho. unfold Object_entries.
  by rewrite index_entries_none, string_entries_all.
Qed.

Lemma Map_of_object_entries o :
  NoDup (keys o) ->
  Forall (fun kv => array_index (fst kv) = None) o ->
  Map_of_object o = map (fun kv => (Str (fst kv), snd kv)) o.
Proof.
  intros Hnd Ho. unfold Map_of_object. rewrite Object_entries_creation_order by done.
  apply Map_new_copy. unfold Map_wf, keys. rewrite map_map. simpl.
  rewrite <- (map_map fst Str). apply (NoDup_fmap_2 Str). exact Hnd.
Qed.

Lemma R_fromPairs_no_index pairs :
  Forall (fun kv => uuid_like (fst kv) = true) pairs ->
  Forall (fun kv => array_index (fst kv) = None) (R_fromPairs pairs).
Proof.
  intros Hall. apply Forall_forall. intros [s v] Hin.
  assert (s ∈ keys (R_fromPairs pairs)) as Hs.
  { apply list_elem_of_fmap. by exists (s, v). }
  apply R_fromPairs_keys in Hs as (_ & k & Hk & ->).
  apply list_elem_of_fmap in Hk as ([k' v'] & -> & Hk).
  eapply Forall_forall in Hall; [|exact Hk]. by apply uuid_like_not_index.
Qed.

(** Replay of a projection that only ever sets keys. *)
Lemma Map_of_fromPairs pairs :
  Forall (fun kv => uuid_like (fst kv) = true) pairs ->
  Map_of_object (R_fromPairs pairs) = assoc_of_pairs pairs.
Proof.
  intros Hall.
  rewrite Map_of_object_entries; [|apply R_fromPairs_NoDup|by apply R_fromPairs_no_index].
  by apply R_fromPairs_as_map.
Qed.
End ObjectsAndMaps.

Lemma fold_setting_reducer (events : list Event) (m : JsMap Payload) :
  Map_wf m ->
  fold_left members_reducer events m
  = fold_left (fun a kv => assoc_set (fst kv) (snd kv) a) (entity_pairs events) m.
Proof.
  revert m. induction events as [|e events IH]; intros m Hm; simpl; [done|].
  rewrite members_reducer_set by done. apply IH. by apply assoc_set_NoDup.
Qed.

Lemma fold_projection_wf selects reducer events :
  (forall m e, Map_wf m -> Map_wf (reducer m e)) ->
  Map_wf (fold_projection selects reducer events).
Proof.
  intros Hred. induction events as [|e events IH] using rev_ind; [constructor|].
  rewrite fold_projection_snoc. destruct (selects e); [by apply Hred|done].
Qed.

Lemma selected_pairs_uuid (selects : Event -> bool) (events : list Event) :
  (forall e, selects e = true -> uuid_keyed e = true ->
             uuid_like (payload_id (payload e)) = true) ->
  forallb uuid_keyed events = true ->
  Forall (fun kv => uuid_like (fst kv) = true) (entity_pairs (List.filter selects events)).
Proof.
  intros Hsel Hall. apply Forall_forall. intros kv Hkv.
  apply list_elem_of_fmap in Hkv as (e & -> & He).
  apply list_elem_of_In, filter_In in He as [He Hs].
  simpl. apply Hsel; [done|]. eapply forallb_forall in Hall; [exact Hall|done].
Qed.

Lemma uuid_keyed_member e :
  is_member_event e = true -> uuid_keyed e = true ->
  uuid_like (payload_id (payload e)) = true.
Proof.
  unfold uuid_keyed. intros ->. simpl. intros H. by apply andb_true_iff in H as [H _].
Qed.

Lemma uuid_keyed_offer e :
  is_offer_event e = true -> uuid_keyed e = true ->
  uuid_like (payload_id (payload e)) = true.
Proof.
  unfold uuid_keyed. intros ->. rewrite orb_true_r. simpl.
  intros H. by apply andb_true_iff in H as [H _].
Qed.

Lemma uuid_keyed_message e :
  is_message_event e = true -> uuid_keyed e = true ->
  uuid_like (payload_id (payload e)) = true.
Proof.
  unfold uuid_keyed. intros ->. rewrite orb_true_r.
  intros H. by apply andb_true_iff in H as [H _].
Qed.

Lemma rebuild_members_is_fold events :
  forallb uuid_keyed events = true -> rebuild_members events = fold_members events.
Proof.
  intros Hall. unfold rebuild_members, fold_members, fold_projection.
  rewrite Map_of_fromPairs by (by apply selected_pairs_uuid; [apply uuid_keyed_member|]).
  by rewrite fold_setting_reducer by apply Map_wf_empty.
Qed.

Lemma rebuild_messages_is_fold events :
  forallb uuid_keyed events = true -> rebuild_messages events = fold_messages events.
Proof.
  intros Hall. unfold rebuild_messages, fold_messages, fold_projection.
  rewrite Map_of_fromPairs by (by apply selected_pairs_uuid; [apply uuid_keyed_message|]).
  change messages_reducer with members_reducer.
  by rewrite fold_setting_reducer by apply Map_wf_empty.
Qed.

(** *** Plants *)

Lemma offer_is_no_removal e : is_offer_event e = true -> is_removal_event e = false.
Proof.
  unfold is_offer_event, is_removal_event, existsb. rewrite orb_false_r.
  intros H. apply orb_true_iff in H as [H|H]; apply String.eqb_eq in H; by rewrite H.
Qed.

Lemma is_plant_event_kinds e : is_plant_event e = is_offer_event e || is_removal_event e.
Proof.
  unfold is_plant_event, is_offer_event, is_removal_event, existsb.
  by rewrite !orb_false_r, orb_assoc.
Qed.

Lemma plants_reducer_offer plants e :
  Map_wf plants -> is_offer_event e = true ->
  plants_reducer plants e = Map_set (payload_id (payload e)) (payload e) plants.
Proof.
  intros Hwf He. unfold plants_reducer. rewrite Map_new_copy by done.
  unfold is_offer_event, existsb in He. rewrite orb_false_r in He. by rewrite He.
Qed.

Lemma removed_ids_snoc events e :
  removed_ids (events ++ [e]) =
  removed_ids events ++ (if is_removal_event e then [payload_plantId (payload e)] else []).
Proof.
  unfold removed_ids. rewrite List.filter_app, map_app. simpl.
  by destruct (is_removal_event e).
Qed.

Lemma removed_ids_rev events k : k ∈ removed_ids (rev events) <-> k ∈ removed_ids events.
Proof.
  unfold removed_ids. rewrite filter_rev, map_rev, !list_elem_of_In.
  symmetry. apply in_rev.
Qed.

Lemma never_reoffered_snoc events e :
  never_reoffered (events ++ [e]) = true ->
  never_reoffered events = true /\
  (is_offer_event e = true -> payload_id (payload e) ∉ removed_ids events).
Proof.
  unfold never_reoffered. rewrite rev_app_distr. simpl.
  intros H. apply andb_true_iff in H as [He Hrest]. split; [done|].
  intros Ho. rewrite Ho in He. apply negb_true_iff, bool_decide_eq_false in He.
  by rewrite removed_ids_rev in He.
Qed.

Lemma offered_minus_removed_snoc events e :
  offered_minus_removed (events ++ [e]) =
  if is_offer_event e
  then filter (fun kv => fst kv ∉ removed_ids events)
         (assoc_set (payload_id (payload e)) (payload e)
            (assoc_of_pairs (entity_pairs (List.filter is_offer_event events))))
  else if is_removal_event e
  then assoc_delete (payload_plantId (payload e)) (offered_minus_removed events)
  else offered_minus_removed events.
Proof.
  unfold offered_minus_removed. rewrite removed_ids_snoc, List.filter_app. simpl.
  destruct (is_offer_event e) eqn:Ho.
  - rewrite (offer_is_no_removal e Ho), app_nil_r.
    unfold entity_pairs. rewrite map_app. simpl. by rewrite assoc_of_pairs_snoc.
  - rewrite app_nil_r. destruct (is_removal_event e).
    + apply filter_assoc_delete.
    + by rewrite app_nil_r.
Qed.

(** The live fold of the plants, as long as no id comes back after its
    removal. *)
Lemma fold_plants_offered_minus_removed events :
  never_reoffered events = true -> fold_plants events = offered_minus_removed events.
Proof.
  induction events as [|e events IH] using rev_ind; intros Hnever; [done|].
  apply never_reoffered_snoc in Hnever as [Hnever Hfresh].
  specialize (IH Hnever).
  assert (Map_wf (fold_plants events)) as Hwf.
  { apply fold_projection_wf. intros m e'. apply plants_reducer_wf. }
  unfold fold_plants in *. rewrite fold_projection_snoc, offered_minus_removed_snoc.
  rewrite is_plant_event_kinds. destruct (is_offer_event e) eqn:Ho; simpl.
  - rewrite plants_reducer_offer by done. rewrite IH. unfold offered_minus_removed, Map_set.
    symmetry. apply filter_assoc_set. by apply Hfresh.
  - destruct (is_removal_event e) eqn:Hr; [|done].
    rewrite plants_reducer_removed; [by rewrite IH|done|].
    by apply String.eqb_eq.
Qed.

Lemma string_name_in (names : list JsVal) (s : string) :
  Forall (fun k => is_string k = true) names ->
  s ∈ map ToPropertyKey names <-> Str s ∈ names.
Proof.
  intros Hall. split.
  - intros Hs. apply list_elem_of_fmap in Hs as (k & -> & Hk).
    eapply Forall_forall in Hall; [|exact Hk]. by destruct k.
  - intros Hs. apply list_elem_of_fmap. by exists (Str s).
Qed.

Lemma omit_index_snoc names name :
  omit_index (names ++ [name]) = obj_set (ToPropertyKey name) 1 (omit_index names).
Proof. unfold omit_index. by rewrite fold_left_app. Qed.

(** The names [R.omit] records: all of them but [__proto__]. *)
Lemma omit_index_keys (names : list JsVal) (s : string) :
  s ∈ keys (omit_index names) <-> s <> "__proto__" /\ s ∈ map ToPropertyKey names.
Proof.
  induction names as [|name names IH] using rev_ind.
  - split; [intros H; by apply elem_of_nil in H|intros [_ H]; by apply elem_of_nil in H].
  - rewrite omit_index_snoc, obj_set_keys, IH, map_app, elem_of_app. simpl.
    rewrite list_elem_of_singleton. split.
    + intros [[-> Hk]|[Hne Hs]]; auto.
    + intros [Hne [Hs| ->]]; auto.
Qed.

(** [R.omit] throws exactly when one of the names is [hasOwnProperty] and
    the object has a property to visit. *)
Lemma R_omit_throws {V} (names : list JsVal) (o : JsObject V) :
  (exists error, R_omit names o = Threw error) <->
  Str "hasOwnProperty" ∈ map (fun k => Str (ToPropertyKey k)) names /\ o <> [].
Proof.
  assert ("hasOwnProperty" ∈ keys (omit_index names) <->
          Str "hasOwnProperty" ∈ map (fun k => Str (ToPropertyKey k)) names) as Hname.
  { rewrite omit_index_keys, <- (map_map ToPropertyKey Str).
    rewrite (list_elem_of_fmap_inj Str). split; [by intros [_ ?]|done]. }
  assert (Object_entries o = [] <-> o = []) as Hempty.
  { split; [|by intros ->]. intros H. apply (f_equal length) in H.
    unfold Object_entries, string_entries in H. rewrite length_app, length_map in H.
    destruct o as [|kv o]; [done|]. exfalso. simpl in H.
    assert (forall n (l : list (N * (string * V))), length (insert_by_index n kv l) <> 0)
      as Hins.
    { intros n l. destruct l as [|[n' kv'] l]; simpl; [lia|].
      destruct (n <? n')%N; simpl; lia. }
    destruct (array_index (fst kv)) as [n|]; simpl in H; [|lia].
    specialize (Hins n (index_entries o)). lia. }
  unfold R_omit. destruct (Object_entries o) as [|kv props] eqn:Ho.
  - split; [by intros [error H]|]. intros [_ Hne]. exfalso. by apply Hne, Hempty.
  - case_bool_decide as Hin.
    + split; [|by eexists]. intros _. split; [by apply Hname|].
      intros ->. discriminate.
    + split; [by intros [error H]|]. intros [Hn _]. by apply Hname in Hn.
Qed.

Lemma omit_as_filter {V} (names : list JsVal) (o : JsObject V) :
  Forall (fun k => is_string k = true) names ->
  Forall (fun kv => fst kv <> "__proto__") o ->
  map (fun kv => (Str (fst kv), snd kv))
    (List.filter (fun kv => negb (bool_decide (fst kv ∈ keys (omit_index names)))
                            && negb (String.eqb (fst kv) "__proto__")) o)
  = filter (fun kv => fst kv ∉ names) (map (fun kv => (Str (fst kv), snd kv)) o).
Proof.
  intros Hall Ho. induction o as [|[s v] o IH]; simpl; [done|].
  apply Forall_cons in Ho as [Hs Ho]. simpl in Hs. specialize (IH Ho).
  rewrite (proj2 (String.eqb_neq _ _) Hs), andb_true_r.
  destruct (decide (Str s ∈ names)) as [Hin|Hout].
  - rewrite bool_decide_eq_true_2.
    + simpl. rewrite filter_cons_False by (simpl; tauto). exact IH.
    + apply omit_index_keys. split; [done|]. by apply string_name_in.
  - rewrite bool_decide_eq_false_2.
    + simpl. rewrite filter_cons_True by done. by rewrite IH.
    + rewrite omit_index_keys, string_name_in by done. tauto.
Qed.

Lemma removed_ids_omittable events :
  forallb uuid_keyed events = true ->
  Forall (fun k => omittable k = true) (removed_ids events).
Proof.
  intros Hall. apply Forall_forall. intros k Hk.
  apply list_elem_of_fmap in Hk as (e & -> & He).
  apply list_elem_of_In, filter_In in He as [He Hr].
  eapply forallb_forall in Hall; [|exact He].
  unfold uuid_keyed in Hall. rewrite Hr in Hall.
  by apply andb_true_iff in Hall as [_ Hall].
Qed.

Lemma removed_ids_strings events :
  forallb uuid_keyed events = true ->
  Forall (fun k => is_string k = true) (removed_ids events).
Proof.
  intros Hall. eapply Forall_impl; [by apply removed_ids_omittable|].
  intros k Hk. by apply andb_true_iff in Hk as [Hk _].
Qed.

Lemma omittable_never_throws {V} (names : list JsVal) (o : JsObject V) :
  Forall (fun k => omittable k = true) names ->
  exists kept, R_omit names o = Returned kept.
Proof.
  intros Hall. destruct (R_omit names o) as [kept|error] eqn:Ho; [by eexists|].
  exfalso. destruct (proj1 (R_omit_throws names o)) as [Hin _]; [by eexists|].
  apply list_elem_of_fmap in Hin as (k & Hk & Hin).
  eapply Forall_forall in Hall; [|exact Hin].
  apply andb_true_iff in Hall as [Hs Hne]. apply negb_true_iff, bool_decide_eq_false in Hne.
  destruct k as [| |s]; try discriminate. simpl in Hk. congruence.
Qed.

(** What [rebuildFromHistory] computes for the plants. *)
Lemma rebuild_plants_offered_minus_removed events :
  forallb uuid_keyed events = true ->
  rebuild_plants events = Returned (offered_minus_removed events).
Proof.
  intros Hall. unfold rebuild_plants, offered_minus_removed.
  fold (removed_ids events).
  set (pairs := entity_pairs (List.filter is_offer_event events)).
  assert (Forall (fun kv => uuid_like (fst kv) = true) pairs) as Hpairs.
  { by apply selected_pairs_uuid; [apply uuid_keyed_offer|]. }
  pose proof (R_fromPairs_no_index pairs Hpairs) as Hidx.
  assert (Forall (fun kv : string * Payload => fst kv <> "__proto__") (R_fromPairs pairs))
    as Hproto.
  { apply Forall_forall. intros [s v] Hin.
    assert (s ∈ keys (R_fromPairs pairs)) as Hs.
    { apply list_elem_of_fmap. by exists (s, v). }
    by apply R_fromPairs_keys in Hs as [Hs _]. }
  destruct (omittable_never_throws (removed_ids events) (R_fromPairs pairs))
    as [kept Hkept]; [by apply removed_ids_omittable|].
  rewrite Hkept. f_equal.
  assert (kept = List.filter
            (fun kv => negb (bool_decide (fst kv ∈ keys (omit_index (removed_ids events))))
                       && negb (String.eqb (fst kv) "__proto__")) (R_fromPairs pairs))
    as ->.
  { unfold R_omit in Hkept. rewrite Object_entries_creation_order in Hkept by done.
    destruct (R_fromPairs pairs) as [|kv o]; [by injection Hkept as <-|].
    case_bool_decide; [discriminate|]. by injection Hkept as <-. }
  rewrite Map_of_object_entries.
  - rewrite omit_as_filter; [|by apply removed_ids_strings|done].
    by rewrite R_fromPairs_as_map.
  - apply keys_filter_NoDup, R_fromPairs_NoDup.
  - apply Forall_forall. intros kv Hkv.
    apply list_elem_of_In, filter_In in Hkv as [Hkv _].
    eapply Forall_forall in Hidx; [exact Hidx|]. by apply list_elem_of_In.
Qed.

(** On a log whose entity ids are uuid-like strings and in which no plant
    id is offered again after its removal, replay computes for each
    projection the in-order fold of its reducer. *)
Lemma replay_agrees_with_folds (events : list Event) :
  forallb uuid_keyed events = true ->
  never_reoffered events = true ->
  rebuild_members events = fold_members events /\
  rebuild_plants events = Returned (fold_plants events) /\
  rebuild_messages events = fold_messages events.
Proof.
  intros Hkeys Hnever. split; [by apply rebuild_members_is_fold|]. split.
  - rewrite rebuild_plants_offered_minus_removed by done.
    by rewrite fold_plants_offered_minus_removed.
  - by apply rebuild_messages_is_fold.
Qed.

Lemma run_snoc acts a s : run (acts ++ [a]) s = step (run acts s) a.
Proof. unfold run. by rewrite fold_left_app. Qed.

Lemma step_eventHistory_grows s a :
  exists more, eventHistory (step s a) = eventHistory s ++ more.
Proof.
  destruct a as [event|i r| |res|id|id|i|i k]; cbn [step].
  - eexists. apply append_sync_eventHistory.
  - exists []. by rewrite persist_resume_eventHistory, app_nil_r.
  - exists []. by rewrite rebuild_eventHistory, app_nil_r.
  - exists []. by rewrite events_route_eventHistory, app_nil_r.
  - exists []. by rewrite app_nil_r.
  - exists []. by rewrite app_nil_r.
  - exists []. by rewrite writeFile_open_eventHistory, app_nil_r.
  - exists []. by rewrite writeFile_write_eventHistory, app_nil_r.
Qed.

Lemma uuid_keyed_prefix (events more : list Event) :
  forallb uuid_keyed (events ++ more) = true -> forallb uuid_keyed events = true.
Proof. rewrite forallb_app. intros H. by apply andb_true_iff in H as [H _]. Qed.

Lemma never_reoffered_prefix (events more : list Event) :
  never_reoffered (events ++ more) = true -> never_reoffered events = true.
Proof.
  induction more as [|e more IH] using rev_ind.
  - by rewrite app_nil_r.
  - rewrite app_assoc. intros H. apply never_reoffered_snoc in H as [H _]. by apply IH.
Qed.

(** Replay determinism where it holds.  On a server started without a
    stored log, whatever the interleaving of appends, rebuilds, settling
    writes and clients: if the ids in the log are uuid-like strings and no
    plant id comes back after its removal, every projection is the in-order
    fold of its reducer over the whole log. *)
Lemma fresh_run_values_are_folds_despite_rebuilds (acts : list Action) :
  let s := run acts (boot None) in
  forallb uuid_keyed (eventHistory s) = true ->
  never_reoffered (eventHistory s) = true ->
  members_value s = fold_members (eventHistory s) /\
  plants_value s = fold_plants (eventHistory s) /\
  messages_value s = fold_messages (eventHistory s).
Proof.
  induction acts as [|a acts IH] using rev_ind.
  - intros s _ _. by vm_compute.
  - rewrite run_snoc. set (s := run acts (boot None)) in *. intros s' Hkeys Hnever.
    destruct (step_eventHistory_grows s a) as (more & Hmore). fold s' in Hmore.
    rewrite Hmore in Hkeys, Hnever.
    pose proof (uuid_keyed_prefix _ _ Hkeys) as Hkeys0.
    pose proof (never_reoffered_prefix _ _ Hnever) as Hnever0.
    destruct (IH Hkeys0 Hnever0) as (Vm & Vp & Vg).
    destruct (scans_fold_live_events None acts) as (live & Hh & Am & Ap & Ag).
    fold s in Hh, Am, Ap, Ag. change (default [] None ++ live) with live in Hh.
    rewrite <- Hh in Am, Ap, Ag. clear Hmore Hkeys Hnever.
    subst s'. destruct a as [event|i r| |res|id|id|i|i k]; cbn [step].
    + rewrite append_sync_eventHistory, append_sync_members_value,
        append_sync_plants_value, append_sync_messages_value.
      unfold fold_members, fold_plants, fold_messages. rewrite !fold_projection_snoc.
      fold fold_members fold_plants fold_messages.
      by rewrite Am, Ap, Ag, Vm, Vp, Vg.
    + destruct (persist_resume_frame i r s) as (-> & _ & _ & _ & -> & -> & -> & _). done.
    + destruct (replay_agrees_with_folds (eventHistory s) Hkeys0 Hnever0) as (Rm & Rp & Rg).
      by rewrite rebuild_members_value, rebuild_plants_value, rebuild_messages_value,
        rebuild_eventHistory, Rm, Rp, Rg.
    + unfold events_route. case_match; done.
    + done.
    + done.
    + destruct (writeFile_open_frame i s) as (-> & _ & _ & _ & _ & -> & -> & -> & _). done.
    + destruct (writeFile_write_frame i k s) as (-> & _ & _ & _ & _ & -> & -> & -> & _). done.
Qed.

(** So there, one more rebuild shows the same snapshots as before. *)
Lemma fresh_run_rebuild_changes_nothing (acts : list Action) :
  let s := run acts (boot None) in
  forallb uuid_keyed (eventHistory s) = true ->
  never_reoffered (eventHistory s) = true ->
  snd (rebuildFromHistory s) = Returned tt /\
  getCurrentState (fst (rebuildFromHistory s)) = getCurrentState s.
Proof.
  intros s Hkeys Hnever.
  destruct (fresh_run_values_are_folds_despite_rebuilds acts Hkeys Hnever) as (Hm & Hp & Hg).
  fold s in Hm, Hp, Hg.
  destruct (replay_agrees_with_folds (eventHistory s) Hkeys Hnever) as (Rm & Rp & Rg).
  rewrite rebuild_outcome, rebuild_state, Rp. split; [done|].
  unfold getCurrentState. by rewrite Rm, Rg, Hm, Hp, Hg.
Qed.

Example scenario_replays_alike :
  getCurrentState (fst (rebuildFromHistory (run Scenario.five_events (boot None))))
  = getCurrentState (run Scenario.five_events (boot None)).
Proof. by apply (fresh_run_rebuild_changes_nothing Scenario.five_events); vm_compute. Qed.

(** ** Removal on the running server *)

(** While each published value is what its pipeline emitted last (as on a
    server started without a stored log), appending a PLANT_REMOVED event
    deletes the named id from the published plants and nothing else. *)
Lemma removal_on_running_server (file : option (list Event)) (acts : list Action)
    (event : Event) :
  let s := run acts (boot file) in
  values_follow_scans s ->
  event_type event = PLANT_REMOVED ->
  plants_value (fst (append_sync event s))
  = Map_delete (payload_plantId (payload event)) (plants_value s).
Proof.
  intros s (_ & Hp & _) Hty.
  destruct (scans_fold_live_events file acts) as (live & _ & _ & Hacc & _). fold s in Hacc.
  assert (Map_wf (plants_acc s)) as Hwf.
  { rewrite Hacc. apply fold_projection_wf. intros m e. apply plants_reducer_wf. }
  rewrite append_sync_plants.
  - rewrite plants_reducer_removed; [by rewrite Hp|done|done].
  - unfold is_plant_event. rewrite Hty. reflexivity.
Qed.

(** After a restart on a stored log this is no longer so: the pipeline
    starts from an empty accumulator, and the removal of an id that is not
    even listed publishes an empty plants projection. *)
Example restart_then_removal_clears_plants :
  let s0 := boot (Some [with_sequenceNumber Scenario.draft_P2 1]) in
  let s1 := fst (append_sync Scenario.draft_remove_P1 s0) in
  state_plants (getCurrentState s0) = [Scenario.plant_P2] /\
  state_plants (getCurrentState s1) = [].
Proof. split; vm_compute; reflexivity. Qed.

Lemma boot_on_plants_acc text : plants_acc (boot_on text) = Map_empty.
Proof.
  unfold boot_on, start. rewrite rebuild_plants_acc. unfold initialize.
  by destruct (read_events _).
Qed.

(** C7, on the code.  On a server that has just been started -- on
    whatever file -- [removePlant] publishes an empty plants projection,
    whichever id it names: the pipeline deletes the id from its own
    accumulator, which starts empty and has not seen the plants [start]
    loaded.  With P1 and P2 in the stored log, removing P1 removes P2 as
    well, and removing an id that is not listed removes both. *)
Theorem C7_removal_after_restart_empties_plants :
  (forall (text : option (list Token)) (f : Fresh) (r : IoResult) (plantId memberId : JsVal),
     plants_value (fst (removePlant f r plantId memberId (boot_on text))) = Map_empty) /\
  (let s0 := boot (Some [with_sequenceNumber Scenario.draft_P1 1;
                         with_sequenceNumber Scenario.draft_P2 2]) in
   let f := Scenario.fresh "X" "E4" "t4" in
   state_plants (getCurrentState s0) = [Scenario.plant_P1; Scenario.plant_P2] /\
   state_plants (getCurrentState (fst (removePlant f IoOk (Str "P1") (Str "M1") s0))) = [] /\
   state_plants (getCurrentState (fst (removePlant f IoOk (Str "nowhere") (Str "M1") s0)))
   = [] /\
   Map_values (plants_reducer (plants_value s0)
                 (createEvent "E4" "t4" PLANT_REMOVED (PRemoval (Str "P1")) (Str "M1")))
   = [Scenario.plant_P2]).
Proof.
  split.
  - intros text f r plantId memberId.
    unfold removePlant, removePlant_event, then_append.
    rewrite append_plants_value, append_sync_plants_value, boot_on_plants_acc.
    reflexivity.
  - split; [|split; [|split]]; vm_compute; reflexivity.
Qed.

(** The scenario of the specification, seen from a browser connected
    before the first append: the initial state, then for each of the four
    events its projection update followed by the event itself. *)
Example scenario_seen_by_browser :
  let s := run Scenario.four_events Scenario.one_client in
  map (fun c => map is_projection_update (received c)) (sseClients s)
  = [[false; true; false; true; false; true; false; true; false]] /\
  getCurrentState s =
    {| state_members := [Scenario.member_M1];
       state_plants := [Scenario.plant_P2];
       state_messages := [] |} /\
  map sequenceNumber (eventHistory s) = [Some 1; Some 2; Some 3; Some 4] /\
  persisted s.
Proof. split; [|split; [|split]]; vm_compute; reflexivity. Qed.

(** ** Sorting and filtering as the queries use them *)

Section SortFacts.
Context {A K : Type} (lt : K -> K -> bool) (fn : A -> K).

Lemma sort_insert_perm x (l : list A) : sort_insert lt fn x l ≡ₚ x :: l.
Proof.
  induction l as [|y l IH]; simpl; [done|].
  destruct (lt (fn y) (fn x)); [|done].
  rewrite IH. apply Permutation_swap.
Qed.

Lemma R_sortBy_perm (l : list A) : R_sortBy lt fn l ≡ₚ l.
Proof.
  induction l as [|x l IH]; simpl; [done|].
  rewrite sort_insert_perm. by rewrite IH.
Qed.

(** On elements whose keys are ordered by [lt], the result ascends. *)
Lemma R_sortBy_ascends (P : A -> Prop) (l : list A) :
  (forall a b, P a -> P b -> lt (fn a) (fn b) = true -> lt (fn b) (fn a) = false) ->
  (forall a b c, P a -> P b -> P c ->
     lt (fn b) (fn a) = false -> lt (fn c) (fn b) = false -> lt (fn c) (fn a) = false) ->
  Forall P l ->
  StronglySorted (fun a b => lt (fn b) (fn a) = false) (R_sortBy lt fn l).
Proof.
  intros Hasym Htrans. induction 1 as [|x l Hx Hl IH]; simpl; [constructor|].
  assert (Forall P (R_sortBy lt fn l)) as Hall by (by rewrite R_sortBy_perm).
  revert IH Hall. generalize (R_sortBy lt fn l). clear Hl l.
  induction l as [|y l IHl]; intros Hs Hall; simpl.
  - by repeat constructor.
  - apply StronglySorted_inv in Hs as [Hs Hy].
    apply Forall_cons in Hall as [Py Hall].
    destruct (lt (fn y) (fn x)) eqn:Hyx.
    + constructor; [by apply IHl|].
      rewrite sort_insert_perm. constructor; [by apply Hasym|done].
    + constructor; [by constructor|].
      constructor; [done|].
      apply Forall_forall. intros z Hz.
      pose proof (proj1 (Forall_forall _ _) Hy z Hz) as Hzy.
      pose proof (proj1 (Forall_forall _ _) Hall z Hz) as Pz.
      by apply (Htrans x y z).
Qed.
End SortFacts.

Lemma StronglySorted_snoc {A} (R : A -> A -> Prop) (l : list A) x :
  StronglySorted R l -> Forall (fun y => R y x) l -> StronglySorted R (l ++ [x]).
Proof.
  induction l as [|y l IH]; simpl; intros Hs Hall.
  - by repeat constructor.
  - apply StronglySorted_inv in Hs as [Hs Hy].
    apply Forall_cons in Hall as [Hyx Hall].
    constructor; [by apply IH|].
    apply Forall_app. split; [done|]. by constructor.
Qed.

Lemma StronglySorted_rev {A} (R : A -> A -> Prop) (l : list A) :
  StronglySorted R l -> StronglySorted (fun a b => R b a) (rev l).
Proof.
  induction 1 as [|x l Hs IH Hx]; simpl; [constructor|].
  apply StronglySorted_snoc; [done|].
  apply Forall_forall. intros y Hy.
  apply list_elem_of_In, in_rev, list_elem_of_In in Hy.
  by apply (proj1 (Forall_forall _ _) Hx).
Qed.

Lemma StronglySorted_lookup {A} (R : A -> A -> Prop) (l : list A) i j a b :
  StronglySorted R l -> i < j -> l !! i = Some a -> l !! j = Some b -> R a b.
Proof.
  intros Hs. revert i j. induction Hs as [|x l Hs IH Hx]; intros i j Hij Hi Hj.
  - by rewrite lookup_nil in Hi.
  - destruct j as [|j]; [lia|]. simpl in Hj. destruct i as [|i].
    + simpl in Hi. injection Hi as <-.
      apply (proj1 (Forall_forall _ _) Hx). by eapply list_elem_of_lookup_2.
    + simpl in Hi. apply (IH i j); [lia|done|done].
Qed.

(** ** The order of strings *)

Lemma ltb_lt x y : String.ltb x y = true <-> OrderedTypeEx.String_as_OT.lt x y.
Proof.
  rewrite <- OrderedTypeEx.String_as_OT.cmp_lt.
  unfold String.ltb, OrderedTypeEx.String_as_OT.cmp.
  destruct (String.compare x y); split; congruence.
Qed.

Lemma ltb_asym x y : String.ltb x y = true -> String.ltb y x = false.
Proof.
  unfold String.ltb. rewrite (String.compare_antisym y x).
  by destruct (String.compare x y).
Qed.

Lemma ltb_not_trans x y z :
  String.ltb y x = false -> String.ltb z y = false -> String.ltb z x = false.
Proof.
  intros Hyx Hzy. destruct (String.ltb z x) eqn:Hzx; [|done].
  assert (String.ltb x y = true \/ x = y) as [Hxy| ->].
  { unfold String.ltb in *. rewrite (String.compare_antisym y x) in Hyx.
    destruct (String.compare x y) eqn:Hc; simpl in Hyx; try discriminate; [right|by left].
    by apply String.compare_eq_iff. }
  - apply ltb_lt in Hzx, Hxy.
    pose proof (OrderedTypeEx.String_as_OT.lt_trans _ _ _ Hzx Hxy) as Hlt.
    apply ltb_lt in Hlt. congruence.
  - congruence.
Qed.

(** A sorted-and-reversed list of entries that all have the key shows
    the greatest key first. *)
Lemma reverse_sortBy_newest_first (key : Payload -> option string) (l : list Payload) :
  Forall (fun p => is_Some (key p)) l ->
  newest_first key (R_reverse (R_sortBy key_lt key l)).
Proof.
  intros Hkeys.
  assert (StronglySorted (fun a b => key_lt (key b) (key a) = false) (R_sortBy key_lt key l))
    as Hs.
  { apply (R_sortBy_ascends key_lt key (fun p => is_Some (key p))); [| |done].
    - intros a b [x ->] [y ->]. simpl. apply ltb_asym.
    - intros a b c [x ->] [y ->] [z ->]. simpl. apply ltb_not_trans. }
  apply StronglySorted_rev in Hs.
  intros i j a b Hij Hi Hj. by eapply (StronglySorted_lookup _ _ i j a b Hs).
Qed.

Lemma R_filter_throwing_total {A} (pred : A -> Outcome bool) (keep : A -> bool)
    (l : list A) :
  Forall (fun x => pred x = Returned (keep x)) l ->
  R_filter_throwing pred l = Returned (List.filter keep l).
Proof.
  induction 1 as [|x l Hx _ IH]; simpl; [done|]. by rewrite Hx, IH.
Qed.

Lemma R_filter_throwing_throws {A} (pred : A -> Outcome bool) (error : JsError)
    (l : list A) :
  (forall x e, pred x = Threw e -> e = error) ->
  (exists x, x ∈ l /\ pred x = Threw error) ->
  R_filter_throwing pred l = Threw error.
Proof.
  intros Hsame. induction l as [|y l IH]; intros (x & Hx & Hthrow).
  - by apply elem_of_nil in Hx.
  - simpl. destruct (pred y) as [keep|e] eqn:Hy.
    + apply elem_of_cons in Hx as [->|Hx]; [congruence|].
      rewrite IH; [done|]. by exists x.
    + by rewrite (Hsame y e Hy).
Qed.

(** ** Searching the plants *)

Lemma R_filter_throwing_kept {A} (pred : A -> Outcome bool) (l kept : list A) :
  R_filter_throwing pred l = Returned kept -> forall x, x ∈ kept -> x ∈ l.
Proof.
  revert kept. induction l as [|y l IH]; simpl; intros kept Hk x Hx.
  - injection Hk as <-. done.
  - destruct (pred y) as [keep|]; [|discriminate].
    destruct (R_filter_throwing pred l) as [kept'|]; [|discriminate].
    injection Hk as <-. destruct keep.
    + apply elem_of_cons in Hx as [->|Hx]; [left|right; by apply (IH kept')].
    + right. by apply (IH kept').
Qed.

Lemma assoc_set_value_in {K V} `{EqDecision K} (k : K) (v : V) (m : list (K * V)) :
  v ∈ map snd (assoc_set k v m).
Proof.
  induction m as [|[k' v'] m IH]; simpl; [left|].
  destruct (decide (k' = k)); simpl; [left|by right].
Qed.

Section SearchFacts.
Variable toLowerCase : string -> string.

Lemma plant_matches_no_text criteria plant :
  truthy (criteria_search criteria) = false ->
  plant_matches toLowerCase criteria plant = Returned (passes_type_and_category criteria plant).
Proof.
  intros Hs. unfold plant_matches, passes_type_and_category. rewrite Hs.
  destruct (truthy (criteria_type criteria) && _); [done|].
  by destruct (truthy (criteria_category criteria) && _).
Qed.

Lemma plant_matches_throws criteria plant error :
  plant_matches toLowerCase criteria plant = Threw error -> error = method_of_nothing.
Proof.
  unfold plant_matches, lower_of.
  repeat case_match; intros Heq; try discriminate; congruence.
Qed.

Lemma plant_matches_nameless criteria plant :
  truthy (criteria_search criteria) = true ->
  passes_type_and_category criteria plant = true ->
  is_string (payload_name plant) = false ->
  plant_matches toLowerCase criteria plant = Threw method_of_nothing.
Proof.
  unfold plant_matches, passes_type_and_category, lower_of.
  intros Hs Hp Hn. apply andb_true_iff in Hp as [Ht Hc].
  apply negb_true_iff in Ht, Hc. rewrite Ht, Hc, Hs.
  destruct (criteria_search criteria); try discriminate.
  by destruct (payload_name plant).
Qed.

Lemma plant_matches_text criteria plant t :
  criteria_search criteria = Str t ->
  truthy (Str t) = true ->
  searchable plant = true ->
  plant_matches toLowerCase criteria plant =
  Returned (passes_type_and_category criteria plant
            && (lowered_includes toLowerCase t (payload_name plant)
                || lowered_includes toLowerCase t (payload_description plant))).
Proof.
  unfold plant_matches, passes_type_and_category, lower_of, searchable,
    lowered_includes.
  intros Hs Ht Hp. rewrite Hs, Ht. apply andb_true_iff in Hp as [Hn Hd].
  destruct (payload_name plant) as [| |n]; try discriminate.
  destruct (payload_description plant) as [| |d]; try discriminate.
  destruct (truthy (criteria_type criteria) && _); [done|].
  destruct (truthy (criteria_category criteria) && _); [done|]. simpl.
  by destruct (includes (toLowerCase t) (toLowerCase n)).
Qed.

(** Without a search text, [searchPlants] cannot throw, and it returns
    the plants of the projection that have the requested type and category
    (all of them when neither is given): each of them once, and nothing
    else. *)
Theorem searchPlants_without_text (criteria : Criteria) (s : Server) :
  truthy (criteria_search criteria) = false ->
  exists found,
    searchPlants toLowerCase criteria s = Returned found /\
    found ≡ₚ List.filter (passes_type_and_category criteria) (Map_values (plants_value s)).
Proof.
  intros Hs. unfold searchPlants.
  rewrite (R_filter_throwing_total _ (passes_type_and_category criteria)).
  - eexists. split; [reflexivity|].
    unfold R_reverse. rewrite <- Permutation_rev. apply R_sortBy_perm.
  - apply Forall_forall. intros p _. by apply plant_matches_no_text.
Qed.

(** Whatever [searchPlants] returns from a projection that holds plants
    is ordered by [createdAt], newest first. *)
Theorem searchPlants_newest_first (criteria : Criteria) (s : Server)
    (found : list Payload) :
  Forall (fun p => is_plant p = true) (Map_values (plants_value s)) ->
  searchPlants toLowerCase criteria s = Returned found ->
  newest_first prop_createdAt found.
Proof.
  intros Hplants. unfold searchPlants.
  destruct (R_filter_throwing _ _) as [kept|] eqn:Hkept; [|discriminate].
  intros Hfound. injection Hfound as <-.
  apply reverse_sortBy_newest_first. apply Forall_forall. intros p Hp.
  apply (R_filter_throwing_kept _ _ _ Hkept) in Hp.
  pose proof (proj1 (Forall_forall _ _) Hplants p Hp) as Hplant.
  destruct p; try discriminate. by eexists.
Qed.

(** A text search throws a TypeError as soon as the projection holds one
    plant of the requested type and category whose name is not a string:
    the search then returns no result at all. *)
Theorem searchPlants_text_throws_on_nameless (criteria : Criteria) (s : Server)
    (plant : Payload) :
  truthy (criteria_search criteria) = true ->
  plant ∈ Map_values (plants_value s) ->
  passes_type_and_category criteria plant = true ->
  is_string (payload_name plant) = false ->
  searchPlants toLowerCase criteria s = Threw method_of_nothing.
Proof.
  intros Hs Hin Hp Hn. unfold searchPlants.
  rewrite (R_filter_throwing_throws _ method_of_nothing); [done| |].
  - intros x e. apply plant_matches_throws.
  - exists plant. split; [done|]. by apply plant_matches_nameless.
Qed.

(** When every plant of the projection has a string for name and for
    description, a text search returns the plants of the requested type
    and category whose name or description includes the text, both taken
    in lower case: each of them once, and nothing else. *)
Theorem searchPlants_text_finds (criteria : Criteria) (s : Server) (t : string) :
  criteria_search criteria = Str t ->
  truthy (Str t) = true ->
  Forall (fun p => searchable p = true) (Map_values (plants_value s)) ->
  exists found,
    searchPlants toLowerCase criteria s = Returned found /\
    found ≡ₚ List.filter
               (fun p => passes_type_and_category criteria p
                         && (lowered_includes toLowerCase t (payload_name p)
                             || lowered_includes toLowerCase t (payload_description p)))
               (Map_values (plants_value s)).
Proof.
  intros Hs Ht Hall. unfold searchPlants.
  rewrite (R_filter_throwing_total _
    (fun p => passes_type_and_category criteria p
              && (lowered_includes toLowerCase t (payload_name p)
                  || lowered_includes toLowerCase t (payload_description p)))).
  - eexists. split; [reflexivity|].
    unfold R_reverse. rewrite <- Permutation_rev. apply R_sortBy_perm.
  - eapply Forall_impl; [exact Hall|]. intros p Hp. by apply plant_matches_text.
Qed.

(** [offerPlant] accepts a plant without a name, and from then on every
    text search that gets as far as this plant throws: an offer posted
    without a name takes the text search down. *)
Theorem nameless_offer_breaks_text_search (f : Fresh) (r : IoResult) (d : PlantData)
    (memberId : JsVal) (criteria : Criteria) (s : Server) :
  is_string (data_plant_name d) = false ->
  truthy (criteria_search criteria) = true ->
  passes_type_and_category criteria
    (PPlant (createPlant (entity_uuid f) (entity_now f) (data_plant_name d)
               (data_description d) (data_category d) memberId (Str "offer"))) = true ->
  searchPlants toLowerCase criteria (fst (offerPlant f r (Some d) memberId s))
  = Threw method_of_nothing.
Proof.
  intros Hn Hs Hp. unfold searchPlants.
  rewrite (R_filter_throwing_throws _ method_of_nothing); [done| |].
  - intros x e. apply plant_matches_throws.
  - eexists. split; [|by apply plant_matches_nameless; [done|exact Hp|]].
    unfold offerPlant, offerPlant_event, then_append.
    rewrite append_plants_value, append_sync_plants by reflexivity.
    unfold plants_reducer. cbn [event_type with_sequenceNumber createEvent payload].
    change (String.eqb PLANT_OFFERED PLANT_OFFERED) with true. cbn [orb].
    apply assoc_set_value_in.
Qed.
End SearchFacts.

Lemma searchPlants_without_text_witness :
  truthy (criteria_search Catalogue.offers) = false /\
  exists found,
    searchPlants Catalogue.lower Catalogue.offers Catalogue.shop = Returned found /\
    found ≡ₚ [Catalogue.basil; Catalogue.sage].
Proof.
  split; [reflexivity|].
  exact (searchPlants_without_text Catalogue.lower Catalogue.offers Catalogue.shop eq_refl).
Defined.

Lemma searchPlants_newest_first_witness :
  let found := [Catalogue.mint; Catalogue.sage; Catalogue.basil] in
  Forall (fun p => is_plant p = true) (Map_values (plants_value Catalogue.shop)) /\
  searchPlants Catalogue.lower Catalogue.any Catalogue.shop = Returned found /\
  newest_first prop_createdAt found.
Proof.
  intros found.
  assert (Forall (fun p => is_plant p = true) (Map_values (plants_value Catalogue.shop)))
    as Hplants by (vm_compute; repeat constructor).
  assert (searchPlants Catalogue.lower Catalogue.any Catalogue.shop = Returned found)
    as Hfound by (vm_compute; reflexivity).
  split; [exact Hplants|]. split; [exact Hfound|].
  exact (searchPlants_newest_first Catalogue.lower Catalogue.any Catalogue.shop found
           Hplants Hfound).
Defined.

Lemma searchPlants_text_throws_on_nameless_witness :
  let s := Catalogue.with_plants [Catalogue.basil; Catalogue.nameless] in
  truthy (criteria_search (Catalogue.text "basil")) = true /\
  Catalogue.nameless ∈ Map_values (plants_value s) /\
  searchPlants Catalogue.lower (Catalogue.text "basil") s = Threw method_of_nothing.
Proof.
  intros s.
  assert (Catalogue.nameless ∈ Map_values (plants_value s)) as Hin.
  { vm_compute. right. left. }
  split; [reflexivity|]. split; [exact Hin|].
  exact (searchPlants_text_throws_on_nameless Catalogue.lower (Catalogue.text "basil") s
           Catalogue.nameless eq_refl Hin eq_refl eq_refl).
Defined.

Lemma searchPlants_text_finds_witness :
  Forall (fun p => searchable p = true) (Map_values (plants_value Catalogue.shop)) /\
  exists found,
    searchPlants Catalogue.lower (Catalogue.text "Basil") Catalogue.shop = Returned found /\
    found ≡ₚ [Catalogue.basil; Catalogue.mint].
Proof.
  assert (Forall (fun p => searchable p = true) (Map_values (plants_value Catalogue.shop)))
    as Hall by (vm_compute; repeat constructor).
  split; [exact Hall|].
  exact (searchPlants_text_finds Catalogue.lower (Catalogue.text "Basil") Catalogue.shop
           "Basil" eq_refl eq_refl Hall).
Defined.

Lemma nameless_offer_breaks_text_search_witness :
  let f := Scenario.fresh "P9" "E9" "t9" in
  is_string (data_plant_name Catalogue.no_name) = false /\
  searchPlants Catalogue.lower (Catalogue.text "fern")
    (fst (offerPlant f IoOk (Some Catalogue.no_name) (Str "M1") Catalogue.shop))
  = Threw method_of_nothing.
Proof.
  intros f. split; [reflexivity|].
  exact (nameless_offer_breaks_text_search Catalogue.lower f IoOk Catalogue.no_name
           (Str "M1") (Catalogue.text "fern") Catalogue.shop eq_refl eq_refl eq_refl).
Defined.

(** ** The messages of a member *)

Lemma filter_elem {A} (f : A -> bool) (l : list A) x :
  x ∈ List.filter f l <-> x ∈ l /\ f x = true.
Proof. rewrite !list_elem_of_In. apply filter_In. Qed.

(** [getMemberMessages] returns the messages of the projection that the
    member sent or received, each of them once and nothing else, ordered by
    [timestamp], newest first. *)
Theorem getMemberMessages_exact_newest_first (memberId : JsVal) (s : Server) :
  Forall (fun p => is_message p = true) (Map_values (messages_value s)) ->
  getMemberMessages memberId s
    ≡ₚ List.filter (involves memberId) (Map_values (messages_value s)) /\
  (forall m, m ∈ getMemberMessages memberId s ->
     payload_fromId m = memberId \/ payload_toId m = memberId) /\
  newest_first prop_timestamp (getMemberMessages memberId s).
Proof.
  intros Hall.
  assert (getMemberMessages memberId s
            ≡ₚ List.filter (involves memberId) (Map_values (messages_value s))) as Hperm.
  { unfold getMemberMessages, R_reverse. rewrite <- Permutation_rev. apply R_sortBy_perm. }
  split; [exact Hperm|]. split.
  - intros m Hm. rewrite Hperm in Hm. apply filter_elem in Hm as [_ Hm].
    unfold involves in Hm. apply orb_true_iff in Hm as [Hm|Hm];
      apply bool_decide_eq_true in Hm; auto.
  - unfold getMemberMessages. apply reverse_sortBy_newest_first.
    apply Forall_forall. intros p Hp. apply filter_elem in Hp as [Hp _].
    pose proof (proj1 (Forall_forall _ _) Hall p Hp) as Hmsg.
    destruct p; try discriminate. by eexists.
Qed.

Lemma getMemberMessages_exact_newest_first_witness :
  Forall (fun p => is_message p = true) (Map_values (messages_value Catalogue.inbox)) /\
  map payload_id (getMemberMessages (Str "M1") Catalogue.inbox) = [Str "N2"; Str "N1"] /\
  newest_first prop_timestamp (getMemberMessages (Str "M1") Catalogue.inbox).
Proof.
  assert (Forall (fun p => is_message p = true)
            (Map_values (messages_value Catalogue.inbox))) as Hall
    by (vm_compute; repeat constructor).
  split; [exact Hall|]. split; [vm_compute; reflexivity|].
  exact (proj2 (proj2 (getMemberMessages_exact_newest_first (Str "M1") Catalogue.inbox Hall))).
Defined.

(** ** Restarts *)

Lemma initialize_frame s :
  members_value (initialize s) = members_value s /\
  plants_value (initialize s) = plants_value s /\
  messages_value (initialize s) = messages_value s /\
  disk (initialize s) = disk s /\ pending (initialize s) = pending s.
Proof. unfold initialize. by destruct (read_events (disk s)). Qed.

Lemma initialize_eventHistory s :
  eventHistory (initialize s) = default [] (read_events (disk s)).
Proof. unfold initialize. by destruct (read_events (disk s)). Qed.

(** What [start] shows and how it ends, on whatever the file holds. *)
Lemma boot_on_state text :
  let h := default [] (read_events text) in
  getCurrentState (boot_on text) =
  match rebuild_plants h with
  | Returned plants =>
      {| state_members := Map_values (rebuild_members h);
         state_plants := Map_values plants;
         state_messages := Map_values (rebuild_messages h) |}
  | Threw _ =>
      {| state_members := Map_values (rebuild_members h);
         state_plants := []; state_messages := [] |}
  end.
Proof.
  intros h. unfold boot_on, start. rewrite rebuild_state, initialize_eventHistory.
  destruct (initialize_frame (new_PlantExchangeServer text)) as (_ & -> & -> & _).
  reflexivity.
Qed.

Lemma start_outcome text :
  snd (start (new_PlantExchangeServer text)) =
  match rebuild_plants (default [] (read_events text)) with
  | Returned _ => Returned tt
  | Threw error => Threw error
  end.
Proof. unfold start. by rewrite rebuild_outcome, initialize_eventHistory. Qed.



(** Write, then load: after an [append] that overlaps no other write
    and whose write succeeds, a server started on the file it left has the
    whole log again, the appended event included, and numbers its next
    event one past it.  [start] ends as replay on the running server would
    end, and when that replay returns, the started server shows the
    projections it computes. *)
Theorem restart_after_append_recovers_log (event next : Event) (s : Server) :
  pending s = [] ->
  let s1 := fst (append IoOk event s) in
  let s2 := boot_on (disk s1) in
  eventHistory s2 = eventHistory s1 /\
  eventHistory s2 = eventHistory s ++ [with_sequenceNumber event (length (eventHistory s) + 1)] /\
  sequenceNumber (snd (append_sync next s2)) = Some (length (eventHistory s) + 2) /\
  snd (start (new_PlantExchangeServer (disk s1))) = snd (rebuildFromHistory s1) /\
  (snd (rebuildFromHistory s1) = Returned tt ->
   getCurrentState s2 = getCurrentState (fst (rebuildFromHistory s1))).
Proof.
  intros _ s1 s2.
  assert (disk s1 = Some (JSON_stringify (eventHistory s1))) as Hdisk.
  { subst s1. rewrite append_eventHistory. by rewrite append_ok. }
  assert (read_events (disk s1) = Some (eventHistory s1)) as Hread.
  { rewrite Hdisk. apply JSON_parse_stringify. }
  assert (eventHistory s2 = eventHistory s1) as Hh.
  { subst s2. by rewrite boot_on_eventHistory, Hread. }
  split; [exact Hh|]. split; [rewrite Hh; apply append_eventHistory|]. split; [|split].
  - rewrite append_sync_event. cbn [sequenceNumber with_sequenceNumber]. rewrite Hh. subst s1.
    rewrite append_eventHistory, length_app. simpl. f_equal. lia.
  - by rewrite start_outcome, rebuild_outcome, Hread.
  - subst s2. rewrite rebuild_outcome, boot_on_state, rebuild_state, Hread.
    cbv [default from_option id].
    by destruct (rebuild_plants (eventHistory s1)).
Qed.

Lemma restart_after_append_recovers_log_witness :
  let s := run Scenario.four_events (boot None) in
  let s1 := fst (append IoOk Scenario.draft_M2 s) in
  pending s = [] /\
  map sequenceNumber (eventHistory (boot_on (disk s1)))
  = [Some 1; Some 2; Some 3; Some 4; Some 5] /\
  sequenceNumber (snd (append_sync Scenario.draft_P1 (boot_on (disk s1)))) = Some 6.
Proof.
  intros s s1.
  assert (pending s = []) as Hp by (vm_compute; reflexivity).
  destruct (restart_after_append_recovers_log Scenario.draft_M2 Scenario.draft_P1 s Hp)
    as (_ & Hh & Hn & _).
  split; [exact Hp|]. split; [|exact Hn].
  fold s1 in Hh. rewrite Hh. vm_compute. reflexivity.
Defined.

Lemma JSON_parse_unclosed (events : list Event) : JSON_parse (map Printed events) = None.
Proof. induction events as [|e events IH]; [done|]. simpl. by rewrite IH. Qed.

(** A text that stops before its closing bracket cannot be read. *)
Lemma JSON_parse_cut (events : list Event) (k : nat) :
  k <= length events -> JSON_parse (take k (JSON_stringify events)) = None.
Proof.
  intros Hk. unfold JSON_stringify. rewrite take_app_le by (by rewrite length_map).
  rewrite <- fmap_take. apply JSON_parse_unclosed.
Qed.

(** A failed write at the next restart.  When the write is refused before
    the file is opened and the file held the whole log before, the
    restarted server has the log without the event and gives its next
    event the sequence number the lost event was returned with.  When the
    write breaks off after it has opened the file, with less than the whole
    text written, the file cannot be read any more: the restarted server
    starts with an empty log, whatever the file held before, and numbers
    its next event 1. *)
Theorem restart_after_failed_write (event next : Event) (reason : string) (k : nat)
    (s : Server) :
  persisted s ->
  let lost := with_sequenceNumber event (length (eventHistory s) + 1) in
  let refused := fst (append (IoFail reason) event s) in
  let cut := run (cut_short (length (pending s)) k reason) (fst (append_sync event s)) in
  (snd (append (IoFail reason) event s) = Returned lost /\
   lost ∈ eventHistory refused /\
   eventHistory (boot_on (disk refused)) = eventHistory s /\
   sequenceNumber (snd (append_sync next (boot_on (disk refused)))) = sequenceNumber lost) /\
  (k <= length (eventHistory s) + 1 ->
   lost ∈ eventHistory cut /\
   pending cut = pending s /\
   eventHistory (boot_on (disk cut)) = [] /\
   sequenceNumber (snd (append_sync next (boot_on (disk cut)))) = Some 1).
Proof.
  intros Hp lost refused cut. split.
  - assert (disk refused = Some (JSON_stringify (eventHistory s))) as Hdisk.
    { subst refused. rewrite append_fail. cbn [fst disk console_write set_pending].
      by rewrite append_sync_disk. }
    split; [apply append_returns|]. split.
    + subst refused. rewrite append_eventHistory. apply elem_of_app. right. left.
    + rewrite append_sync_event, boot_on_eventHistory, Hdisk. cbn [read_events].
      by rewrite JSON_parse_stringify.
  - intros Hk.
    set (text := JSON_stringify (eventHistory s ++ [lost])).
    assert (disk cut = Some (take k text) /\ pending cut = pending s /\
            eventHistory cut = eventHistory s ++ [lost]) as (Hdisk & Hpend & Hh).
    { subst cut. unfold cut_short, run. cbn [fold_left step].
      unfold persist_resume, writeFile_settle, writeFile_write, writeFile_open.
      rewrite append_sync_pending. fold lost. fold text.
      rewrite lookup_last. cbn [write_pos write_data pending set_pending set_disk disk].
      rewrite insert_last, lookup_last. cbn [write_pos write_data pending set_pending
        set_disk disk default].
      rewrite insert_last, lookup_last, drop_0, write_at_start.
      cbn [fst disk pending eventHistory console_write set_pending set_disk].
      rewrite delete_last. split; [done|]. split; [done|].
      apply append_sync_eventHistory. }
    assert (read_events (disk cut) = None) as Hread.
    { rewrite Hdisk. cbn [read_events]. apply JSON_parse_cut.
      rewrite length_app. simpl. lia. }
    split; [rewrite Hh; apply elem_of_app; right; left|]. split; [exact Hpend|].
    rewrite append_sync_event, boot_on_eventHistory, Hread. done.
Qed.

Lemma restart_after_failed_write_witness :
  let s := run Scenario.four_events (boot None) in
  let refused := fst (append (IoFail "EACCES") Scenario.draft_M2 s) in
  let cut := run (cut_short 0 3 "ENOSPC") (fst (append_sync Scenario.draft_M2 s)) in
  persisted s /\ 3 <= length (eventHistory s) + 1 /\
  map sequenceNumber (eventHistory refused) = [Some 1; Some 2; Some 3; Some 4; Some 5] /\
  sequenceNumber (snd (append_sync Scenario.draft_P1 (boot_on (disk refused)))) = Some 5 /\
  length (eventHistory cut) = 5 /\
  eventHistory (boot_on (disk cut)) = [] /\
  sequenceNumber (snd (append_sync Scenario.draft_P1 (boot_on (disk cut)))) = Some 1.
Proof.
  intros s refused cut.
  assert (persisted s) as Hp by (vm_compute; reflexivity).
  assert (3 <= length (eventHistory s) + 1) as Hk by (vm_compute; lia).
  destruct (restart_after_failed_write Scenario.draft_M2 Scenario.draft_P1 "EACCES" 3 s Hp)
    as [(_ & _ & _ & Hn) _].
  destruct (restart_after_failed_write Scenario.draft_M2 Scenario.draft_P1 "ENOSPC" 3 s Hp)
    as [_ Hcut].
  destruct (Hcut Hk) as (_ & _ & Hempty & Hone).
  split; [exact Hp|]. split; [exact Hk|]. split; [vm_compute; reflexivity|].
  split; [exact Hn|]. split; [vm_compute; reflexivity|]. split; [exact Hempty|exact Hone].
Defined.

(** ** The file and the log over a whole run *)

Lemma prefix_of_snoc {A} (l1 l2 : list A) x : l1 `prefix_of` l2 -> l1 `prefix_of` l2 ++ [x].
Proof. intros [k ->]. exists (k ++ [x]). by rewrite app_assoc. Qed.



Lemma events_route_values res s :
  members_value (fst (events_route res s)) = members_value s /\
  plants_value (fst (events_route res s)) = plants_value s /\
  messages_value (fst (events_route res s)) = messages_value s.
Proof. unfold events_route. by case_match. Qed.














(** Two appends whose writes overlap: both open the file, the later one
    writes its text and settles, then the earlier one writes its shorter
    text over it.  Both calls return their events and nothing is printed,
    yet the file ends with the tail of the longer text behind the shorter
    one and cannot be read: a server started on it begins with an empty
    log. *)
Theorem overlapping_appends_can_lose_the_log (first second : Event) (s : Server) :
  pending s = [] ->
  let overlap := [CallAppend first; CallAppend second; WriteOpens 0; WriteOpens 1;
                  WriteSettles 1 IoOk; WriteSettles 0 IoOk] in
  let s' := run overlap s in
  length (eventHistory s') = length (eventHistory s) + 2 /\
  pending s' = [] /\
  console s' = console s /\
  read_events (disk s') = None /\
  eventHistory (boot_on (disk s')) = [].
Proof.
  intros Hp overlap s'.
  set (a := with_sequenceNumber first (length (eventHistory s) + 1)).
  set (b := with_sequenceNumber second (length (eventHistory s ++ [a]) + 1)).
  assert (eventHistory s' = (eventHistory s ++ [a]) ++ [b] /\ pending s' = [] /\
          console s' = console s /\
          disk s' = Some (map Printed (eventHistory s ++ [a]) ++ [Closing; Closing]))
    as (Hh & Hpend & Hcon & Hdisk).
  { subst s' overlap. unfold run. cbn [fold_left step].
    set (s1 := fst (append_sync first s)).
    set (s2 := fst (append_sync second s1)).
    assert (eventHistory s1 = eventHistory s ++ [a]) as H1
      by apply append_sync_eventHistory.
    assert (eventHistory s2 = (eventHistory s ++ [a]) ++ [b]) as H2.
    { subst s2. rewrite append_sync_eventHistory, H1. done. }
    assert (pending s2 =
            [{| write_data := JSON_stringify (eventHistory s ++ [a]); write_pos := None |};
             {| write_data := JSON_stringify ((eventHistory s ++ [a]) ++ [b]);
                write_pos := None |}]) as Hp2.
    { subst s2. rewrite append_sync_pending, H1. subst s1.
      rewrite append_sync_pending, Hp. done. }
    assert (console s2 = console s) as Hc2.
    { subst s2 s1. by rewrite !append_sync_console. }
    unfold persist_resume, writeFile_settle, writeFile_write, writeFile_open.
    rewrite Hp2.
    cbn [lookup list_lookup write_pos write_data pending set_pending set_disk disk
         insert list_insert delete list_delete default fst eventHistory console].
    rewrite !drop_0, !firstn_all, write_at_start.
    split; [done|]. split; [done|]. split; [done|]. f_equal.
    unfold write_at, JSON_stringify, id.
    rewrite take_0, Nat.sub_0_l, Nat.add_0_l. cbn [replicate app].
    rewrite (map_app _ _ [b]). cbn [map].
    rewrite (drop_app_length' (map Printed (eventHistory s ++ [a]) ++ [Printed b])).
    - by rewrite <- app_assoc.
    - by rewrite !length_app. }
  split; [by rewrite Hh, !length_app; simpl; lia|]. split; [done|]. split; [done|].
  assert (read_events (disk s') = None) as Hread.
  { rewrite Hdisk. cbn [read_events].
    generalize (eventHistory s ++ [a]). intros l.
    induction l as [|e l IH]; [done|]. simpl. by rewrite IH. }
  split; [exact Hread|]. by rewrite boot_on_eventHistory, Hread.
Qed.

Lemma overlapping_appends_can_lose_the_log_witness :
  let s := run Scenario.four_events (boot None) in
  let overlap := [CallAppend Scenario.draft_M2; CallAppend Scenario.draft_P1;
                  WriteOpens 0; WriteOpens 1; WriteSettles 1 IoOk; WriteSettles 0 IoOk] in
  pending s = [] /\
  persisted s /\
  length (eventHistory (run overlap s)) = 6 /\
  eventHistory (boot_on (disk (run overlap s))) = [].
Proof.
  intros s overlap.
  assert (pending s = []) as Hp by (vm_compute; reflexivity).
  destruct (overlapping_appends_can_lose_the_log Scenario.draft_M2 Scenario.draft_P1 s Hp)
    as (Hlen & _ & _ & _ & Hlost).
  split; [exact Hp|]. split; [vm_compute; reflexivity|]. split; [exact Hlen|exact Hlost].
Defined.

(** The log is append-only: whatever runs -- appends, writes, rebuilds,
    clients -- the events it held stay at their positions, unchanged, and
    new ones only come after them. *)
Theorem log_is_append_only (acts : list Action) (s : Server) :
  eventHistory s `prefix_of` eventHistory (run acts s).
Proof.
  revert s. induction acts as [|a acts IH]; intros s; [done|].
  simpl. etrans; [|apply IH].
  destruct (step_eventHistory_grows s a) as [more ->]. by exists more.
Qed.

(** ** Clients over a run *)

Lemma omap_deliver_broken sent id (clients : list Client) :
  omap (deliver sent)
    (map (fun c => if decide (cid c = id)
                   then {| cid := cid c; writable := false; received := received c |}
                   else c) clients)
  = omap (deliver sent) (List.filter (fun c => negb (Nat.eqb (cid c) id)) clients).
Proof.
  induction clients as [|c clients IH]; [done|]. cbn [map List.filter].
  destruct (decide (cid c = id)) as [Heq|Hne].
  - rewrite (proj2 (Nat.eqb_eq _ _) Heq). simpl in *. exact IH.
  - rewrite (proj2 (Nat.eqb_neq _ _) Hne). simpl in *.
    destruct (deliver sent c); [f_equal|]; exact IH.
Qed.

Lemma deliver_writable sent (clients : list Client) :
  Forall (fun c => writable c = true) (omap (deliver sent) clients).
Proof.
  apply Forall_forall. intros c' Hc'. apply list_elem_of_omap in Hc' as (c & _ & Hd).
  unfold deliver in Hd. destruct (writable c); [|discriminate]. by injection Hd as <-.
Qed.

(** When the connection of a client breaks, the next append drops it --
    no response with its id stays registered -- and reaches the other
    clients exactly as if it had not been there; every client left is one
    whose writes succeed. *)
Theorem broken_client_is_dropped_by_next_append (id : nat) (event : Event) (s : Server) :
  let e := snd (append_sync event s) in
  let sent := projection_messages e s ++ [event_message e] in
  let s' := fst (append_sync event (connection_breaks id s)) in
  sseClients s' =
    omap (deliver sent) (List.filter (fun c => negb (Nat.eqb (cid c) id)) (sseClients s)) /\
  (id ∉ map cid (sseClients s')) /\
  Forall (fun c => writable c = true) (sseClients s').
Proof.
  intros e sent s'.
  assert (sseClients s' =
    omap (deliver sent) (List.filter (fun c => negb (Nat.eqb (cid c) id)) (sseClients s)))
    as Heq.
  { subst s'. rewrite append_sync_sseClients.
    change (snd (append_sync event (connection_breaks id s))) with e.
    change (projection_messages e (connection_breaks id s)) with (projection_messages e s).
    apply omap_deliver_broken. }
  split; [exact Heq|]. split.
  - rewrite Heq. intros Hin. apply list_elem_of_fmap in Hin as (c' & Hid & Hc').
    apply deliver_in in Hc' as (c & Hc & _ & Hcid & _).
    apply list_elem_of_In, filter_In in Hc as [_ Hc].
    apply negb_true_iff, Nat.eqb_neq in Hc. congruence.
  - rewrite Heq. apply deliver_writable.
Qed.

Lemma cids_omap_deliver sent (clients : list Client) id :
  id ∈ map cid (omap (deliver sent) clients) -> id ∈ map cid clients.
Proof.
  intros Hin. apply list_elem_of_fmap in Hin as (c' & -> & Hc').
  apply deliver_in in Hc' as (c & Hc & _ & -> & _).
  apply list_elem_of_fmap. by exists c.
Qed.

(** A rebuild tells the clients each projection it replaces: all three
    when it returns, the members alone when it throws. *)
Lemma rebuild_sseClients s :
  sseClients (fst (rebuildFromHistory s)) =
  omap (deliver
          (members_updated (Map_values (rebuild_members (eventHistory s))) ::
           match rebuild_plants (eventHistory s) with
           | Returned plants =>
               [plants_updated (Map_values plants);
                messages_updated (Map_values (rebuild_messages (eventHistory s)))]
           | Threw _ => []
           end))
       (sseClients s).
Proof.
  unfold rebuildFromHistory, messages_next, plants_next, members_next,
    broadcastToSSEClients, getEvents.
  destruct (rebuild_plants (eventHistory s));
    cbn [fst sseClients set_sseClients set_members set_plants set_messages eventHistory];
    by rewrite !client_write_deliver, ?omap_deliver_app.
Qed.

Lemma persist_resume_sseClients i r s :
  sseClients (fst (persist_resume i r s)) = sseClients s.
Proof. apply persist_resume_frame. Qed.

Lemma cids_res_write id message (clients clients' : list Client) :
  res_write id message clients = Some clients' -> map cid clients' = map cid clients.
Proof.
  unfold res_write. revert clients'.
  induction clients as [|c clients IH]; intros clients' Hw.
  - by injection Hw as <-.
  - simpl in Hw.
    destruct (if decide (cid c = id) then client_write message c else Some c)
      as [c1|] eqn:Hc; [|discriminate]. simpl in Hw.
    destruct (mapM _ clients) as [rest|] eqn:Hrest; [|discriminate]. simpl in Hw.
    injection Hw as <-. simpl. f_equal; [|by apply IH].
    destruct (decide (cid c = id)); [|by injection Hc as <-].
    unfold client_write in Hc. destruct (writable c); [|discriminate]. by injection Hc as <-.
Qed.

Lemma cids_step s a id :
  id ∈ map cid (sseClients (step s a)) ->
  id ∈ map cid (sseClients s) \/ connects id a = true.
Proof.
  destruct a as [event|i r| |res|id'|id'|i|i k]; cbn [step connects].
  - rewrite append_sync_sseClients. intros H. left. by eapply cids_omap_deliver.
  - rewrite persist_resume_sseClients. auto.
  - rewrite rebuild_sseClients. intros H. left. by eapply cids_omap_deliver.
  - unfold events_route.
    destruct (res_write _ _ _) as [clients|] eqn:Hw; cbn [fst sseClients set_sseClients].
    + rewrite (cids_res_write _ _ _ _ Hw). cbn [sseClients set_sseClients].
      unfold Set_add. case_bool_decide; [auto|].
      rewrite map_app. intros Hin. apply elem_of_app in Hin as [Hin|Hin]; [auto|].
      right. apply list_elem_of_singleton in Hin. by apply Nat.eqb_eq.
    + unfold Set_add. case_bool_decide; [auto|].
      rewrite map_app. intros Hin. apply elem_of_app in Hin as [Hin|Hin]; [auto|].
      right. apply list_elem_of_singleton in Hin. by apply Nat.eqb_eq.
  - unfold on_close, Set_delete. cbn [sseClients set_sseClients]. intros Hin. left.
    apply list_elem_of_fmap in Hin as (c & -> & Hc).
    apply list_elem_of_In, filter_In in Hc as [Hc _].
    apply list_elem_of_fmap. exists c. split; [done|]. by apply list_elem_of_In.
  - unfold connection_breaks. cbn [sseClients set_sseClients]. intros Hin. left.
    rewrite map_map in Hin.
    erewrite map_ext in Hin; [exact Hin|]. intros c. simpl. by destruct (decide _).
  - destruct (writeFile_open_frame i s) as (_ & _ & _ & _ & _ & _ & _ & _ & ->). auto.
  - destruct (writeFile_write_frame i k s) as (_ & _ & _ & _ & _ & _ & _ & _ & ->). auto.
Qed.

(** Once the close handler of a response has run, nothing registers it
    again but a new request to [GET /events]: through appends, rebuilds,
    settling writes and other clients it stays out of [sseClients], so
    nothing is written to it any more. *)
Theorem closed_client_stays_out (id : nat) (acts : list Action) (s : Server) :
  forallb (fun a => negb (connects id a)) acts = true ->
  id ∉ map cid (sseClients (run acts (on_close id s))).
Proof.
  intros Hacts.
  assert (id ∉ map cid (sseClients (on_close id s))) as H0.
  { unfold on_close, Set_delete. cbn [sseClients set_sseClients]. intros Hin.
    apply list_elem_of_fmap in Hin as (c & Hid & Hc).
    apply list_elem_of_In, filter_In in Hc as [_ Hc].
    apply negb_true_iff, Nat.eqb_neq in Hc. congruence. }
  generalize dependent (on_close id s). induction acts as [|a acts IH]; intros s0 Hs0.
  - exact Hs0.
  - simpl in Hacts. apply andb_true_iff in Hacts as [Ha Hacts].
    simpl. apply IH; [done|]. intros Hin.
    apply cids_step in Hin as [Hin|Hin]; [done|].
    rewrite Hin in Ha. discriminate.
Qed.

Lemma closed_client_stays_out_witness :
  let s := fst (events_route (Scenario.browser 7) Scenario.one_client) in
  let acts := Scenario.four_events ++ [CallRebuild; Connects (Scenario.browser 8)] in
  forallb (fun a => negb (connects 7 a)) acts = true /\
  map cid (sseClients s) = [0; 7] /\
  7 ∉ map cid (sseClients (run acts (on_close 7 s))).
Proof.
  intros s acts. split; [reflexivity|]. split; [vm_compute; reflexivity|].
  exact (closed_client_stays_out 7 acts s eq_refl).
Defined.

(** ** What a command leaves in the projections *)

Lemma assoc_get_set_eq {K V} `{EqDecision K} (k : K) (v : V) (m : list (K * V)) :
  assoc_get k (assoc_set k v m) = Some v.
Proof.
  induction m as [|[k' v'] m IH]; simpl.
  - by destruct (decide (k = k)).
  - destruct (decide (k' = k)) as [->|Hne]; simpl.
    + by destruct (decide (k = k)).
    + by destruct (decide (k' = k)).
Qed.

Lemma assoc_delete_snoc {K V} `{EqDecision K} (k : K) (v : V) (m : list (K * V)) :
  k ∉ keys m -> assoc_delete k (m ++ [(k, v)]) = m.
Proof.
  induction m as [|[k' v'] m IH]; simpl; intros Hk.
  - by destruct (decide (k = k)).
  - apply not_elem_of_cons in Hk as [Hne Hk].
    destruct (decide (k' = k)); [congruence|]. by rewrite IH.
Qed.

Lemma assoc_get_set_ne {K V} `{EqDecision K} (k k' : K) (v : V) (m : list (K * V)) :
  k' <> k -> assoc_get k' (assoc_set k v m) = assoc_get k' m.
Proof.
  intros Hne. induction m as [|[k0 v0] m IH]; simpl.
  - destruct (decide (k = k')); [congruence|done].
  - destruct (decide (k0 = k)) as [->|]; simpl.
    + destruct (decide (k = k')); [congruence|done].
    + destruct (decide (k0 = k')); [done|]. apply IH.
Qed.

Lemma Map_new_wf {V} (m : JsMap V) : Map_wf (Map_new m).
Proof. apply assoc_of_pairs_NoDup. Qed.

Lemma command_sync_state f c s ev :
  command_event f c = Returned ev ->
  command_sync f c s = (fst (append_sync ev s), Returned (snd (append_sync ev s))).
Proof. unfold command_sync. by intros ->. Qed.

(** Right after the synchronous part of a creating command, its
    projection holds the new entity under its id. *)
Lemma entry_held_after_sync f c s ev :
  command_event f c = Returned ev ->
  creates c = true ->
  entry_held c (payload_id (payload ev)) (payload ev) (fst (command_sync f c s)).
Proof.
  intros Hev Hc. rewrite (command_sync_state _ _ _ _ Hev). cbn [fst].
  unfold entry_held.
  destruct c as [[d|]|[d|] m|[d|] m|[d|]|p m]; try discriminate;
    simpl in Hev; injection Hev as <-; cbn [projection_for accumulator_for].
  - rewrite append_sync_members_value, append_sync_members_acc.
    change (is_member_event _) with true. cbv iota. split; [done|]. split.
    + apply assoc_set_NoDup, Map_new_wf.
    + apply assoc_get_set_eq.
  - rewrite append_sync_plants_value, append_sync_plants_acc.
    change (is_plant_event _) with true. cbv iota. split; [done|].
    unfold plants_reducer. change (event_type _) with PLANT_OFFERED.
    change (String.eqb PLANT_OFFERED PLANT_OFFERED) with true. cbn [orb]. split.
    + apply assoc_set_NoDup, Map_new_wf.
    + apply assoc_get_set_eq.
  - rewrite append_sync_plants_value, append_sync_plants_acc.
    change (is_plant_event _) with true. cbv iota. split; [done|].
    unfold plants_reducer. change (event_type _) with PLANT_WANTED.
    change (String.eqb PLANT_WANTED PLANT_OFFERED) with false.
    change (String.eqb PLANT_WANTED PLANT_WANTED) with true. cbn [orb]. split.
    + apply assoc_set_NoDup, Map_new_wf.
    + apply assoc_get_set_eq.
  - rewrite append_sync_messages_value, append_sync_messages_acc.
    change (is_message_event _) with true. cbv iota. split; [done|]. split.
    + apply assoc_set_NoDup, Map_new_wf.
    + apply assoc_get_set_eq.
Qed.

Lemma setting_reducer_keeps id entity m e :
  Map_wf m -> Map_get id m = Some entity -> payload_id (payload e) <> id ->
  Map_wf (members_reducer m e) /\ Map_get id (members_reducer m e) = Some entity.
Proof.
  intros Hwf Hget Hne. split; [by apply members_reducer_wf|].
  rewrite members_reducer_set by done. unfold Map_get, Map_set.
  by rewrite assoc_get_set_ne.
Qed.

Lemma plants_reducer_keeps id entity m e :
  Map_wf m -> Map_get id m = Some entity -> names_id id e = false ->
  Map_wf (plants_reducer m e) /\ Map_get id (plants_reducer m e) = Some entity.
Proof.
  intros Hwf Hget Hn. split; [by apply plants_reducer_wf|].
  apply orb_false_iff in Hn as [Hid Hpl].
  apply bool_decide_eq_false in Hid. apply bool_decide_eq_false in Hpl.
  unfold plants_reducer. rewrite Map_new_copy by done.
  destruct (_ || _).
  - unfold Map_get, Map_set. by rewrite assoc_get_set_ne.
  - destruct (String.eqb _ _); [|done].
    unfold Map_get, Map_delete. by rewrite assoc_get_delete_ne.
Qed.

Lemma entry_held_step c id entity s a :
  leaves_entry id a = true -> entry_held c id entity s -> entry_held c id entity (step s a).
Proof.
  intros Ha (Hv & Hwf & Hget). unfold entry_held.
  destruct a as [event|i r| |res|id'|id'|i|i k]; cbn [step leaves_entry] in *;
    try discriminate.
  - apply negb_true_iff in Ha.
    set (e := with_sequenceNumber event (length (eventHistory s) + 1)).
    assert (names_id id e = false) as He by exact Ha.
    assert (payload_id (payload e) <> id) as Hne.
    { apply orb_false_iff in He as [He _]. by apply bool_decide_eq_false in He. }
    destruct c as [d|d m|d m|d|p m]; cbn [projection_for accumulator_for] in *.
    + rewrite append_sync_members_value, append_sync_members_acc. fold e.
      destruct (is_member_event e); [|done]. split; [done|].
      by apply setting_reducer_keeps.
    + rewrite append_sync_plants_value, append_sync_plants_acc. fold e.
      destruct (is_plant_event e); [|done]. split; [done|].
      by apply plants_reducer_keeps.
    + rewrite append_sync_plants_value, append_sync_plants_acc. fold e.
      destruct (is_plant_event e); [|done]. split; [done|].
      by apply plants_reducer_keeps.
    + rewrite append_sync_messages_value, append_sync_messages_acc. fold e.
      destruct (is_message_event e); [|done]. split; [done|].
      by apply setting_reducer_keeps.
    + rewrite append_sync_plants_value, append_sync_plants_acc. fold e.
      destruct (is_plant_event e); [|done]. split; [done|].
      by apply plants_reducer_keeps.
  - destruct (persist_resume_frame i r s) as (_ & Am & Ap & Ag & Vm & Vp & Vg & _).
    destruct c; cbn [projection_for accumulator_for] in *;
      rewrite ?Am, ?Ap, ?Ag, ?Vm, ?Vp, ?Vg; done.
  - destruct (events_route_values res s) as (Vm & Vp & Vg).
    assert (members_acc (fst (events_route res s)) = members_acc s /\
            plants_acc (fst (events_route res s)) = plants_acc s /\
            messages_acc (fst (events_route res s)) = messages_acc s) as (Am & Ap & Ag).
    { unfold events_route. by case_match. }
    destruct c; cbn [projection_for accumulator_for] in *;
      rewrite ?Am, ?Ap, ?Ag, ?Vm, ?Vp, ?Vg; done.
  - by destruct c.
  - by destruct c.
  - destruct (writeFile_open_frame i s) as (_ & _ & Am & Ap & Ag & Vm & Vp & Vg & _).
    destruct c; cbn [projection_for accumulator_for] in *;
      rewrite ?Am, ?Ap, ?Ag, ?Vm, ?Vp, ?Vg; done.
  - destruct (writeFile_write_frame i k s) as (_ & _ & Am & Ap & Ag & Vm & Vp & Vg & _).
    destruct c; cbn [projection_for accumulator_for] in *;
      rewrite ?Am, ?Ap, ?Ag, ?Vm, ?Vp, ?Vg; done.
Qed.

(** Read your writes.  From the moment a command that creates an entity
    has notified its listeners -- before its write has even started -- the
    projection it writes to maps the id of the entity to the payload of
    its event, on any server state.  It still does when the command
    returns, and later, whatever has run in between (appends of other
    commands, writes that open the file, write, settle or fail, clients
    coming and going), as long as no event appended in between names that
    id and no rebuild ran. *)
Theorem created_entity_is_visible (f : Fresh) (c : Command) (s : Server) (ev : Event)
    (acts : list Action) :
  command_event f c = Returned ev ->
  creates c = true ->
  forallb (leaves_entry (payload_id (payload ev))) acts = true ->
  let s1 := fst (command_sync f c s) in
  snd (command_sync f c s)
  = Returned (with_sequenceNumber ev (length (eventHistory s) + 1)) /\
  Map_get (payload_id (payload ev)) (projection_for c s1) = Some (payload ev) /\
  Map_get (payload_id (payload ev)) (projection_for c (run acts s1)) = Some (payload ev).
Proof.
  intros Hev Hc Hacts s1.
  pose proof (entry_held_after_sync f c s ev Hev Hc) as H1. fold s1 in H1.
  split; [by rewrite (command_sync_state _ _ _ _ Hev)|].
  assert (forall s0, entry_held c (payload_id (payload ev)) (payload ev) s0 ->
            Map_get (payload_id (payload ev)) (projection_for c s0) = Some (payload ev))
    as Hshow.
  { intros s0 (Hv & _ & Hget). by rewrite Hv. }
  split; [by apply Hshow|]. apply Hshow.
  clear Hshow. revert H1. generalize s1. clear s1.
  induction acts as [|a acts IH]; intros s1 H1; [done|].
  simpl in Hacts. apply andb_true_iff in Hacts as [Ha Hacts].
  simpl. apply IH; [done|]. by apply entry_held_step.
Qed.

Lemma created_entity_is_visible_witness :
  let f := Scenario.fresh "P9" "E9" "t9" in
  let c := RequestPlant (Some Scenario.fern) (Str "M1") in
  let s := boot Scenario.old_file in
  let acts := [CallAppend Scenario.draft_remove_P1; WriteOpens 1; CallAppend Scenario.draft_M2;
               WriteSettles 0 (IoFail "EIO"); Connects (Scenario.browser 2);
               WriteSettles 0 IoOk] in
  exists ev,
    command_event f c = Returned ev /\
    forallb (leaves_entry (Str "P9")) acts = true /\
    Map_get (Str "P9") (plants_value (run acts (fst (command_sync f c s))))
    = Some (payload ev).
Proof.
  intros f c s acts. eexists. split; [reflexivity|]. split; [reflexivity|].
  exact (proj2 (proj2 (created_entity_is_visible f c s _ acts eq_refl eq_refl eq_refl))).
Defined.

(** A removal that names the new plant and is appended before the offer
    returns: the caller is handed the event of a plant that is no longer
    listed. *)
Example removal_before_return_hides_the_offer :
  let f := Scenario.fresh "P9" "E9" "t9" in
  let s1 := fst (command_sync f (OfferPlant (Some Scenario.fern) (Str "M1")) (boot None)) in
  let remove := createEvent "E10" "t10" PLANT_REMOVED (PRemoval (Str "P9")) (Str "M2") in
  let s2 := run [CallAppend remove] s1 in
  Map_has (Str "P9") (plants_value s1) = true /\
  (exists e, snd (append_resume 0 IoOk (with_sequenceNumber
                (createEvent "E9" "t9" PLANT_OFFERED
                   (PPlant (createPlant "P9" "t9" (Str "Fern") (Str "cutting")
                              (Str "houseplants") (Str "M1") (Str "offer"))) (Str "M1")) 1)
                s2) = Returned e /\ payload_id (payload e) = Str "P9") /\
  Map_has (Str "P9") (plants_value (fst (persist_resume 0 IoOk s2))) = false.
Proof.
  split; [vm_compute; reflexivity|]. split; [|vm_compute; reflexivity].
  eexists. split; [apply append_resume_returns|reflexivity].
Qed.

(** Offer, then remove: on a server whose plants projection is what its
    pipeline emitted last, offering a plant under an id the projection does
    not hold yet and then removing that id gives back the plants projection
    as it was, entry for entry and in the same order. *)
Theorem offer_then_remove_restores_plants (f1 f2 : Fresh) (r1 r2 : IoResult)
    (d : PlantData) (m1 m2 : JsVal) (s : Server) :
  plants_value s = plants_acc s ->
  Map_wf (plants_value s) ->
  Str (entity_uuid f1) ∉ keys (plants_value s) ->
  let s1 := fst (offerPlant f1 r1 (Some d) m1 s) in
  let s2 := fst (removePlant f2 r2 (Str (entity_uuid f1)) m2 s1) in
  Map_has (Str (entity_uuid f1)) (plants_value s1) = true /\
  plants_value s2 = plants_value s.
Proof.
  intros Hv Hwf Hfresh s1 s2. rewrite Hv in Hwf, Hfresh.
  set (plant := PPlant (createPlant (entity_uuid f1) (entity_now f1) (data_plant_name d)
                          (data_description d) (data_category d) m1 (Str "offer"))).
  assert (plants_acc s1 = plants_acc s ++ [(Str (entity_uuid f1), plant)]) as Hacc.
  { subst s1. unfold offerPlant, offerPlant_event, then_append.
    rewrite append_plants_acc, append_sync_plants_acc.
    change (is_plant_event _) with true. cbv iota.
    rewrite plants_reducer_offer; [|done|reflexivity].
    by apply assoc_set_fresh. }
  assert (plants_value s1 = plants_acc s1) as Hv1.
  { subst s1. unfold offerPlant, offerPlant_event, then_append.
    rewrite append_plants_value, append_plants_acc, append_sync_plants_value,
      append_sync_plants_acc.
    by change (is_plant_event _) with true. }
  assert (Map_wf (plants_acc s1)) as Hwf1.
  { rewrite Hacc. unfold Map_wf, keys. rewrite map_app. apply NoDup_app.
    split; [done|]. split; [|apply NoDup_singleton].
    intros x Hx Hx'. apply list_elem_of_singleton in Hx'. by subst. }
  split.
  - rewrite Hv1, Hacc. unfold Map_has, keys. apply bool_decide_eq_true.
    rewrite map_app. apply elem_of_app. right. by left.
  - subst s2. unfold removePlant, removePlant_event, then_append.
    rewrite append_plants_value, append_sync_plants_value.
    change (is_plant_event _) with true. cbv iota.
    rewrite plants_reducer_removed; [|done|reflexivity].
    cbn [payload_plantId payload with_sequenceNumber createEvent].
    rewrite Hacc, Hv. unfold Map_delete. by apply assoc_delete_snoc.
Qed.

Lemma offer_then_remove_restores_plants_witness :
  let s := run Scenario.four_events (boot None) in
  let f1 := Scenario.fresh "P9" "E9" "t9" in
  let f2 := Scenario.fresh "X" "E10" "t10" in
  plants_value s = plants_acc s /\
  Map_wf (plants_value s) /\
  (Str (entity_uuid f1) ∉ keys (plants_value s)) /\
  plants_value (fst (removePlant f2 IoOk (Str "P9") (Str "M1")
                       (fst (offerPlant f1 IoOk (Some Scenario.fern) (Str "M1") s))))
  = plants_value s.
Proof.
  intros s f1 f2.
  assert (plants_value s = plants_acc s) as Hv by (vm_compute; reflexivity).
  assert (Map_wf (plants_value s)) as Hwf.
  { vm_compute. apply NoDup_singleton. }
  assert (Str (entity_uuid f1) ∉ keys (plants_value s)) as Hfresh.
  { vm_compute. intros Hin. apply list_elem_of_singleton in Hin. discriminate. }
  split; [exact Hv|]. split; [exact Hwf|]. split; [exact Hfresh|].
  exact (proj2 (offer_then_remove_restores_plants f1 f2 IoOk IoOk Scenario.fern
                  (Str "M1") (Str "M1") s Hv Hwf Hfresh)).
Defined.

(** ** What replay and the pipelines hold *)

Lemma insert_by_index_elem {V} (n : N) (kv : string * V) l x :
  x ∈ insert_by_index n kv l <-> x = (n, kv) \/ x ∈ l.
Proof.
  induction l as [|[n' kv'] l IH]; simpl.
  - rewrite list_elem_of_singleton. split; [auto|]. intros [H|H]; [done|].
    by apply elem_of_nil in H.
  - destruct (n <? n')%N.
    + by rewrite elem_of_cons.
    + rewrite !elem_of_cons, IH. tauto.
Qed.

Lemma Object_entries_elem {V} (o : JsObject V) kv : kv ∈ Object_entries o -> kv ∈ o.
Proof.
  unfold Object_entries. intros Hin. apply elem_of_app in Hin as [Hin|Hin].
  - apply list_elem_of_fmap in Hin as ([n kv'] & -> & Hin). simpl.
    induction o as [|kv0 o IH]; simpl in Hin; [by apply elem_of_nil in Hin|].
    destruct (array_index (fst kv0)).
    + apply insert_by_index_elem in Hin as [Heq|Hin].
      * injection Heq as _ ->. left.
      * right. by apply IH.
    + right. by apply IH.
  - unfold string_entries in Hin. apply list_elem_of_In, filter_In in Hin as [Hin _].
    by apply list_elem_of_In.
Qed.

Lemma R_omit_kept {V} (names : list JsVal) (o kept : JsObject V) kv :
  R_omit names o = Returned kept -> kv ∈ kept ->
  kv ∈ o /\ (fst kv ∉ keys (omit_index names)) /\ fst kv <> "__proto__".
Proof.
  unfold R_omit. destruct (Object_entries o) as [|kv0 props] eqn:Ho.
  - intros H. injection H as <-. intros Hin. by apply elem_of_nil in Hin.
  - remember (kv0 :: props) as all eqn:Hall.
    case_bool_decide; [discriminate|]. intros Heq. injection Heq as <-. intros Hin.
    apply list_elem_of_In, filter_In in Hin as [Hin Hq].
    apply andb_true_iff in Hq as [Hq Hp].
    apply negb_true_iff, bool_decide_eq_false in Hq.
    apply negb_true_iff, String.eqb_neq in Hp.
    split; [|done]. apply Object_entries_elem. rewrite Ho. by apply list_elem_of_In.
Qed.

(** When replay returns, it has left out every plant id a removal event
    names, wherever the removal stands in the log: also a plant offered
    again after its removal is missing from the rebuilt projection. *)
Theorem rebuild_omits_every_removed_id (s : Server) (id : JsVal) :
  snd (rebuildFromHistory s) = Returned tt ->
  id ∈ removed_ids (eventHistory s) ->
  Map_has (Str (ToPropertyKey id)) (plants_value (fst (rebuildFromHistory s))) = false.
Proof.
  rewrite rebuild_outcome, rebuild_plants_value.
  destruct (rebuild_plants (eventHistory s)) as [plants|error] eqn:Hplants; [|discriminate].
  intros _ Hid. unfold Map_has. apply bool_decide_eq_false. intros Hin.
  unfold rebuild_plants in Hplants. fold (removed_ids (eventHistory s)) in Hplants.
  destruct (R_omit _ _) as [kept|] eqn:Hkept; [|discriminate]. injection Hplants as <-.
  unfold Map_of_object, Map_new in Hin.
  apply assoc_of_pairs_keys in Hin.
  apply list_elem_of_fmap in Hin as ([k v] & Hk & Hin). simpl in Hk. subst k.
  apply list_elem_of_fmap in Hin as ([key v'] & Heq & Hin). simpl in Heq.
  injection Heq as Hs _. subst key.
  apply Object_entries_elem in Hin.
  destruct (R_omit_kept _ _ _ _ Hkept Hin) as (_ & Hout & Hproto). simpl in Hout, Hproto.
  apply Hout, omit_index_keys. split; [done|].
  apply list_elem_of_fmap. by exists id.
Qed.

Lemma rebuild_omits_every_removed_id_witness :
  let s := run Scenario.offered_again (boot None) in
  snd (rebuildFromHistory s) = Returned tt /\
  Str "P1" ∈ removed_ids (eventHistory s) /\
  map event_type (eventHistory s) = [PLANT_OFFERED; PLANT_REMOVED; PLANT_OFFERED] /\
  Map_has (Str "P1") (plants_value (fst (rebuildFromHistory s))) = false /\
  Map_has (Str "P1") (plants_value s) = true.
Proof.
  intros s.
  assert (snd (rebuildFromHistory s) = Returned tt) as Hr by (vm_compute; reflexivity).
  assert (Str "P1" ∈ removed_ids (eventHistory s)) as Hin by (vm_compute; left).
  split; [exact Hr|]. split; [exact Hin|]. split; [vm_compute; reflexivity|]. split.
  - exact (rebuild_omits_every_removed_id s (Str "P1") Hr Hin).
  - vm_compute. reflexivity.
Defined.

Lemma fold_members_pairs events :
  fold_members events = assoc_of_pairs (entity_pairs (List.filter is_member_event events)).
Proof.
  unfold fold_members, fold_projection.
  by rewrite fold_setting_reducer by apply Map_wf_empty.
Qed.

Lemma fold_messages_pairs events :
  fold_messages events = assoc_of_pairs (entity_pairs (List.filter is_message_event events)).
Proof.
  unfold fold_messages, fold_projection. change messages_reducer with members_reducer.
  by rewrite fold_setting_reducer by apply Map_wf_empty.
Qed.

Lemma keys_entity_pairs events :
  keys (entity_pairs events) = map (fun e => payload_id (payload e)) events.
Proof. unfold keys, entity_pairs. by rewrite map_map. Qed.

Lemma values_entity_pairs events : Map_values (entity_pairs events) = map payload events.
Proof. unfold Map_values, entity_pairs. by rewrite map_map. Qed.

(** On a server started without a stored log and not rebuilt by hand, as
    long as the entities in the log have pairwise distinct ids and no plant
    id is offered again after its removal, the snapshots list the log: the
    members are the payloads of the registration events in log order, the
    messages those of the send events, and the plants those of the offer
    and want events whose id no removal event names. *)
Theorem snapshots_list_the_log (acts : list Action) :
  forallb (fun a => negb (is_rebuild a)) acts = true ->
  let s := run acts (boot None) in
  let h := eventHistory s in
  NoDup (map (fun e => payload_id (payload e)) (List.filter is_member_event h)) ->
  NoDup (map (fun e => payload_id (payload e)) (List.filter is_message_event h)) ->
  NoDup (map (fun e => payload_id (payload e)) (List.filter is_offer_event h)) ->
  never_reoffered h = true ->
  state_members (getCurrentState s) = map payload (List.filter is_member_event h) /\
  state_messages (getCurrentState s) = map payload (List.filter is_message_event h) /\
  plants_value s = filter (fun kv => fst kv ∉ removed_ids h)
                     (entity_pairs (List.filter is_offer_event h)).
Proof.
  intros Hacts s h Hm Hg Hp Hnever.
  destruct (fresh_run_values_are_folds acts Hacts) as (Vm & Vp & Vg).
  fold s in Vm, Vp, Vg. fold h in Vm, Vp, Vg.
  cbn [getCurrentState state_members state_messages]. rewrite Vm, Vg, Vp.
  split; [|split].
  - rewrite fold_members_pairs, assoc_of_pairs_id by (by rewrite keys_entity_pairs).
    apply values_entity_pairs.
  - rewrite fold_messages_pairs, assoc_of_pairs_id by (by rewrite keys_entity_pairs).
    apply values_entity_pairs.
  - rewrite fold_plants_offered_minus_removed by done. unfold offered_minus_removed.
    by rewrite assoc_of_pairs_id by (by rewrite keys_entity_pairs).
Qed.

Lemma snapshots_list_the_log_witness :
  let s := run Scenario.five_events (boot None) in
  let h := eventHistory s in
  forallb (fun a => negb (is_rebuild a)) Scenario.five_events = true /\
  NoDup (map (fun e => payload_id (payload e)) (List.filter is_offer_event h)) /\
  never_reoffered h = true /\
  state_members (getCurrentState s) = [Scenario.member_M1; Scenario.member_M2] /\
  plants_value s = [(Str "P2", Scenario.plant_P2)].
Proof.
  intros s h.
  assert (NoDup (map (fun e => payload_id (payload e)) (List.filter is_member_event h)))
    as Hm by (apply (bool_decide_unpack _); vm_compute; exact I).
  assert (NoDup (map (fun e => payload_id (payload e)) (List.filter is_message_event h)))
    as Hg by (apply (bool_decide_unpack _); vm_compute; exact I).
  assert (NoDup (map (fun e => payload_id (payload e)) (List.filter is_offer_event h)))
    as Hp by (apply (bool_decide_unpack _); vm_compute; exact I).
  assert (never_reoffered h = true) as Hn by (vm_compute; reflexivity).
  destruct (snapshots_list_the_log Scenario.five_events eq_refl Hm Hg Hp Hn)
    as (Sm & _ & Sp).
  split; [reflexivity|]. split; [exact Hp|]. split; [exact Hn|]. split.
  - etrans; [exact Sm|]. vm_compute. reflexivity.
  - etrans; [exact Sp|]. vm_compute. reflexivity.
Defined.

(** ** The stats route *)

Lemma split_by_type (plants : list Payload) :
  Forall (fun p => offer_or_wanted p = true) plants ->
  length (List.filter (fun p => bool_decide (payload_type p = Str "offer")) plants)
  + length (List.filter (fun p => bool_decide (payload_type p = Str "wanted")) plants)
  = length plants.
Proof.
  induction 1 as [|p plants Hp _ IH]; simpl; [done|].
  unfold offer_or_wanted in Hp.
  destruct (decide (payload_type p = Str "offer")) as [Ho|Ho].
  - rewrite (bool_decide_eq_true_2 _ Ho).
    rewrite bool_decide_eq_false_2 by (rewrite Ho; discriminate). simpl. lia.
  - rewrite (bool_decide_eq_false_2 _ Ho) in *. simpl in Hp. rewrite Hp. simpl. lia.
Qed.

Lemma run_app acts1 acts2 s : run (acts1 ++ acts2) s = run acts2 (run acts1 s).
Proof. unfold run. apply fold_left_app. Qed.

Lemma append_as_steps r event s :
  fst (append r event s) =
  run [CallAppend event; WriteSettles (length (pending s)) r] s.
Proof.
  rewrite append_split. unfold append_resume. cbn [run fold_left step].
  by destruct (persist_resume _ _ _) as [s' [?|?]].
Qed.

(** A call of a command method is the synchronous part of its [append]
    followed by the settling of its write, or nothing at all. *)
Lemma calls_as_run (cs : list Call) (s : Server) :
  exists acts,
    forallb (fun a => negb (is_rebuild a)) acts = true /\ calls cs s = run acts s.
Proof.
  revert s. induction cs as [|c cs IH]; intros s.
  - by exists [].
  - simpl. destruct (IH (call s c)) as (acts & Hacts & ->).
    unfold call. rewrite run_command_event.
    destruct (command_event (call_fresh c) (call_command c)) as [ev|err]; cbn [then_append fst].
    + exists ([CallAppend ev; WriteSettles (length (pending s)) (call_answer c)] ++ acts).
      split; [done|]. by rewrite run_app, append_as_steps.
    + by exists acts.
Qed.

Lemma command_event_appends f c :
  (exists ev, command_event f c = Returned ev) <-> has_input_object c = true.
Proof.
  destruct c as [[d|]|[d|] m|[d|] m|[d|]|p m]; simpl; split;
    try done; try (intros [ev H]; discriminate); by eexists.
Qed.

Lemma command_event_shape f c ev n :
  command_event f c = Returned ev ->
  is_offer_event (with_sequenceNumber ev n) = true ->
  offer_or_wanted (payload (with_sequenceNumber ev n)) = true.
Proof.
  destruct c as [[d|]|[d|] m|[d|] m|[d|]|p m]; simpl; intros Hev; try discriminate;
    injection Hev as <-; intros Ho; try discriminate; reflexivity.
Qed.

Lemma calls_eventHistory (cs : list Call) (s : Server) :
  Forall (fun e => is_offer_event e = true -> offer_or_wanted (payload e) = true)
         (eventHistory s) ->
  Forall (fun e => is_offer_event e = true -> offer_or_wanted (payload e) = true)
         (eventHistory (calls cs s)) /\
  length (eventHistory (calls cs s)) = length (eventHistory s) + length (List.filter appends cs).
Proof.
  revert s. induction cs as [|c cs IH]; intros s Hs; simpl; [split; [done|lia]|].
  assert (Forall (fun e => is_offer_event e = true -> offer_or_wanted (payload e) = true)
            (eventHistory (call s c)) /\
          length (eventHistory (call s c))
          = length (eventHistory s) + (if appends c then 1 else 0)) as [Hc Hl].
  { unfold call, appends. rewrite run_command_event.
    destruct (command_event (call_fresh c) (call_command c)) as [ev|err] eqn:Hev;
      cbn [then_append fst].
    - rewrite (proj1 (command_event_appends _ _)) by (by exists ev).
      rewrite append_eventHistory, length_app. simpl. split; [|done].
      apply Forall_app. split; [done|]. apply Forall_singleton.
      by apply (command_event_shape _ _ _ _ Hev).
    - destruct (has_input_object (call_command c)) eqn:Hin.
      + apply command_event_appends with (f := call_fresh c) in Hin as [ev Hev'].
        congruence.
      + split; [done|lia]. }
  destruct (IH (call s c) Hc) as [HF HL]. split; [exact HF|].
  rewrite HL, Hl. destruct (appends c); simpl; lia.
Qed.

Lemma assoc_set_values_elem {K V} `{EqDecision K} (k : K) (v : V) (m : list (K * V)) x :
  x ∈ map snd (assoc_set k v m) -> x = v \/ x ∈ map snd m.
Proof.
  induction m as [|[k' v'] m IH]; simpl.
  - intros H. apply list_elem_of_singleton in H. auto.
  - destruct (decide (k' = k)); simpl; rewrite !elem_of_cons; [tauto|].
    intros [H|H]; [auto|]. destruct (IH H); auto.
Qed.

Lemma assoc_delete_values_elem {K V} `{EqDecision K} (k : K) (m : list (K * V)) x :
  x ∈ map snd (assoc_delete k m) -> x ∈ map snd m.
Proof.
  induction m as [|[k' v'] m IH]; simpl; [done|].
  destruct (decide (k' = k)); simpl; rewrite ?elem_of_cons; [auto|].
  intros [H|H]; auto.
Qed.

(** Every plant the live fold holds is the payload of an offer or want
    event of the log. *)
Lemma fold_plants_from_offers (events : list Event) (p : Payload) :
  p ∈ Map_values (fold_plants events) ->
  exists e, e ∈ events /\ is_offer_event e = true /\ payload e = p.
Proof.
  induction events as [|e events IH] using rev_ind.
  - intros H. by apply elem_of_nil in H.
  - assert (Map_wf (fold_plants events)) as Hwf.
    { apply fold_projection_wf. intros m e'. apply plants_reducer_wf. }
    unfold fold_plants in *. rewrite fold_projection_snoc, is_plant_event_kinds.
    assert (forall x, (exists e0, e0 ∈ events /\ is_offer_event e0 = true /\ payload e0 = x) ->
                      exists e0, e0 ∈ events ++ [e] /\ is_offer_event e0 = true /\ payload e0 = x)
      as Hmono.
    { intros x (e0 & H0 & H1 & H2). exists e0. split; [|done].
      apply elem_of_app. by left. }
    destruct (is_offer_event e) eqn:Ho; simpl.
    + rewrite plants_reducer_offer by done. intros Hp.
      apply assoc_set_values_elem in Hp as [->|Hp]; [|by apply Hmono, IH].
      exists e. split; [|done]. apply elem_of_app. right. left.
    + destruct (is_removal_event e) eqn:Hr; [|by intros Hp; apply Hmono, IH].
      rewrite plants_reducer_removed; [|done|by apply String.eqb_eq].
      intros Hp. apply assoc_delete_values_elem in Hp. by apply Hmono, IH.
Qed.

(** After any calls of the command methods on a server started without a
    stored log, the stats add up: every listed plant is counted either as
    offered or as wanted, and [totalEvents] is the number of calls that were
    given a request object, whether their writes succeeded or not. *)
Theorem stats_add_up_after_commands (cs : list Call) :
  let st := api_stats (calls cs (boot None)) in
  plantsOffered st + plantsWanted st = totalPlants st /\
  totalEvents st = length (List.filter appends cs).
Proof.
  intros st. subst st. unfold api_stats, getEvents.
  cbn [plantsOffered plantsWanted totalPlants totalEvents getCurrentState state_plants].
  destruct (calls_eventHistory cs (boot None)) as [Hshape Hlen]; [by constructor|].
  split; [|by rewrite Hlen].
  apply split_by_type.
  destruct (calls_as_run cs (boot None)) as (acts & Hacts & Heq).
  destruct (fresh_run_values_are_folds acts Hacts) as (_ & Vp & _).
  rewrite <- Heq in Vp. rewrite Vp.
  apply Forall_forall. intros p Hp.
  apply fold_plants_from_offers in Hp as (e & He & Ho & <-).
  by apply (proj1 (Forall_forall _ _) Hshape e He).
Qed.

(** ** Sizes *)

Section Sizes.
Context {K V : Type} `{EqDecision K}.
Implicit Types (m : list (K * V)).

Lemma length_assoc_set k v m : length (assoc_set k v m) <= S (length m).
Proof.
  induction m as [|[k' v'] m IH]; simpl; [lia|].
  destruct (decide (k' = k)); simpl; lia.
Qed.

Lemma length_assoc_delete k m : length (assoc_delete k m) <= length m.
Proof.
  induction m as [|[k' v'] m IH]; simpl; [lia|].
  destruct (decide (k' = k)); simpl; lia.
Qed.

Lemma length_assoc_of_pairs (pairs : list (K * V)) :
  length (assoc_of_pairs pairs) <= length pairs.
Proof.
  induction pairs as [|[k v] pairs IH] using rev_ind; [done|].
  rewrite assoc_of_pairs_snoc, length_app. simpl.
  pose proof (length_assoc_set k v (assoc_of_pairs pairs)). lia.
Qed.
End Sizes.

Lemma length_insert_by_index {V} (n : N) (kv : string * V) l :
  length (insert_by_index n kv l) = S (length l).
Proof.
  induction l as [|[n' kv'] l IH]; simpl; [done|].
  destruct (n <? n')%N; simpl; [done|]. by rewrite IH.
Qed.

Lemma length_Object_entries {V} (o : JsObject V) : length (Object_entries o) = length o.
Proof.
  unfold Object_entries, string_entries. rewrite length_app, length_map.
  induction o as [|kv o IH]; simpl; [done|].
  destruct (array_index (fst kv)); simpl.
  - rewrite length_insert_by_index. lia.
  - lia.
Qed.

Lemma length_R_fromPairs {V} (pairs : list (JsVal * V)) :
  length (R_fromPairs pairs) <= length pairs.
Proof.
  induction pairs as [|[k v] pairs IH] using rev_ind; [done|].
  rewrite R_fromPairs_snoc, length_app. simpl. unfold obj_set.
  pose proof (length_assoc_set (ToPropertyKey k) v (R_fromPairs pairs)).
  destruct (String.eqb _ _); lia.
Qed.

Lemma length_Map_of_object {V} (o : JsObject V) : length (Map_of_object o) <= length o.
Proof.
  unfold Map_of_object, Map_new.
  etrans; [apply length_assoc_of_pairs|]. by rewrite length_map, length_Object_entries.
Qed.

Lemma length_filter_le {A} (f : A -> bool) (l : list A) : length (List.filter f l) <= length l.
Proof. induction l as [|x l IH]; simpl; [done|]. destruct (f x); simpl; lia. Qed.

Lemma length_rebuild_members events :
  length (rebuild_members events) <= count_events is_member_event events.
Proof.
  unfold rebuild_members, count_events.
  etrans; [apply length_Map_of_object|]. etrans; [apply length_R_fromPairs|].
  unfold entity_pairs. by rewrite length_map.
Qed.

Lemma length_rebuild_messages events :
  length (rebuild_messages events) <= count_events is_message_event events.
Proof.
  unfold rebuild_messages, count_events.
  etrans; [apply length_Map_of_object|]. etrans; [apply length_R_fromPairs|].
  unfold entity_pairs. by rewrite length_map.
Qed.

Lemma length_R_omit {V} (names : list JsVal) (o kept : JsObject V) :
  R_omit names o = Returned kept -> length kept <= length o.
Proof.
  unfold R_omit. rewrite <- (length_Object_entries o).
  destruct (Object_entries o) as [|kv props].
  - intros Heq. by injection Heq as <-.
  - remember (kv :: props) as all. case_bool_decide; [discriminate|].
    intros Heq. injection Heq as <-. apply length_filter_le.
Qed.

Lemma length_rebuild_plants events plants :
  rebuild_plants events = Returned plants ->
  length plants <= count_events is_offer_event events.
Proof.
  unfold rebuild_plants, count_events.
  destruct (R_omit _ _) as [kept|] eqn:Hkept; [|discriminate].
  intros Heq. injection Heq as <-.
  etrans; [apply length_Map_of_object|]. etrans; [by eapply length_R_omit|].
  etrans; [apply length_R_fromPairs|].
  unfold entity_pairs. by rewrite length_map.
Qed.

Lemma count_events_snoc selects events e :
  count_events selects (events ++ [e])
  = count_events selects events + (if selects e then 1 else 0).
Proof.
  unfold count_events. rewrite List.filter_app, length_app. simpl.
  by destruct (selects e).
Qed.

Lemma count_events_app selects events more :
  count_events selects events <= count_events selects (events ++ more).
Proof. unfold count_events. rewrite List.filter_app, length_app. lia. Qed.

Lemma length_members_reducer m e : length (members_reducer m e) <= S (length m).
Proof.
  unfold members_reducer, Map_set, Map_new.
  etrans; [apply length_assoc_set|]. pose proof (length_assoc_of_pairs m). lia.
Qed.

Lemma length_plants_reducer m e :
  length (plants_reducer m e) <= length m + (if is_offer_event e then 1 else 0).
Proof.
  unfold plants_reducer, is_offer_event, existsb, Map_set, Map_delete, Map_new.
  rewrite orb_false_r. pose proof (length_assoc_of_pairs m).
  destruct (_ || _).
  - etrans; [apply length_assoc_set|]. lia.
  - destruct (String.eqb _ _); [|lia].
    etrans; [apply length_assoc_delete|]. lia.
Qed.

Lemma length_fold_members events :
  length (fold_members events) <= count_events is_member_event events.
Proof.
  induction events as [|e events IH] using rev_ind; [done|].
  unfold fold_members in *. rewrite fold_projection_snoc, count_events_snoc.
  destruct (is_member_event e); [|lia].
  etrans; [apply length_members_reducer|]. lia.
Qed.

Lemma length_fold_messages events :
  length (fold_messages events) <= count_events is_message_event events.
Proof.
  induction events as [|e events IH] using rev_ind; [done|].
  unfold fold_messages in *. rewrite fold_projection_snoc, count_events_snoc.
  destruct (is_message_event e); [|lia].
  change messages_reducer with members_reducer in *.
  etrans; [apply length_members_reducer|]. lia.
Qed.

Lemma length_fold_plants events :
  length (fold_plants events) <= count_events is_offer_event events.
Proof.
  induction events as [|e events IH] using rev_ind; [done|].
  unfold fold_plants in *. rewrite fold_projection_snoc, count_events_snoc.
  destruct (is_plant_event e) eqn:Hp.
  - pose proof (length_plants_reducer (fold_projection is_plant_event plants_reducer events) e)
      as Hl.
    destruct (is_offer_event e); lia.
  - rewrite is_plant_event_kinds in Hp. apply orb_false_iff in Hp as [-> _]. lia.
Qed.

Lemma counts_of_disjoint_types events :
  count_events is_member_event events + count_events is_offer_event events
  + count_events is_message_event events <= length events.
Proof.
  unfold count_events. induction events as [|e events IH]; simpl; [done|].
  destruct (event_types_disjoint e) as [Hm Hp].
  pose proof (is_plant_event_kinds e) as Hk.
  destruct (is_member_event e) eqn:Em.
  - destruct (Hm eq_refl) as [Hpl Hmsg]. rewrite Hmsg. rewrite Hpl in Hk.
    symmetry in Hk. apply orb_false_iff in Hk as [-> _]. simpl. lia.
  - destruct (is_offer_event e) eqn:Eo.
    + rewrite Hp by (by rewrite Hk). simpl. lia.
    + destruct (is_message_event e); simpl; lia.
Qed.

Lemma rebuild_sizes s :
  length (plants_value s) <= count_events is_offer_event (eventHistory s) ->
  length (messages_value s) <= count_events is_message_event (eventHistory s) ->
  let s' := fst (rebuildFromHistory s) in
  length (members_value s') <= count_events is_member_event (eventHistory s') /\
  length (plants_value s') <= count_events is_offer_event (eventHistory s') /\
  length (messages_value s') <= count_events is_message_event (eventHistory s').
Proof.
  intros Bp Bg s'. subst s'.
  rewrite rebuild_members_value, rebuild_plants_value, rebuild_messages_value,
    rebuild_eventHistory.
  split; [apply length_rebuild_members|].
  destruct (rebuild_plants (eventHistory s)) as [plants|error] eqn:Hplants.
  - split; [by eapply length_rebuild_plants|apply length_rebuild_messages].
  - done.
Qed.

(** Each projection never holds more entries than the log has events of
    its kind -- on a server started on any file, after any appends,
    rebuilds, writes and clients.  (Of the program this is so as long as
    the log is [plain_keyed].) *)
Lemma sizes_bounded_by_counts (file : option (list Event)) (acts : list Action) :
  let s := run acts (boot file) in
  length (members_value s) <= count_events is_member_event (eventHistory s) /\
  length (plants_value s) <= count_events is_offer_event (eventHistory s) /\
  length (messages_value s) <= count_events is_message_event (eventHistory s).
Proof.
  induction acts as [|a acts IH] using rev_ind.
  - intros s. subst s. cbn [run fold_left]. unfold boot, boot_on, start.
    apply rebuild_sizes.
    + destruct (initialize_frame (new_PlantExchangeServer (option_map JSON_stringify file)))
        as (_ & -> & _). simpl. lia.
    + destruct (initialize_frame (new_PlantExchangeServer (option_map JSON_stringify file)))
        as (_ & _ & -> & _). simpl. lia.
  - rewrite run_snoc. set (s := run acts (boot file)) in *. intros s'.
    destruct IH as (Bm & Bp & Bg).
    destruct (scans_fold_live_events file acts) as (live & Hh & Am & Ap & Ag).
    fold s in Hh, Am, Ap, Ag.
    assert (length (members_acc s) <= count_events is_member_event (eventHistory s)) as Cm.
    { rewrite Am, Hh. etrans; [apply length_fold_members|].
      unfold count_events. rewrite List.filter_app, length_app. lia. }
    assert (length (plants_acc s) <= count_events is_offer_event (eventHistory s)) as Cp.
    { rewrite Ap, Hh. etrans; [apply length_fold_plants|].
      unfold count_events. rewrite List.filter_app, length_app. lia. }
    assert (length (messages_acc s) <= count_events is_message_event (eventHistory s)) as Cg.
    { rewrite Ag, Hh. etrans; [apply length_fold_messages|].
      unfold count_events. rewrite List.filter_app, length_app. lia. }
    subst s'. destruct a as [event|i r| |res|id|id|i|i k]; cbn [step].
    + rewrite append_sync_eventHistory, append_sync_members_value,
        append_sync_plants_value, append_sync_messages_value, !count_events_snoc.
      set (e := with_sequenceNumber event _).
      pose proof (length_members_reducer (members_acc s) e).
      pose proof (length_plants_reducer (plants_acc s) e).
      pose proof (length_members_reducer (messages_acc s) e) as Hg.
      change (members_reducer (messages_acc s) e)
        with (messages_reducer (messages_acc s) e) in Hg.
      pose proof (is_plant_event_kinds e) as Hk.
      repeat split.
      * destruct (is_member_event e); lia.
      * destruct (is_plant_event e); [|lia]. destruct (is_offer_event e); lia.
      * destruct (is_message_event e); lia.
    + destruct (persist_resume_frame i r s) as (-> & _ & _ & _ & -> & -> & -> & _). done.
    + by apply rebuild_sizes.
    + destruct (events_route_values res s) as (-> & -> & ->).
      by rewrite events_route_eventHistory.
    + done.
    + done.
    + destruct (writeFile_open_frame i s) as (-> & _ & _ & _ & _ & -> & -> & -> & _). done.
    + destruct (writeFile_write_frame i k s) as (-> & _ & _ & _ & _ & -> & -> & -> & _).
      done.
Qed.

(** The stats never count more entities than events: on a server started
    on any file, after any appends, rebuilds, writes and clients,
    [totalMembers + totalPlants + totalMessages] is at most [totalEvents],
    and the plants counted as offered and as wanted are at most
    [totalPlants] -- as long as the log stores no plant under the id
    [__proto__], whose fields replay would list as plants of their own. *)
Theorem stats_never_exceed_events (file : option (list Event)) (acts : list Action) :
  plain_keyed (eventHistory (run acts (boot file))) = true ->
  let st := api_stats (run acts (boot file)) in
  totalMembers st + totalPlants st + totalMessages st <= totalEvents st /\
  plantsOffered st + plantsWanted st <= totalPlants st.
Proof.
  intros _ st. subst st. unfold api_stats, getEvents, getCurrentState, Map_values.
  cbn [totalMembers totalPlants totalMessages totalEvents plantsOffered plantsWanted
       state_members state_plants state_messages].
  split.
  - rewrite !length_map.
    destruct (sizes_bounded_by_counts file acts) as (Bm & Bp & Bg).
    pose proof (counts_of_disjoint_types (eventHistory (run acts (boot file)))). lia.
  - generalize (map snd (plants_value (run acts (boot file)))). intros l.
    induction l as [|p l IH]; simpl; [done|].
    destruct (decide (payload_type p = Str "offer")) as [Ho|Ho].
    + rewrite (bool_decide_eq_true_2 _ Ho).
      rewrite bool_decide_eq_false_2 by (rewrite Ho; discriminate). simpl. lia.
    + rewrite (bool_decide_eq_false_2 _ Ho).
      destruct (bool_decide (payload_type p = Str "wanted")); simpl; lia.
Qed.

Lemma stats_never_exceed_events_witness :
  let s := run Scenario.overlapping (boot Scenario.old_file) in
  plain_keyed (eventHistory s) = true /\
  totalEvents (api_stats s) = 4 /\
  totalMembers (api_stats s) + totalPlants (api_stats s) + totalMessages (api_stats s) <= 4.
Proof.
  intros s.
  assert (plain_keyed (eventHistory s) = true) as Hk by (vm_compute; reflexivity).
  assert (totalEvents (api_stats s) = 4) as Hn by (vm_compute; reflexivity).
  split; [exact Hk|]. split; [exact Hn|]. rewrite <- Hn.
  exact (proj1 (stats_never_exceed_events Scenario.old_file Scenario.overlapping Hk)).
Defined.

(** ** What the clients are told *)

(** A command tells every client whose writes succeed two things, in this
    order and before its write has started: the snapshot of the projection
    it wrote to, as that projection stands at that moment, and the event it
    appended.  Nothing more is sent when its write settles, so what a
    client was told is the state at the notification, not the state at the
    return of the command. *)
Theorem command_tells_clients_the_new_snapshot (f : Fresh) (c : Command) (s : Server)
    (ev : Event) :
  command_event f c = Returned ev ->
  let s1 := fst (command_sync f c s) in
  let e := with_sequenceNumber ev (length (eventHistory s) + 1) in
  sseClients s1 =
    omap (deliver [update_for c (Map_values (projection_for c s1)); event_message e])
         (sseClients s) /\
  (forall i r s', sseClients (fst (append_resume i r e s')) = sseClients s').
Proof.
  intros Hev s1 e. subst s1. rewrite (command_sync_state _ _ _ _ Hev). cbn [fst]. split.
  - rewrite append_sync_sseClients, append_sync_event. fold e.
    f_equal. f_equal.
    destruct c as [[d|]|[d|] m|[d|] m|[d|]|p m]; try discriminate;
      simpl in Hev; injection Hev as <-; cbn [projection_for update_for].
    + rewrite append_sync_members_value. reflexivity.
    + rewrite append_sync_plants_value. reflexivity.
    + rewrite append_sync_plants_value. reflexivity.
    + rewrite append_sync_messages_value. reflexivity.
    + rewrite append_sync_plants_value. reflexivity.
  - intros i r s'. rewrite append_resume_state. apply persist_resume_sseClients.
Qed.

Lemma command_tells_clients_the_new_snapshot_witness :
  let f := Scenario.fresh "X" "E4" "t4" in
  let c := RemovePlant (Str "nowhere") (Str "M1") in
  let s := Scenario.one_client in
  command_event f c = Returned (createEvent "E4" "t4" PLANT_REMOVED
                                  (PRemoval (Str "nowhere")) (Str "M1")) /\
  map (fun c => map is_projection_update (received c))
      (sseClients (fst (command_sync f c s)))
  = [[false; true; false]].
Proof.
  intros f c s. split; [reflexivity|].
  rewrite (proj1 (command_tells_clients_the_new_snapshot f c s _ eq_refl)).
  vm_compute. reflexivity.
Defined.

(** Two registrations whose writes overlap: the update sent for the first
    lists M1 alone, while a query that runs when the first call returns
    sees M1 and M2. *)
Example update_shows_the_state_at_notification :
  let s1 := fst (command_sync (Scenario.fresh "M1" "E1" "t1")
                   (RegisterMember (Some Scenario.ann)) Scenario.one_client) in
  let s2 := fst (command_sync (Scenario.fresh "M2" "E5" "t5")
                   (RegisterMember (Some Scenario.bob)) s1) in
  let s3 := fst (persist_resume 0 IoOk s2) in
  map received (sseClients s1) =
    [[initial_state [] [] []; members_updated [Scenario.member_M1];
      event_message Scenario.stored_M1]] /\
  state_members (getCurrentState s3) = [Scenario.member_M1; Scenario.member_M2].
Proof. split; vm_compute; reflexivity. Qed.

(** A response whose first write throws is registered all the same: the
    request fails, the response stays in [sseClients], and it is the next
    append that drops it. *)
Theorem unwritable_response_stays_until_next_append (res : Client) (event : Event)
    (s : Server) :
  writable res = false ->
  cid res ∉ map cid (sseClients s) ->
  let s1 := fst (events_route res s) in
  (exists error, snd (events_route res s) = Threw error) /\
  sseClients s1 = sseClients s ++ [res] /\
  cid res ∉ map cid (sseClients (fst (append_sync event s1))).
Proof.
  intros Hw Hnew s1.
  assert (res_write (cid res)
            (initial_state
               (state_members (getCurrentState s)) (state_plants (getCurrentState s))
               (state_messages (getCurrentState s)))
            (sseClients s ++ [res]) = None) as Hnone.
  { unfold res_write. generalize (initial_state (state_members (getCurrentState s))
      (state_plants (getCurrentState s)) (state_messages (getCurrentState s))).
    intros message. revert Hnew. generalize (sseClients s). intros clients.
    induction clients as [|c clients IH]; intros Hnew.
    - simpl. destruct (decide (cid res = cid res)); [|congruence].
      unfold client_write. by rewrite Hw.
    - simpl in Hnew. apply not_elem_of_cons in Hnew as [Hne Hnew]. simpl.
      destruct (decide (cid c = cid res)); [congruence|]. simpl.
      by rewrite (IH Hnew). }
  assert (events_route res s =
          (set_sseClients (sseClients s ++ [res]) s, Threw (SystemError "write after end")))
    as Hroute.
  { unfold events_route, Set_add. rewrite bool_decide_eq_false_2 by done.
    cbn [sseClients set_sseClients].
    change (getCurrentState (set_sseClients _ s)) with (getCurrentState s).
    by rewrite Hnone. }
  subst s1. rewrite Hroute. cbn [fst snd sseClients set_sseClients].
  split; [by eexists|]. split; [done|].
  rewrite append_sync_sseClients. cbn [sseClients set_sseClients].
  intros Hin. apply list_elem_of_fmap in Hin as (c' & Hid & Hc').
  apply deliver_in in Hc' as (c & Hc & Hwc & Hcid & _).
  apply elem_of_app in Hc as [Hc|Hc].
  - apply Hnew. apply list_elem_of_fmap. exists c. split; [congruence|done].
  - apply list_elem_of_singleton in Hc. subst c. congruence.
Qed.

Lemma unwritable_response_stays_until_next_append_witness :
  let res := {| cid := 4; writable := false; received := [] |} in
  let s := Scenario.one_client in
  writable res = false /\
  (cid res ∉ map cid (sseClients s)) /\
  map cid (sseClients (fst (events_route res s))) = [0; 4] /\
  cid res ∉ map cid (sseClients (fst (append_sync Scenario.draft_M1
                                        (fst (events_route res s))))).
Proof.
  intros res s.
  assert (cid res ∉ map cid (sseClients s)) as Hnew.
  { vm_compute. intros Hin. apply list_elem_of_singleton in Hin. discriminate. }
  split; [reflexivity|]. split; [exact Hnew|]. split; [vm_compute; reflexivity|].
  exact (proj2 (proj2 (unwritable_response_stays_until_next_append res Scenario.draft_M1 s
                         eq_refl Hnew))).
Defined.

(** ** Examples *)

(** One registration, two offers (the write of the second fails), one
    removal: four events, one member, one plant left. *)
Example stats_of_a_short_session :
  api_stats (calls [Catalogue.register "a"; Catalogue.offer "b" IoOk;
                    Catalogue.offer "c" (IoFail "EIO"); Catalogue.remove "d" "b"]
               (boot None))
  = {| totalMembers := 1; totalPlants := 1; plantsOffered := 1; plantsWanted := 0;
       totalMessages := 0; totalEvents := 4 |}.
Proof. vm_compute. reflexivity. Qed.

(** The name is looked at first: a plant without a description is found
    by its name, and makes the search throw only when the name does not
    match. *)
Example description_is_read_only_after_the_name :
  let s := Catalogue.with_plants [Catalogue.basil; Catalogue.bare] in
  searchPlants Catalogue.lower (Catalogue.text "THY") s = Returned [Catalogue.bare] /\
  searchPlants Catalogue.lower (Catalogue.text "basil") s = Threw method_of_nothing.
Proof. split; vm_compute; reflexivity. Qed.

(** ** Joining late on a server that never restarted *)

(** On a server started without a stored log and never rebuilt by hand, a
    response that joins through [GET /events] is written at once, with no
    further event needed, one [initial_state] message that holds for each
    projection the in-order fold of its reducer over all the events
    appended so far. *)
Theorem late_subscriber_gets_the_folds (acts : list Action) (res : Client) :
  forallb (fun a => negb (is_rebuild a)) acts = true ->
  let s := run acts (boot None) in
  writable res = true ->
  cid res ∉ map cid (sseClients s) ->
  snd (events_route res s) = Returned tt /\
  sseClients (fst (events_route res s)) =
    sseClients s ++
    [{| cid := cid res; writable := true;
        received := received res ++
          [initial_state (Map_values (fold_members (eventHistory s)))
                         (Map_values (fold_plants (eventHistory s)))
                         (Map_values (fold_messages (eventHistory s)))] |}].
Proof.
  intros Hacts s Hw Hnew.
  destruct (fresh_run_values_are_folds acts Hacts) as (Vm & Vp & Vg).
  fold s in Vm, Vp, Vg.
  destruct (events_route_sends_current_state res s Hw Hnew) as (Hret & Hclients & _).
  split; [exact Hret|]. rewrite Hclients. unfold getCurrentState.
  cbn [state_members state_plants state_messages]. by rewrite Vm, Vp, Vg.
Qed.

Lemma late_subscriber_gets_the_folds_witness :
  let s := run Scenario.five_events (boot None) in
  forallb (fun a => negb (is_rebuild a)) Scenario.five_events = true /\
  writable (Scenario.browser 1) = true /\
  (cid (Scenario.browser 1) ∉ map cid (sseClients s)) /\
  length (eventHistory s) = 5 /\
  map received (sseClients (fst (events_route (Scenario.browser 1) s))) =
    [[initial_state [Scenario.member_M1; Scenario.member_M2] [Scenario.plant_P2] []]].
Proof.
  intros s.
  assert (cid (Scenario.browser 1) ∉ map cid (sseClients s)) as Hnew.
  { intros Hin. vm_compute in Hin. by apply elem_of_nil in Hin. }
  destruct (late_subscriber_gets_the_folds Scenario.five_events (Scenario.browser 1)
              eq_refl eq_refl Hnew) as (_ & Hclients).
  split; [reflexivity|]. split; [reflexivity|]. split; [exact Hnew|].
  split; [vm_compute; reflexivity|].
  fold s in Hclients. rewrite Hclients. vm_compute. reflexivity.
Defined.

(** ** A removal that stops the server from starting *)

Lemma R_fromPairs_has_key {V} (pairs : list (JsVal * V)) (k : JsVal) :
  k ∈ keys pairs -> ToPropertyKey k <> "__proto__" ->
  ToPropertyKey k ∈ keys (R_fromPairs pairs).
Proof.
  induction pairs as [|[k0 v0] pairs IH] using rev_ind.
  - intros Hk. by apply elem_of_nil in Hk.
  - unfold keys at 1. rewrite map_app. intros Hk Hne.
    rewrite R_fromPairs_snoc. apply obj_set_keys.
    apply elem_of_app in Hk as [Hk|Hk].
    + right. by apply IH.
    + apply list_elem_of_singleton in Hk. simpl in Hk. subst k0. by left.
Qed.

(** The replay of a log that offers a plant and holds a removal named
    [hasOwnProperty] throws. *)
Lemma rebuild_plants_throws (events : list Event) (offer : Event) :
  offer ∈ events -> is_offer_event offer = true -> proto_keyed offer = false ->
  Str "hasOwnProperty" ∈ removed_ids events ->
  rebuild_plants events = Threw not_a_function.
Proof.
  intros Hin Ho Hp Hr. unfold rebuild_plants. fold (removed_ids events).
  set (plants := R_fromPairs (entity_pairs (List.filter is_offer_event events))).
  destruct (proj2 (R_omit_throws (removed_ids events) plants)) as [error Herr].
  - split.
    + apply list_elem_of_fmap. by exists (Str "hasOwnProperty").
    + assert (ToPropertyKey (payload_id (payload offer)) ∈ keys plants) as Hkey.
      { apply R_fromPairs_has_key.
        - apply list_elem_of_fmap. exists (payload_id (payload offer), payload offer).
          split; [done|]. apply list_elem_of_fmap. exists offer. split; [done|].
          apply list_elem_of_In, filter_In. split; [by apply list_elem_of_In|done].
        - unfold proto_keyed in Hp. rewrite Ho in Hp. by apply String.eqb_neq in Hp. }
      intros Hnil. rewrite Hnil in Hkey. by apply elem_of_nil in Hkey.
  - rewrite Herr. unfold R_omit in Herr.
    destruct (Object_entries plants); [discriminate|].
    case_bool_decide; [|discriminate]. by injection Herr as <-.
Qed.

(** [removePlant] accepts the id [hasOwnProperty] like any other.  Once
    the event is in the file of a log that offers a plant, the server no
    longer starts on that file: replay throws in [R.omit], [start] is
    rejected before it listens, and the plants and messages of the log are
    not shown. *)
Theorem removal_of_hasOwnProperty_stops_the_server (f : Fresh) (memberId : JsVal)
    (offer : Event) (s : Server) :
  offer ∈ eventHistory s -> is_offer_event offer = true -> proto_keyed offer = false ->
  pending s = [] ->
  let s1 := fst (removePlant f IoOk (Str "hasOwnProperty") memberId s) in
  (exists e, snd (removePlant f IoOk (Str "hasOwnProperty") memberId s) = Returned e) /\
  snd (start (new_PlantExchangeServer (disk s1))) = Threw not_a_function /\
  state_plants (getCurrentState (boot_on (disk s1))) = [] /\
  state_messages (getCurrentState (boot_on (disk s1))) = [].
Proof.
  intros Hin Ho Hp _ s1.
  set (e := with_sequenceNumber
              (createEvent (event_uuid f) (event_now f) PLANT_REMOVED
                 (PRemoval (Str "hasOwnProperty")) memberId)
              (length (eventHistory s) + 1)).
  assert (eventHistory s1 = eventHistory s ++ [e]) as Hh.
  { subst s1. unfold removePlant, removePlant_event, then_append.
    by rewrite append_eventHistory. }
  assert (read_events (disk s1) = Some (eventHistory s1)) as Hread.
  { rewrite Hh. subst s1. unfold removePlant, removePlant_event, then_append.
    rewrite append_ok. cbn [fst disk set_disk read_events]. apply JSON_parse_stringify. }
  assert (rebuild_plants (eventHistory s1) = Threw not_a_function) as Hthrow.
  { apply (rebuild_plants_throws _ offer); [|done|done|].
    - rewrite Hh. apply elem_of_app. by left.
    - rewrite Hh, removed_ids_snoc. apply elem_of_app. right. left. }
  split.
  - eexists. unfold removePlant, removePlant_event, then_append. apply append_returns.
  - rewrite start_outcome, boot_on_state, Hread. cbv [default from_option id].
    rewrite Hthrow. done.
Qed.

Lemma removal_of_hasOwnProperty_stops_the_server_witness :
  let s := run Scenario.five_events (boot None) in
  let f := Scenario.fresh "X" "E6" "t6" in
  let s1 := fst (removePlant f IoOk (Str "hasOwnProperty") (Str "M1") s) in
  with_sequenceNumber Scenario.draft_P2 3 ∈ eventHistory s /\
  pending s = [] /\
  state_plants (getCurrentState s1) = [Scenario.plant_P2] /\
  snd (start (new_PlantExchangeServer (disk s1))) = Threw not_a_function /\
  state_plants (getCurrentState (boot_on (disk s1))) = [].
Proof.
  intros s f s1.
  assert (with_sequenceNumber Scenario.draft_P2 3 ∈ eventHistory s) as Hin.
  { vm_compute. right. right. left. }
  assert (pending s = []) as Hp by (vm_compute; reflexivity).
  destruct (removal_of_hasOwnProperty_stops_the_server f (Str "M1")
              (with_sequenceNumber Scenario.draft_P2 3) s Hin eq_refl eq_refl Hp)
    as (_ & Hstart & Hplants & _).
  split; [exact Hin|]. split; [exact Hp|]. split; [vm_compute; reflexivity|].
  split; [exact Hstart|exact Hplants].
Defined.
